(** * Customer-service chatbot backend: retrieval and response shaping

    A shallow embedding of [src/services/groq_service.py],
    [src/services/rag_service.py] and the routes of [src/routes/chat.py].

    Text is modelled as lists of [ascii] characters with the ASCII
    classification Python applies to them ([str.strip], [str.lower], [\s],
    [\w]); code points above 127 are outside the model.  Similarity scores
    and confidences are rationals: the decimal literals of the code are
    read as exact, where Python rounds them to binary64.  Calls that leave
    the process (the hosted model, the vector store, the TF-IDF vectoriser,
    the PDF reader, the text splitter, the file system) are fields of a
    record of externals or of the machine state, and every one that can
    raise is given an outcome that can be an exception. *)

From Stdlib Require Import Ascii String.
From Stdlib Require Import List Bool Arith ZArith QArith Lia.
From Stdlib Require Import Sorted Permutation.
Import ListNotations.

Set Implicit Arguments.
Local Open Scope nat_scope.

(* ================================================================== *)
(** ** Python strings *)

Module Py.

Definition str := list ascii.

(** A literal of the source. *)
Definition py (s : string) : str := list_ascii_of_string s.

Definition nl : ascii := ascii_of_nat 10.
Definition dquote : ascii := ascii_of_nat 34.

(** U+2022, the bullet of the canned texts, as its UTF-8 bytes. *)
Definition bullet : str :=
  [ascii_of_nat 226; ascii_of_nat 128; ascii_of_nat 162].

Definition code (c : ascii) : nat := nat_of_ascii c.

(** [str.isspace] on ASCII: TAB, LF, VT, FF, CR, FS, GS, RS, US and space. *)
Definition is_space (c : ascii) : bool :=
  let n := code c in
  ((9 <=? n) && (n <=? 13)) || ((28 <=? n) && (n <=? 32)).

Definition is_upper (c : ascii) : bool :=
  let n := code c in (65 <=? n) && (n <=? 90).

Definition is_lower (c : ascii) : bool :=
  let n := code c in (97 <=? n) && (n <=? 122).

Definition is_digit (c : ascii) : bool :=
  let n := code c in (48 <=? n) && (n <=? 57).

(** [\w] on ASCII: letters, digits and the underscore. *)
Definition is_word (c : ascii) : bool :=
  is_upper c || is_lower c || is_digit c || (code c =? 95).

Definition lower_char (c : ascii) : ascii :=
  if is_upper c then ascii_of_nat (code c + 32) else c.

(** [s.lower()] *)
Definition lower (s : str) : str := map lower_char s.

Fixpoint lstrip (s : str) : str :=
  match s with
  | c :: s' => if is_space c then lstrip s' else s
  | [] => []
  end.

Definition rstrip (s : str) : str := rev (lstrip (rev s)).

(** [s.strip()] *)
Definition strip (s : str) : str := rstrip (lstrip s).

Definition char_eqb (a b : ascii) : bool := Ascii.eqb a b.

Fixpoint str_eqb (a b : str) : bool :=
  match a, b with
  | [], [] => true
  | x :: a', y :: b' => char_eqb x y && str_eqb a' b'
  | _, _ => false
  end.

(** [x in l] for a list of strings. *)
Definition str_in (x : str) (l : list str) : bool := existsb (str_eqb x) l.

(** [sep.join(l)] *)
Fixpoint join (sep : str) (l : list str) : str :=
  match l with
  | [] => []
  | [x] => x
  | x :: l' => x ++ sep ++ join sep l'
  end.

(** [s.startswith(p)] and [s.endswith(p)] *)
Fixpoint startswith (p s : str) : bool :=
  match p, s with
  | [], _ => true
  | x :: p', y :: s' => char_eqb x y && startswith p' s'
  | _ :: _, [] => false
  end.

Definition endswith (p s : str) : bool := startswith (rev p) (rev s).

(** Number of positions of [s] at which [p] occurs. *)
Fixpoint count_occ (p s : str) : nat :=
  match s with
  | [] => if startswith p [] then 1 else 0
  | _ :: s' => (if startswith p s then 1 else 0) + count_occ p s'
  end.

(** Truthiness of a string: [if s:]. *)
Definition truthy (s : str) : bool :=
  match s with [] => false | _ => true end.

(** Decimal rendering of a natural number, as [str(n)] gives it. *)
Fixpoint digits (fuel n : nat) (acc : str) : str :=
  match fuel with
  | 0 => acc
  | S f =>
      let d := ascii_of_nat (48 + n mod 10) in
      if n <? 10 then d :: acc else digits f (n / 10) (d :: acc)
  end.

Definition str_of_nat (n : nat) : str := digits (S n) n [].

(** What a Python expression evaluates to: a value or a raised exception. *)
Inductive outcome (A : Type) : Type :=
| Ok (a : A)
| Raise.
Arguments Raise {A}.

(** Python values that reach a returned dictionary. *)
#[local] Unset Elimination Schemes.
Inductive value : Type :=
| VNone
| VBool (b : bool)
| VNum (q : Q)
| VStr (s : str)
| VList (l : list value)
| VDict (d : list (string * value)).
#[local] Set Elimination Schemes.

(** A dictionary with literal keys, in insertion order. *)
Definition dict := list (string * value).

(** An item [k: v] of a dictionary display. *)
Definition kv (k : string) (v : value) : string * value := (k, v).

(** [k in d] and [d.get(k)] *)
Fixpoint dict_get (d : dict) (k : string) : option value :=
  match d with
  | [] => None
  | (k', v) :: d' => if String.eqb k k' then Some v else dict_get d' k
  end.

Definition dict_has (d : dict) (k : string) : bool :=
  match dict_get d k with Some _ => true | None => false end.

(** [d.get(k, default)] *)
Definition dict_get_default (d : dict) (k : string) (default : value) : value :=
  match dict_get d k with Some v => v | None => default end.

End Py.

(* ================================================================== *)
(** ** The fragment of Python's [re] the services use *)

Module Re.
Import Py.

(** The [flags=] argument. *)
Record flags := Flags { ignorecase : bool; multiline : bool; dotall : bool }.

Definition no_flags := Flags false false false.

(** One member of a character set, or a character on its own. *)
Inductive atom :=
| AChar (c : ascii)      (* a literal character, escaped or not *)
| ASpace                 (* \s *)
| AWord                  (* \w *)
| ADigit.                (* \d *)

Inductive cclass :=
| CAtom (a : atom)
| CAny                                  (* . *)
| CSet (negated : bool) (l : list atom) (* [...] and [^...] *).

(** Patterns.  Every repetition of the sources is applied to a single
    character or to a literal group, so [Star], [StarLazy] and [Plus] take
    a character class and [Opt] takes a pattern. *)
Inductive re :=
| Eps
| Chr (c : cclass)
| Bol                    (* ^ *)
| Eol                    (* $ *)
| Cat (a b : re)
| Alt (a b : re)
| Opt (a : re)           (* a? *)
| Star (c : cclass)      (* c* *)
| StarLazy (c : cclass)  (* c*? *)
| Plus (c : cclass).     (* c+ *)

(** A run of literal characters. *)
Fixpoint Lit (s : str) : re :=
  match s with
  | [] => Eps
  | [c] => Chr (CAtom (AChar c))
  | c :: s' => Cat (Chr (CAtom (AChar c))) (Lit s')
  end.

Fixpoint Seq (l : list re) : re :=
  match l with
  | [] => Eps
  | [r] => r
  | r :: l' => Cat r (Seq l')
  end.

Fixpoint Alts (l : list re) : re :=
  match l with
  | [] => Eps
  | [r] => r
  | r :: l' => Alt r (Alts l')
  end.

Definition atom_match (F : flags) (a : atom) (x : ascii) : bool :=
  match a with
  | AChar c =>
      if ignorecase F then char_eqb (lower_char x) (lower_char c)
      else char_eqb x c
  | ASpace => is_space x
  | AWord => is_word x
  | ADigit => is_digit x
  end.

Definition class_match (F : flags) (c : cclass) (x : ascii) : bool :=
  match c with
  | CAtom a => atom_match F a x
  | CAny => dotall F || negb (char_eqb x nl)
  | CSet neg l => xorb neg (existsb (fun a => atom_match F a x) l)
  end.

(** A position of the subject: the character before it, if any, and the
    text from it on. *)
Definition at_bol (F : flags) (prev : option ascii) : bool :=
  match prev with
  | None => true
  | Some c => multiline F && char_eqb c nl
  end.

Definition at_eol (F : flags) (s : str) : bool :=
  match s with
  | [] => true
  | c :: s' =>
      char_eqb c nl && (multiline F || match s' with [] => true | _ => false end)
  end.

Definition orelse {A} (a b : option A) : option A :=
  match a with Some _ => a | None => b end.

Section Matcher.
Variable A : Type.
Variable F : flags.

(** [c*] followed by [k]: the longest run first, then shorter ones. *)
Fixpoint star_greedy (c : cclass) (prev : option ascii) (s : str)
    (k : option ascii -> str -> option A) : option A :=
  match s with
  | x :: s' =>
      if class_match F c x
      then orelse (star_greedy c (Some x) s' k) (k prev s)
      else k prev s
  | [] => k prev s
  end.

(** [c*?] followed by [k]: the shortest run first, then longer ones. *)
Fixpoint star_lazy (c : cclass) (prev : option ascii) (s : str)
    (k : option ascii -> str -> option A) : option A :=
  match k prev s with
  | Some r => Some r
  | None =>
      match s with
      | x :: s' => if class_match F c x then star_lazy c (Some x) s' k else None
      | [] => None
      end
  end.

(** The backtracking matcher: [m r prev s k] tries the ways [r] matches a
    prefix of [s], in the order of Python's engine, and returns the answer
    of the continuation [k] for the first way it accepts. *)
Fixpoint m (r : re) (prev : option ascii) (s : str)
    (k : option ascii -> str -> option A) : option A :=
  match r with
  | Eps => k prev s
  | Chr c =>
      match s with
      | x :: s' => if class_match F c x then k (Some x) s' else None
      | [] => None
      end
  | Bol => if at_bol F prev then k prev s else None
  | Eol => if at_eol F s then k prev s else None
  | Cat a b => m a prev s (fun p t => m b p t k)
  | Alt a b => orelse (m a prev s k) (m b prev s k)
  | Opt a => orelse (m a prev s k) (k prev s)
  | Star c => star_greedy c prev s k
  | StarLazy c => star_lazy c prev s k
  | Plus c =>
      match s with
      | x :: s' => if class_match F c x then star_greedy c (Some x) s' k else None
      | [] => None
      end
  end.

End Matcher.

(** The match that starts at this position, if there is one: the last
    character it consumed and the text after it. *)
Definition match_at (F : flags) (r : re) (prev : option ascii) (s : str)
  : option (option ascii * str) :=
  m F r prev s (fun p t => Some (p, t)).

(** [re.match(r, s, flags)] as a truth value. *)
Definition re_match (F : flags) (r : re) (s : str) : bool :=
  match match_at F r None s with Some _ => true | None => false end.

Fixpoint search_from (F : flags) (r : re) (prev : option ascii) (s : str) : bool :=
  match match_at F r prev s with
  | Some _ => true
  | None =>
      match s with
      | [] => false
      | x :: s' => search_from F r (Some x) s'
      end
  end.

(** [re.search(r, s, flags)] as a truth value. *)
Definition re_search (F : flags) (r : re) (s : str) : bool :=
  search_from F r None s.

(** [re.sub]: leftmost matches, each replaced by [repl], the scan resuming
    after the match.  No pattern of the services matches the empty string
    (see [min_len]); a match that consumes nothing is passed over like a
    position without a match. *)
Fixpoint sub_loop (fuel : nat) (F : flags) (r : re) (repl : str)
    (prev : option ascii) (s : str) : str :=
  match fuel with
  | 0 => s
  | S f =>
      match match_at F r prev s with
      | Some (p, t) =>
          if length t <? length s
          then repl ++ sub_loop f F r repl p t
          else match s with
               | [] => []
               | x :: s' => x :: sub_loop f F r repl (Some x) s'
               end
      | None =>
          match s with
          | [] => []
          | x :: s' => x :: sub_loop f F r repl (Some x) s'
          end
      end
  end.

(** [re.sub(r, repl, s, flags=F)] *)
Definition re_sub (F : flags) (r : re) (repl : str) (s : str) : str :=
  sub_loop (S (length s)) F r repl None s.

(** The least number of characters a match consumes. *)
Fixpoint min_len (r : re) : nat :=
  match r with
  | Eps | Bol | Eol | Opt _ | Star _ | StarLazy _ => 0
  | Chr _ | Plus _ => 1
  | Cat a b => min_len a + min_len b
  | Alt a b => Nat.min (min_len a) (min_len b)
  end.

End Re.

(* ================================================================== *)
(** ** The world around the services, and the machine they run on *)

Module Machine.
Import Py.

(** [os.path.join(a, b)] for a relative [b]. *)
Definition path_join (a b : str) : str := a ++ py "/" ++ b.

(** One POST to the chat-completions endpoint. *)
Record request := Request {
  messages : list (str * str);     (* role, content *)
  temperature : Q;
  top_p : Q;
  max_tokens : Z
}.

(** What [requests.post] gives back: a status code and, behind
    [result['choices'][0]['message']['content']], a text or a lookup that
    raises. *)
Record http_response := Http {
  status_code : nat;
  content : outcome str
}.

(** A LangChain [Document]: its text, and its metadata when the object has
    the attribute. *)
Record Document := Doc {
  page_content : str;
  metadata : option dict
}.

(** A value of the docstore's dictionary: a document, or an object
    without a [page_content] attribute. *)
Inductive stored :=
| StoredDocument (d : Document)
| StoredObject.

(** A FAISS vector store, as far as the service looks into it: the
    docstore's dictionary from ids to what is stored, in insertion order. *)
Record vectorstore := Store { docstore : list (str * stored) }.

(** A TF-IDF matrix, named by the texts it was fitted on. *)
Inductive tfidf_matrix := Fitted (texts : list str).

(** An entry of the pickled document list: a dictionary, or another
    object together with the outcome of converting it to a dictionary. *)
Inductive pickled :=
| PDict (d : dict)
| PObject (converted : outcome dict).

Record kb_data := KbData {
  kb_documents : list pickled;
  kb_document_vectors : option tfidf_matrix
}.

(** What is found at a path of the data directory. *)
Inductive index_file :=
| Readable (v : vectorstore)
| Unreadable.

Record filesystem := Fs {
  root_files : outcome (list str);        (* os.listdir(project root) *)
  company_documents : option (outcome (list str));
                                          (* the subdirectory, if it exists:
                                             os.listdir of it *)
  pdf_pages : str -> outcome (list (option str));
                                          (* extract_text() of each page *)
  index_at : str -> option index_file;    (* saved FAISS indexes by path *)
  pickle_at : str -> option (outcome kb_data)
}.

(** The libraries and services the code calls.  The hosted model answers
    the [n]-th request of a run; two equal requests need not get equal
    answers. *)
Record externals := Ext {
  llm : nat -> request -> outcome http_response;
  split_text : str -> list str;
  from_texts : list str -> outcome vectorstore;
  save_local : vectorstore -> str -> bool;            (* false: it raises *)
  embed_dim : outcome nat;
  retrieve : vectorstore -> str -> Z -> outcome (list Document);
  fit_transform : list str -> outcome tfidf_matrix;
  similarities : tfidf_matrix -> str -> outcome (list Q)
}.

(** An attribute of [self] that the code probes with [hasattr] and
    compares with [None]. *)
Inductive attr (A : Type) :=
| Absent
| IsNone
| Present (a : A).
Arguments Absent {A}.
Arguments IsNone {A}.

Definition available {A} (a : attr A) : bool :=
  match a with Present _ => true | _ => false end.

Record RAGService := Rag {
  documents : list dict;
  document_vectors : option tfidf_matrix;
  knowledge_base_path : str;
  faiss_index : attr vectorstore;
  vector_dim : attr nat
}.

(** Method entries and writes that the properties below speak about. *)
Inductive event :=
| Call_load_faiss_index
| Call_load_knowledge_base
| Call_load_sample_documents
| Call_force_process_pdf
| Call_process_pdf_and_index (pdf_path : str)
| Call_search_documents
| Call_search_documents_faiss
| Retriever_invoke
| Splitter_input (text : str)
| Save_local (path : str).

Record machine := Mach {
  self : RAGService;
  fs : filesystem;
  llm_calls : nat;
  trace : list event       (* oldest first *)
}.

(** Computations: a state transformer whose result may be an exception;
    the state reached when it is raised is kept. *)
Definition M (A : Type) : Type := machine -> outcome A * machine.

Definition ret {A} (a : A) : M A := fun st => (Ok a, st).

Definition raise {A} : M A := fun st => (Raise, st).

Definition bind {A B} (c : M A) (k : A -> M B) : M B :=
  fun st =>
    match c st with
    | (Ok a, st') => k a st'
    | (Raise, st') => (Raise, st')
    end.

(** [try: c  except Exception: h] *)
Definition try_except {A} (c : M A) (h : M A) : M A :=
  fun st =>
    match c st with
    | (Ok a, st') => (Ok a, st')
    | (Raise, st') => h st'
    end.

Definition lift {A} (o : outcome A) : M A := fun st => (o, st).

Definition get_self : M RAGService := fun st => (Ok (self st), st).

Definition get_fs : M filesystem := fun st => (Ok (fs st), st).

Definition modify_self (f : RAGService -> RAGService) : M unit :=
  fun st => (Ok tt, Mach (f (self st)) (fs st) (llm_calls st) (trace st)).

Definition modify_fs (f : filesystem -> filesystem) : M unit :=
  fun st => (Ok tt, Mach (self st) (f (fs st)) (llm_calls st) (trace st)).

Definition emit (e : event) : M unit :=
  fun st => (Ok tt, Mach (self st) (fs st) (llm_calls st) (trace st ++ [e])).

Definition set_documents (d : list dict) (r : RAGService) : RAGService :=
  Rag d (document_vectors r) (knowledge_base_path r) (faiss_index r) (vector_dim r).

Definition set_document_vectors (v : option tfidf_matrix) (r : RAGService) : RAGService :=
  Rag (documents r) v (knowledge_base_path r) (faiss_index r) (vector_dim r).

Definition set_faiss_index (i : attr vectorstore) (r : RAGService) : RAGService :=
  Rag (documents r) (document_vectors r) (knowledge_base_path r) i (vector_dim r).

Definition set_vector_dim (n : attr nat) (r : RAGService) : RAGService :=
  Rag (documents r) (document_vectors r) (knowledge_base_path r) (faiss_index r) n.

Definition write_index (path : str) (v : vectorstore) (f : filesystem) : filesystem :=
  Fs (root_files f) (company_documents f) (pdf_pages f)
     (fun p => if str_eqb p path then Some (Readable v) else index_at f p)
     (pickle_at f).

End Machine.

Declare Scope m_scope.
Delimit Scope m_scope with M.
Notation "x <- c ;; k" := (Machine.bind c (fun x => k))
  (at level 61, c at next level, right associativity) : m_scope.
Notation "c ;;; k" := (Machine.bind c (fun _ => k))
  (at level 61, right associativity) : m_scope.

(* ================================================================== *)
(** ** [GroqService] *)

Module Groq.
Import Py Re Machine.
Local Open Scope m_scope.

(** First line of [self.system_prompt]; the rest of the constant is prompt
    text that only the hosted model reads. *)
Definition system_prompt : str :=
  py "You are TechCorp Solutions' professional AI assistant. Provide direct, accurate answers to customer inquiries.".

(** [_chat]: one request; [None] on a status other than 200 and on every
    exception, the stripped content otherwise. *)
Definition _chat (E : externals) (msgs : list (str * str))
    (temperature top_p : Q) (max_tokens : Z) : M (option str) :=
  let temperature := if Qle_bool temperature 0 then (1 # 10)%Q else temperature in
  let max_tokens := if (8192 <? max_tokens)%Z then 8192%Z else max_tokens in
  fun st =>
    let n := llm_calls st in
    let st' := Mach (self st) (fs st) (S n) (trace st) in
    match llm E n (Request msgs temperature top_p max_tokens) with
    | Ok resp =>
        if status_code resp =? 200
        then match content resp with
             | Ok c => (Ok (Some (strip c)), st')
             | Raise => (Ok None, st')
             end
        else (Ok None, st')
    | Raise => (Ok None, st')
    end.

(** One exchange of the conversation history. *)
Record exchange := Exchange {
  user_message : option str;
  bot_response : option str
}.

Definition last2 {A} (l : list A) : list A := skipn (length l - 2) l.

Definition opt_truthy (o : option str) : bool :=
  match o with Some s => truthy s | None => false end.

Definition _build_prompt (query context : str)
    (conversation_history : option (list exchange)) : str :=
  let part1 :=
    if truthy context
    then [py "RELEVANT COMPANY INFORMATION:" ++ [nl] ++ context ++ [nl]]
    else [] in
  let part2 :=
    match conversation_history with
    | Some ((_ :: _) as h) =>
        [py "CONVERSATION CONTEXT:"]
        ++ flat_map (fun msg =>
             (match user_message msg with
              | Some u => if truthy u then [py "Customer: " ++ u] else []
              | None => []
              end)
             ++
             (match bot_response msg with
              | Some b => if truthy b then [py "Assistant: " ++ b] else []
              | None => []
              end)) (last2 h)
        ++ [[]]
    | _ => []
    end in
  let part3 :=
    [ py "CUSTOMER QUESTION: " ++ query;
      nl :: py "INSTRUCTIONS: Provide a specific, professional answer with proper formatting:";
      bullet ++ py " Use **bold** for key terms, service names, and important information";
      bullet ++ py " Structure with bullet points (" ++ bullet ++ py ") and clear sections";
      bullet ++ py " Use headings like **Service Overview:** or **Key Features:**";
      bullet ++ py " If asking about pricing, give exact prices in **bold**";
      bullet ++ py " If asking about services, focus on that service only with structured details";
      bullet ++ py " Be precise, actionable, and well-formatted";
      bullet ++ py " DO NOT include any signature or closing - the system will add it automatically";
      bullet ++ py " Never use placeholder text like [Your Name]";
      bullet ++ py " Focus on the content only, no greetings or closings" ] in
  join [nl] (part1 ++ part2 ++ part3).

(** The text every normalised reply is meant to end with. *)
Definition signature : str :=
  py "Best regards," ++ [nl] ++ py "TechCorp Solutions Customer Service".

Definition company_name : str := py "TechCorp Solutions Customer Service".

Definition _fallback_response (query context : str) : str :=
  let base_response :=
    if truthy context then
      join [nl]
        [ py "**Service Information Available**";
          [];
          py "I have some information about this topic, but I need to verify the specific details. Based on our documentation:";
          [];
          bullet ++ py " " ++ firstn 150 context ++ py "...";
          [];
          py "**For Accurate Information:**";
          bullet ++ py " **Contact:** sales@techcorp.com";
          bullet ++ py " **Phone:** **+1 (555) 123-4568**";
          bullet ++ py " **Response Time:** Within **2 business hours**" ]
    else
      join [nl]
        [ py "**Information Request**";
          [];
          py "I apologize, but I don't have specific information about that topic in my knowledge base.";
          [];
          py "**Available Support:**";
          bullet ++ py " **Services:** Cloud Migration, AI/ML Solutions, Cybersecurity, Web Development";
          bullet ++ py " **Contact:** sales@techcorp.com";
          bullet ++ py " **Phone:** **+1 (555) 123-4568**";
          bullet ++ py " **Response Time:** Within **2 business hours**" ] in
  base_response ++ [nl; nl] ++ signature.

(** *** The patterns of [_clean_response] *)

Definition NL : re := Chr (CAtom (AChar nl)).
Definition ws : re := Star (CAtom ASpace).        (* \s* *)
Definition dots : re := Star CAny.                (* .* *)
Definition dots_lazy : re := StarLazy CAny.       (* .*? *)

Definition I : flags := Flags true false false.     (* re.IGNORECASE *)
Definition IS : flags := Flags true false true.     (* IGNORECASE | DOTALL *)
Definition IMS : flags := Flags true true true.     (* IGNORECASE | MULTILINE | DOTALL *)

Definition placeholder_tokens : list str :=
  [ py "[Your Name]";
    py "[Agent Name]";
    py "[Customer Service Representative]";
    py "[Representative Name]";
    py "[Name]";
    py "[Agent]";
    py "[CSR]" ].

(** [\[Your Name\]] and the like: the escaped brackets are literals. *)
Definition placeholder_patterns : list re := map Lit placeholder_tokens.

(** [^.*?Best regards,.*?\n.*?\n] and its two siblings. *)
Definition leading_signature (phrase : str) : re :=
  Seq [Bol; dots_lazy; Lit phrase; dots_lazy; NL; dots_lazy; NL].

(** [\n\s*Best regards,.*$] and its siblings. *)
Definition trailing (phrase : str) : re :=
  Seq [NL; ws; Lit phrase; dots; Eol].

Definition signature_patterns : list re :=
  [ trailing (py "Best regards,");
    trailing (py "Sincerely,");
    trailing (py "Thank you,");
    trailing (py "Regards,");
    trailing (py "TechCorp Solutions");
    trailing (py "Customer Service");
    trailing (py "AI Assistant");
    (* \n\s*Best regards,\s*TechCorp Solutions Customer Service.*$ *)
    Seq [NL; ws; Lit (py "Best regards,"); ws;
         Lit (py "TechCorp Solutions Customer Service"); dots; Eol];
    (* \n\s*Best regards,\s*\n\s*TechCorp Solutions Customer Service.*$ *)
    Seq [NL; ws; Lit (py "Best regards,"); ws; NL; ws;
         Lit (py "TechCorp Solutions Customer Service"); dots; Eol];
    (* \n\s*Best regards,\s*\n\s*TechCorp Solutions\s*\n\s*Customer Service.*$ *)
    Seq [NL; ws; Lit (py "Best regards,"); ws; NL; ws;
         Lit (py "TechCorp Solutions"); ws; NL; ws;
         Lit (py "Customer Service"); dots; Eol] ].

(** [\n\s*Best regards,.*TechCorp.*Service.*$] *)
Definition last_signature_pattern : re :=
  Seq [NL; ws; Lit (py "Best regards,"); dots; Lit (py "TechCorp"); dots;
       Lit (py "Service"); dots; Eol].

(** The markdown-header pattern: [^], then two escaped stars or one to six
    hashes, [ ?], [[\w\s\-:]+], an optional pair of escaped stars, [:?]
    and [$]. *)
Definition header_pattern : re :=
  Seq [Bol;
       Alts [Lit (py "**"); Lit (py "#"); Lit (py "##"); Lit (py "###");
             Lit (py "####"); Lit (py "#####"); Lit (py "######")];
       Opt (Lit (py " "));
       Plus (CSet false [AWord; ASpace; AChar "-"%char; AChar ":"%char]);
       Opt (Lit (py "**"));
       Opt (Lit (py ":"));
       Eol].

(** [best regards.*techcorp.*service] *)
Definition has_signature_pattern : re :=
  Seq [Lit (py "best regards"); dots; Lit (py "techcorp"); dots;
       Lit (py "service")].

(** *** The stages of [_clean_response] *)

Definition replace_placeholders (response : str) : str :=
  fold_left (fun acc pattern => re_sub I pattern company_name acc)
            placeholder_patterns response.

Definition strip_leading_signatures (s : str) : str :=
  let s := re_sub IS (leading_signature (py "Best regards,")) [] s in
  let s := re_sub IS (leading_signature (py "Sincerely,")) [] s in
  re_sub IS (leading_signature (py "Thank you,")) [] s.

Definition strip_trailing_signatures (s : str) : str :=
  let s := fold_left (fun acc pattern => re_sub IMS pattern [] acc)
                     signature_patterns s in
  re_sub IMS last_signature_pattern [] s.

(** The text on which the length gate is decided. *)
Definition cleaned_text (response : str) : str :=
  strip (strip_trailing_signatures
           (strip_leading_signatures (replace_placeholders response))).

(** The gate: too short, a bare salutation, or a bare markdown header. *)
Definition gated (c : str) : bool :=
  (length c <? 20)
  || str_in (lower c) [[]; py "dear customer"; py "dear valued customer"]
  || re_match no_flags header_pattern c.

Definition has_signature (c : str) : bool := re_search IS has_signature_pattern c.

Definition _clean_response (response : str) : str :=
  if negb (truthy response) then _fallback_response [] []
  else
    let cleaned_response := cleaned_text response in
    if gated cleaned_response then _fallback_response [] []
    else if negb (has_signature cleaned_response)
         then cleaned_response ++ [nl; nl] ++ signature
         else cleaned_response.

Definition generate_response (E : externals) (query context : str)
    (conversation_history : option (list exchange)) : M str :=
  let prompt := _build_prompt query context conversation_history in
  let msgs := [(py "system", system_prompt); (py "user", prompt)] in
  result <- _chat E msgs (3 # 10)%Q (9 # 10)%Q 800%Z ;;
  match result with
  | Some r => if truthy r then ret (_clean_response r)
              else ret (_fallback_response query context)
  | None => ret (_fallback_response query context)
  end.

Definition valid_intents : list str :=
  [ py "greeting"; py "farewell"; py "pricing"; py "products";
    py "support"; py "technical"; py "general"; py "irrelevant" ].

(** The decision of [analyze_query_intent] on what [_chat] returned. *)
Definition intent_of_reply (result : option str) : str :=
  match result with
  | Some r =>
      if truthy r && str_in (lower r) valid_intents then lower r
      else py "general"
  | None => py "general"
  end.

Definition intent_messages (query : str) : list (str * str) :=
    [ (py "system",
       py "You are an intent classifier for TechCorp Solutions. Classify the user's query into one of these categories: greeting, farewell, pricing, products, support, technical, general, irrelevant. Respond with only the category name.");
      (py "user", py "Classify this query: " ++ query) ].

Definition analyze_query_intent (E : externals) (query : str) : M str :=
  result <- _chat E (intent_messages query) (1 # 10)%Q (9 # 10)%Q 10%Z ;;
  ret (intent_of_reply result).

(** The value of [result and result.strip().lower() == 'relevant']. *)
Definition relevance_of_reply (result : option str) : value :=
  match result with
  | None => VNone
  | Some r =>
      if truthy r then VBool (str_eqb (lower (strip r)) (py "relevant"))
      else VStr r
  end.

Definition relevance_messages (query : str) : list (str * str) :=
    [ (py "system",
       py "You are a relevance checker for TechCorp Solutions. TechCorp offers cloud services, AI/ML solutions, digital transformation, cybersecurity, data analytics, mobile app development, and web development. Respond with only 'relevant' or 'irrelevant' based on whether the query is related to these services or general business inquiries.");
      (py "user", py "Is this query relevant to TechCorp Solutions: " ++ query) ].

Definition check_relevance (E : externals) (query : str) : M value :=
  result <- _chat E (relevance_messages query) (1 # 10)%Q (9 # 10)%Q 5%Z ;;
  ret (relevance_of_reply result).

(** Python's truth value of what [check_relevance] returns. *)
Definition value_truthy (v : value) : bool :=
  match v with
  | VNone => false
  | VBool b => b
  | VNum q => negb (Qeq_bool q 0)
  | VStr s => truthy s
  | VList l => match l with [] => false | _ => true end
  | VDict d => match d with [] => false | _ => true end
  end.

(** *** The other text-producing methods *)

(** The [query] handed to the fallback of [generate_response_from_prompt]:
    [prompt[:100] if prompt else "your question"]. *)
Definition fallback_query (prompt : str) : str :=
  if truthy prompt then firstn 100 prompt else py "your question".

Definition generate_response_from_prompt (E : externals) (prompt : str)
    (temperature : Q) (max_tokens : Z) : M str :=
  let msgs := [(py "system", system_prompt); (py "user", prompt)] in
  result <- _chat E msgs temperature (9 # 10)%Q max_tokens ;;
  match result with
  | Some r => if truthy r then ret (_clean_response r)
              else ret (_fallback_response (fallback_query prompt) [])
  | None => ret (_fallback_response (fallback_query prompt) [])
  end.

Definition greeting_messages : list (str * str) :=
  [ (py "system", system_prompt);
    (py "user",
     py "Generate a brief, professional greeting for a customer service chatbot with proper formatting using bold and bullet points.") ].

Definition canned_greeting : str :=
  join [nl]
    [ py "**Welcome to TechCorp Solutions!**";
      [];
      py "Hello! I'm your **AI assistant** here to help with:";
      [];
      bullet ++ py " **Service Information** - Cloud Migration, AI/ML Solutions, Cybersecurity";
      bullet ++ py " **Pricing Details** - Custom quotes and package options";
      bullet ++ py " **Technical Support** - 24/7 monitoring and incident response";
      bullet ++ py " **Project Consultation** - Expert guidance for your business needs";
      [];
      py "How can I assist you today?";
      [];
      py "Best regards,";
      py "TechCorp Solutions Customer Service" ].

Definition generate_greeting_response (E : externals) : M str :=
  result <- _chat E greeting_messages (5 # 10)%Q (9 # 10)%Q 150%Z ;;
  match result with
  | Some r => if truthy r then ret (_clean_response r) else ret canned_greeting
  | None => ret canned_greeting
  end.

Definition farewell_messages : list (str * str) :=
  [ (py "system", system_prompt);
    (py "user",
     py "Generate a brief, professional farewell message for a customer service chatbot with proper formatting using bold and bullet points.") ].

Definition canned_farewell : str :=
  join [nl]
    [ py "**Thank You for Contacting TechCorp Solutions!**";
      [];
      py "We appreciate your interest in our services. For further assistance:";
      [];
      bullet ++ py " **Sales Inquiries:** sales@techcorp.com";
      bullet ++ py " **Technical Support:** support@techcorp.com";
      bullet ++ py " **Phone:** **+1 (555) 123-4568**";
      bullet ++ py " **Response Time:** Within **2 business hours**";
      [];
      py "Have a great day!";
      [];
      py "Best regards,";
      py "TechCorp Solutions Customer Service" ].

Definition generate_farewell_response (E : externals) : M str :=
  result <- _chat E farewell_messages (5 # 10)%Q (9 # 10)%Q 150%Z ;;
  match result with
  | Some r => if truthy r then ret (_clean_response r) else ret canned_farewell
  | None => ret canned_farewell
  end.

End Groq.

(* ================================================================== *)
(** ** [RAGService] *)

Module Rag.
Import Py Re Machine Groq.
Local Open Scope m_scope.

(** [os.path.dirname(__file__)] of [rag_service.py] and the project root
    three levels up. *)
Definition project_root : str := py "project_backend".
Definition module_dir : str := py "project_backend/src/services".

Definition initial_knowledge_base_path : str :=
  path_join (path_join module_dir (py "..")) (py "data").

Definition Qlt_bool (a b : Q) : bool := negb (Qle_bool b a).

(** [max(a, b)] and [min(a, b)] of Python: the first argument unless the
    second is strictly beyond it. *)
Definition pymax (a b : Q) : Q := if Qlt_bool a b then b else a.
Definition pymin (a b : Q) : Q := if Qlt_bool b a then b else a.

(** [l[:k]] *)
Definition slice_to {A} (k : Z) (l : list A) : list A :=
  if (0 <=? k)%Z then firstn (Z.to_nat k) l
  else firstn (length l - Z.to_nat (- k)) l.

(** [sub in s] *)
Fixpoint contains (sub s : str) : bool :=
  startswith sub s ||
  match s with
  | [] => false
  | _ :: s' => contains sub s'
  end.

Definition is_pdf (f : str) : bool := endswith (py ".pdf") f.

Definition pdf_message (n : nat) : str :=
  py "Company information is available in " ++ str_of_nat n
  ++ py " PDF document(s). You can download these for offline reference.".

Definition strs (l : list str) : value := VList (map VStr l).

Definition get_pdf_info : M dict :=
  f <- get_fs ;;
  listing <- lift (root_files f) ;;
  let pdf_files := filter is_pdf listing in
  match pdf_files with
  | _ :: _ =>
      ret [ kv "available" (VBool true);
            kv "files" (strs pdf_files);
            kv "directory" (VStr project_root);
            kv "message" (VStr (pdf_message (length pdf_files))) ]
  | [] =>
      let pdf_dir := path_join project_root (py "company_documents") in
      let not_found :=
        [ kv "available" (VBool false);
          kv "message" (VStr (py "No PDF documents found. Run generate_company_pdf.py to create one.")) ] in
      match company_documents f with
      | Some listdir =>
          listing <- lift listdir ;;
          let pdf_files := filter is_pdf listing in
          match pdf_files with
          | _ :: _ =>
              ret [ kv "available" (VBool true);
                    kv "files" (strs pdf_files);
                    kv "directory" (VStr pdf_dir);
                    kv "message" (VStr (pdf_message (length pdf_files))) ]
          | [] => ret not_found
          end
      | None => ret not_found
      end
  end.

(** [pdf_info.get('available', False)] as a truth value. *)
Definition pdf_available_of (pdf_info : dict) : value :=
  dict_get_default pdf_info "available" (VBool false).

(** *** [preprocess_text] *)

Definition preprocess_text (text : str) : str :=
  let text := lower text in
  (* \s+ *)
  let text := re_sub no_flags (Plus (CAtom ASpace)) (py " ") text in
  (* a character outside \w \s ? : , . - ( ) *)
  let text := re_sub no_flags
    (Chr (CSet true [AWord; ASpace; AChar "?"; AChar ":"; AChar ",";
                     AChar "."; AChar "-"; AChar "("; AChar ")"])) [] text in
  (* \$\d+ *)
  let text := re_sub no_flags (Cat (Lit (py "$")) (Plus (CAtom ADigit)))
                     (py "price") text in
  (* \d+% *)
  let text := re_sub no_flags (Cat (Plus (CAtom ADigit)) (Lit (py "%")))
                     (py "percentage") text in
  strip text.

(** *** Legacy TF-IDF search *)

(** [doc[key]] read as a string; a missing key or another type raises. *)
Definition str_item (d : dict) (k : string) : outcome str :=
  match dict_get d k with
  | Some (VStr s) => Ok s
  | _ => Raise
  end.

Fixpoint all_ok {A} (l : list (outcome A)) : outcome (list A) :=
  match l with
  | [] => Ok []
  | Ok a :: l' =>
      match all_ok l' with Ok r => Ok (a :: r) | Raise => Raise end
  | Raise :: _ => Raise
  end.

Definition build_vectors (E : externals) : M unit :=
  s <- get_self ;;
  match documents s with
  | [] => ret tt
  | docs =>
      texts <- lift (all_ok (map (fun doc => str_item doc "processed_content") docs)) ;;
      v <- lift (fit_transform E texts) ;;
      modify_self (set_document_vectors (Some v))
  end.

(** [np.argsort]: the indices of [sims], smallest score first.  The order
    numpy gives to equal scores is not specified; this one keeps them in
    index order. *)
Fixpoint insert_by (sims : list Q) (i : nat) (l : list nat) : list nat :=
  match l with
  | [] => [i]
  | j :: l' =>
      if Qle_bool (nth i sims 0%Q) (nth j sims 0%Q) then i :: l
      else j :: insert_by sims i l'
  end.

Definition argsort (sims : list Q) : list nat :=
  fold_right (insert_by sims) [] (seq 0 (length sims)).

(** [np.argsort(similarities)[::-1][:top_k]] *)
Definition top_indices (sims : list Q) (top_k : Z) : list nat :=
  slice_to top_k (rev (argsort sims)).

Definition threshold : Q := (2 # 10)%Q.
Definition relevance_floor : Q := (4 # 10)%Q.

Definition search_result (doc : dict) (sim : Q) : dict :=
  let title := dict_get_default doc "title" (VStr (py "Unknown")) in
  [ kv "title" (title);
    kv "full_title" (dict_get_default doc "full_title" title);
    kv "content" (dict_get_default doc "content" (VStr []));
    kv "similarity" (VNum sim) ].

(** The loop over [top_indices]: the results so far and [max_sim]. *)
Fixpoint collect (docs : list dict) (sims : list Q) (idxs : list nat)
    (results : list dict) (max_sim : Q) : list dict * Q :=
  match idxs with
  | [] => (results, max_sim)
  | idx :: rest =>
      let sim := nth idx sims 0%Q in
      if Qlt_bool threshold sim then
        let max_sim := pymax max_sim sim in
        match nth_error docs idx with
        | Some doc =>
            if dict_has doc "title" && dict_has doc "content"
            then collect docs sims rest (results ++ [search_result doc sim]) max_sim
            else collect docs sims rest results max_sim
        | None => collect docs sims rest results max_sim   (* IndexError *)
        end
      else collect docs sims rest results max_sim
  end.

(** The body of [search_documents] once the similarities are known. *)
Definition rank_documents (docs : list dict) (sims : list Q) (top_k : Z)
  : list dict :=
  let '(results, max_sim) := collect docs sims (top_indices sims top_k) [] 0%Q in
  if Qlt_bool max_sim relevance_floor then [] else results.

Definition search_documents (E : externals) (query : str) (top_k : Z)
  : M (list dict) :=
  emit Call_search_documents ;;;
  s <- get_self ;;
  match documents s, document_vectors s with
  | _ :: _, Some vectors =>
      try_except
        (sims <- lift (similarities E vectors (preprocess_text query)) ;;
         ret (rank_documents (documents s) sims top_k))
        (ret [])
  | _, _ => ret []
  end.

(** *** Vector search *)

(** [0.8 - (i * 0.1)] *)
Definition rank_similarity (i : nat) : Q :=
  ((8 # 10) - inject_Z (Z.of_nat i) * (1 # 10))%Q.

Definition faiss_result (i : nat) (doc : Document) : dict :=
  [ kv "title" (VStr (py "Document " ++ str_of_nat (i + 1)));
    kv "content" (VStr (page_content doc));
    kv "metadata" (VDict (match metadata doc with Some md => md | None => [] end));
    kv "similarity" (VNum (rank_similarity i)) ].

(** The loop over [enumerate(docs)]: the results so far and [max_sim]. *)
Fixpoint collect_faiss (i : nat) (docs : list Document)
    (results : list dict) (max_sim : Q) : list dict * Q :=
  match docs with
  | [] => (results, max_sim)
  | doc :: rest =>
      let sim := rank_similarity i in
      if Qlt_bool threshold sim then
        collect_faiss (S i) rest (results ++ [faiss_result i doc])
                      (pymax max_sim sim)
      else collect_faiss (S i) rest results max_sim
  end.

(** The body of the [try] once the retriever has answered. *)
Definition rank_retrieved (docs : list Document) : list dict :=
  let '(results, max_sim) := collect_faiss 0 docs [] 0%Q in
  if Qlt_bool max_sim relevance_floor then [] else results.

Definition search_documents_faiss (E : externals) (query : str) (top_k : Z)
  : M (list dict) :=
  emit Call_search_documents_faiss ;;;
  s <- get_self ;;
  match faiss_index s, documents s with
  | Present index, _ :: _ =>
      try_except
        (emit Retriever_invoke ;;;
         docs <- lift (retrieve E index query top_k) ;;
         ret (rank_retrieved docs))
        (try_except (search_documents E query top_k) (ret []))
  | _, _ => search_documents E query top_k
  end.

(** *** Ingestion and the persisted index *)

(** The pages kept by the extraction loop: [enumerate(pdf.pages)] with
    [if text and text.strip()]. *)
Fixpoint page_dicts (page_num : nat) (pages : list (option str)) : list dict :=
  match pages with
  | [] => []
  | text :: rest =>
      match text with
      | Some t =>
          if truthy t && truthy (strip t)
          then [ kv "title" (VStr (py "Page " ++ str_of_nat (page_num + 1)));
                 kv "content" (VStr (strip t)) ]
               :: page_dicts (S page_num) rest
          else page_dicts (S page_num) rest
      | None => page_dicts (S page_num) rest
      end
  end.

(** [[{"title": f"Chunk {i+1}", ...} for i, chunk in enumerate(text_chunks)]] *)
Fixpoint chunk_dicts (i : nat) (text_chunks : list str) : list dict :=
  match text_chunks with
  | [] => []
  | chunk :: rest =>
      let title := VStr (py "Chunk " ++ str_of_nat (i + 1)) in
      [ kv "title" title; kv "content" (VStr chunk); kv "full_title" title ]
      :: chunk_dicts (S i) rest
  end.

Definition index_path_of (s : RAGService) : str :=
  path_join (knowledge_base_path s) (py "faiss_index").

Definition process_pdf_and_index (E : externals) (pdf_path : str) : M unit :=
  emit (Call_process_pdf_and_index pdf_path) ;;;
  f <- get_fs ;;
  pages <- lift (pdf_pages f pdf_path) ;;
  let documents := page_dicts 0 pages in
  contents <- lift (all_ok (map (fun doc => str_item doc "content") documents)) ;;
  let all_text := join [nl; nl] contents in
  emit (Splitter_input all_text) ;;;
  let text_chunks := split_text E all_text in
  vectorstore <- lift (from_texts E text_chunks) ;;
  s <- get_self ;;
  (if save_local E vectorstore (index_path_of s)
   then emit (Save_local (index_path_of s)) ;;;
        modify_fs (write_index (index_path_of s) vectorstore)
   else raise) ;;;
  modify_self (set_documents (chunk_dicts 0 text_chunks)) ;;;
  modify_self (set_faiss_index (Present vectorstore)) ;;;
  dim <- lift (embed_dim E) ;;
  modify_self (set_vector_dim (Present dim)).

(** [FAISS.load_local] on what lies at the path. *)
Definition load_local (f : index_file) : outcome vectorstore :=
  match f with
  | Readable v => Ok v
  | Unreadable => Raise
  end.

Definition docstore_dicts (v : vectorstore) : list dict :=
  flat_map (fun entry =>
    let '(doc_id, doc) := entry in
    match doc with
    | StoredDocument d =>
        let title := VStr (py "Document " ++ doc_id) in
        [[ kv "title" title; kv "content" (VStr (page_content d));
           kv "full_title" title ]]
    | StoredObject => []
    end) (docstore v).

Definition forget_index : M unit :=
  modify_self (set_faiss_index IsNone) ;;;
  modify_self (set_documents []) ;;;
  modify_self (set_vector_dim IsNone).

Definition load_faiss_index (E : externals) : M unit :=
  emit Call_load_faiss_index ;;;
  s <- get_self ;;
  f <- get_fs ;;
  match index_at f (index_path_of s) with
  | Some file =>
      try_except
        (v <- lift (load_local file) ;;
         modify_self (set_faiss_index (Present v)) ;;;
         modify_self (set_documents (docstore_dicts v)) ;;;
         dim <- lift (embed_dim E) ;;
         modify_self (set_vector_dim (Present dim)))
        forget_index
  | None => forget_index
  end.

Definition unpickled (l : list pickled) : list dict :=
  flat_map (fun doc =>
    match doc with
    | PDict d => [d]
    | PObject (Ok d) => [d]
    | PObject Raise => []
    end) l.

Definition load_knowledge_base (E : externals) : M unit :=
  emit Call_load_knowledge_base ;;;
  try_except
    (s <- get_self ;;
     f <- get_fs ;;
     match pickle_at f (path_join (knowledge_base_path s) (py "knowledge_base.pkl")) with
     | Some file =>
         kb <- lift file ;;
         modify_self (set_documents (unpickled (kb_documents kb))) ;;;
         modify_self (set_document_vectors (kb_document_vectors kb)) ;;;
         match unpickled (kb_documents kb), kb_document_vectors kb with
         | _ :: _, None => build_vectors E
         | _, _ => ret tt
         end
     | None => ret tt
     end)
    (modify_self (set_documents []) ;;;
     modify_self (set_document_vectors None)).

(** The strings of [pdf_info.get('files', [])]. *)
Definition files_of (pdf_info : dict) : list str :=
  match dict_get pdf_info "files" with
  | Some (VList l) =>
      flat_map (fun v => match v with VStr s => [s] | _ => [] end) l
  | _ => []
  end.

Definition load_sample_documents (E : externals) : M unit :=
  emit Call_load_sample_documents ;;;
  s <- get_self ;;
  match documents s with
  | [] =>
      pdf_info <- get_pdf_info ;;
      if value_truthy (pdf_available_of pdf_info) then
        match files_of pdf_info with
        | pdf_file :: _ =>
            directory <- lift (str_item pdf_info "directory") ;;
            process_pdf_and_index E (path_join directory pdf_file)
        | [] => ret tt
        end
      else ret tt
  | _ :: _ => ret tt
  end.

Definition force_process_pdf (E : externals) : M unit :=
  emit Call_force_process_pdf ;;;
  try_except
    (pdf_info <- get_pdf_info ;;
     if value_truthy (pdf_available_of pdf_info) then
       match files_of pdf_info with
       | pdf_file :: _ =>
           directory <- lift (str_item pdf_info "directory") ;;
           process_pdf_and_index E (path_join directory pdf_file)
       | [] => ret tt
       end
     else ret tt)
    (ret tt).

Definition fresh_service : RAGService :=
  Rag [] None initial_knowledge_base_path Absent Absent.

(** [RAGService.__init__] *)
Definition __init__ (E : externals) : M unit :=
  modify_self (fun _ => fresh_service) ;;;
  load_faiss_index E ;;;
  s <- get_self ;;
  if available (faiss_index s) then ret tt
  else
    load_knowledge_base E ;;;
    load_sample_documents E ;;;
    s <- get_self ;;
    match documents s with
    | [] => force_process_pdf E
    | _ :: _ => ret tt
    end.

(** *** Answering a message *)

Definition generate_fallback_response (query : str) : str :=
  py "I don't have specific information about " ++ [dquote] ++ query ++ [dquote]
  ++ py " in our knowledge base. " ++ [nl]
  ++ [nl]
  ++ py "For detailed assistance, please contact our support team at support@techcorpsolutions.com or call 1-800-TECHCORP."
  ++ [nl]
  ++ [nl]
  ++ py "Best regards," ++ [nl]
  ++ py "TechCorp Solutions Customer Service".

Definition generate_greeting_response : str :=
  py "Hello! I'm your dedicated customer service assistant. I'm here to help you with information about our services, pricing, technical support, and any other questions you may have. How can I assist you today?".

Definition generate_farewell_response : str :=
  py "Thank you for contacting us! I hope I was able to help you today. If you have any further questions or need assistance in the future, please don't hesitate to reach out. Have a great day!".

Definition is_greeting (E : externals) (text : str) : M bool :=
  intent <- analyze_query_intent E text ;;
  ret (str_eqb intent (py "greeting")).

Definition is_farewell (E : externals) (text : str) : M bool :=
  intent <- analyze_query_intent E text ;;
  ret (str_eqb intent (py "farewell")).

Definition is_relevant_to_company (E : externals) (text : str) : M value :=
  check_relevance E text.

Definition default_suggestions : list str :=
  [ py "Tell me about your tech services";
    py "What are your pricing plans?";
    py "I need technical support";
    py "How can I contact you?" ].

Definition any_in (words : list str) (s : str) : bool :=
  existsb (fun word => contains word s) words.

Definition generate_suggested_responses (query : str) (relevant_docs : list dict)
  : list str :=
  let query_lower := lower query in
  if any_in [py "cloud"; py "migration"] query_lower then
    [ py "What's the timeline for cloud migration?";
      py "Do you support hybrid cloud solutions?";
      py "What's included in the migration process?" ]
  else if any_in [py "ai"; py "machine learning"; py "ml"] query_lower then
    [ py "What types of AI solutions do you offer?";
      py "How long does AI development take?";
      py "Do you provide AI consulting?" ]
  else if any_in [py "security"; py "cybersecurity"] query_lower then
    [ py "What security certifications do you have?";
      py "Do you offer 24/7 security monitoring?";
      py "What's your incident response time?" ]
  else if any_in [py "web"; py "website"; py "application"] query_lower then
    [ py "What technologies do you use for web development?";
      py "Do you provide ongoing maintenance?";
      py "Can you help with e-commerce platforms?" ]
  else if any_in [py "mobile"; py "app"] query_lower then
    [ py "Do you develop for both iOS and Android?";
      py "What's the cost of mobile app development?";
      py "Do you provide app maintenance services?" ]
  else if any_in [py "data"; py "analytics"] query_lower then
    [ py "What BI tools do you work with?";
      py "Can you help with data strategy?";
      py "Do you provide custom dashboards?" ]
  else if any_in [py "price"; py "cost"; py "pricing"] query_lower then
    [ py "What's included in your pricing?";
      py "Do you offer custom pricing?";
      py "What are your payment terms?" ]
  else if any_in [py "support"; py "help"] query_lower then
    [ py "What are your support response times?";
      py "Do you offer 24/7 support?";
      py "How can I contact technical support?" ]
  else default_suggestions.

(** The prompt of [generate_rag_response]. *)
Definition rag_prompt (context_text query : str) : str :=
  join [nl]
    [ py "You are TechCorp Solutions' AI assistant. Provide a direct, professional answer based on the context.";
      [];
      py "Context: " ++ context_text;
      [];
      py "User Question: " ++ query;
      [];
      py "Instructions:";
      py "- Answer the specific question asked (max 120 words)";
      py "- Use only information from the provided context";
      py "- If context doesn't contain the answer, say " ++ [dquote]
        ++ py "I don't have specific information about that in our knowledge base"
        ++ [dquote];
      py "- Be professional, clear, and actionable";
      py "- Focus on providing value, not general information";
      py "- NEVER start with a signature or greeting";
      py "- Start directly with the answer to the question";
      [];
      py "Response:" ].

(** [^], two escaped stars, [.*], two escaped stars, [:?] and [$]. *)
Definition bold_header_pattern : re :=
  Seq [Bol; Lit (py "**"); dots; Lit (py "**"); Opt (Lit (py ":")); Eol].

Definition generate_rag_response (E : externals) (query : str)
    (context_docs : list dict) : M str :=
  match context_docs with
  | [] => ret (generate_fallback_response query)
  | _ :: _ =>
      contents <- lift (all_ok (map (fun doc => str_item doc "content")
                                    (firstn 3 context_docs))) ;;
      let context_text := join [nl; nl] contents in
      let prompt := rag_prompt context_text query in
      try_except
        (response <- generate_response E prompt [] None ;;
         if negb (truthy response)
            || (length (strip response) <? 30)
            || re_match no_flags bold_header_pattern (strip response)
         then ret (generate_fallback_response query)
         else ret response)
        (ret (generate_fallback_response query))
  end.

(** A value read as a number by [np.mean], [max] and [min]. *)
Definition num_of (v : value) : outcome Q :=
  match v with
  | VNum q => Ok q
  | VBool b => Ok (if b then 1%Q else 0%Q)
  | _ => Raise
  end.

Definition similarity_of (doc : dict) : value :=
  dict_get_default doc "similarity" (VNum (5 # 10)%Q).

(** [np.mean] of a non-empty list. *)
Definition mean (l : list Q) : Q :=
  (fold_right Qplus 0%Q l / inject_Z (Z.of_nat (length l)))%Q.

Definition source_of (doc : dict) : value :=
  VDict [ kv "title" (dict_get_default doc "title" (VStr (py "Unknown")));
          kv "similarity" (similarity_of doc) ].

Definition reply (response : str) (confidence : Q) (context_used : bool)
    (sources : list value) (suggested_responses : list str)
    (pdf_available : value) : dict :=
  [ kv "response" (VStr response);
    kv "confidence" (VNum confidence);
    kv "context_used" (VBool context_used);
    kv "sources" (VList sources);
    kv "suggested_responses" (strs suggested_responses);
    kv "pdf_available" pdf_available ].

(** The body of the [try] of [process_message]. *)
Definition answer_from_documents (E : externals) (message : str)
    (pdf_available : value) : M dict :=
  relevant_docs <- search_documents_faiss E message 3 ;;
  match relevant_docs with
  | _ :: _ =>
      response <- generate_rag_response E message relevant_docs ;;
      sims <- lift (all_ok (map (fun doc => num_of (similarity_of doc))
                                relevant_docs)) ;;
      let avg_similarity := mean sims in
      let confidence := pymin (95 # 100) (pymax (7 # 10) avg_similarity) in
      ret (reply response confidence true (map source_of relevant_docs)
                 (generate_suggested_responses message relevant_docs)
                 pdf_available)
  | [] =>
      ret (reply (generate_fallback_response message) (6 # 10) false []
                 default_suggestions pdf_available)
  end.

(** The dictionary of the [except] branch, also returned for a message
    judged irrelevant. *)
Definition fallback_reply (message : str) (pdf_available : value) : dict :=
  reply (generate_fallback_response message) (5 # 10) false []
        default_suggestions pdf_available.

Definition process_message (E : externals) (message conversation_id : str)
  : M dict :=
  pdf_info <- get_pdf_info ;;
  let pdf_available := pdf_available_of pdf_info in
  greeting <- is_greeting E message ;;
  if greeting then
    ret (reply generate_greeting_response (95 # 100) false [] default_suggestions
               pdf_available)
  else
  farewell <- is_farewell E message ;;
  if farewell then
    ret (reply generate_farewell_response (95 # 100) false [] [] pdf_available)
  else
  relevant <- is_relevant_to_company E message ;;
  if negb (value_truthy relevant) then
    ret (fallback_reply message pdf_available)
  else
  try_except
    (answer_from_documents E message pdf_available)
    (ret (fallback_reply message pdf_available)).

(** *** Uploaded documents and the legacy knowledge base *)

(** The entries [add_document_content] appends for the chunks of one
    document, the first numbered [i + 1]. *)
Fixpoint part_dicts (title : str) (i : nat) (chunks : list str) : list dict :=
  match chunks with
  | [] => []
  | chunk :: rest =>
      [ kv "title" (VStr (title ++ py " - Part " ++ str_of_nat (i + 1)));
        kv "content" (VStr chunk);
        kv "full_title" (VStr title);
        kv "processed_content" (VStr (preprocess_text chunk)) ]
      :: part_dicts title (S i) rest
  end.

Definition add_document_content (E : externals) (title content : str) : M unit :=
  let chunks := split_text E content in
  modify_self (fun s => set_documents (documents s ++ part_dicts title 0 chunks) s) ;;;
  build_vectors E.

(** An uploaded file: its name, and its content decoded as UTF-8 or the
    exception of [file.read().decode('utf-8')]. *)
Record upload := Upload {
  filename : str;
  decoded : outcome str
}.

(** [add_document].  The text of the exception caught, [str(e)], is not
    carried by [Raise] and is given as [error_text]. *)
Definition add_document (E : externals) (error_text : str) (file : upload)
  : M dict :=
  try_except
    (content <- lift (decoded file) ;;
     add_document_content E (filename file) content ;;;
     ret [ kv "filename" (VStr (filename file));
           kv "status" (VStr (py "success"));
           kv "size" (VNum (inject_Z (Z.of_nat (length content)))) ])
    (ret [ kv "filename" (VStr (filename file));
           kv "status" (VStr (py "error"));
           kv "error" (VStr error_text) ]).

Definition kb_path (s : RAGService) : str :=
  path_join (knowledge_base_path s) (py "knowledge_base.pkl").

Definition write_pickle (path : str) (file : outcome kb_data) (f : filesystem)
  : filesystem :=
  Fs (root_files f) (company_documents f) (pdf_pages f) (index_at f)
     (fun p => if str_eqb p path then Some file else pickle_at f p).

(** How [open(kb_path, 'wb')] and [pickle.dump] go: both work, the file
    cannot be opened, or it is opened (and truncated) and the dump
    raises. *)
Inductive dump := Dumped | Open_fails | Dump_fails.

Definition save_knowledge_base (d : dump) : M unit :=
  s <- get_self ;;
  let kb := KbData (map PDict (documents s)) (document_vectors s) in
  match d with
  | Dumped => modify_fs (write_pickle (kb_path s) (Ok kb))
  | Open_fails => ret tt
  | Dump_fails => modify_fs (write_pickle (kb_path s) Raise)
  end.

(** *** Rebuilding and reporting on the index *)

Definition rebuild_faiss_index (E : externals) : M bool :=
  try_except
    (pdf_info <- get_pdf_info ;;
     if value_truthy (pdf_available_of pdf_info) then
       match files_of pdf_info with
       | pdf_file :: _ =>
           directory <- lift (str_item pdf_info "directory") ;;
           process_pdf_and_index E (path_join directory pdf_file) ;;;
           ret true
       | [] => ret false
       end
     else ret false)
    (ret false).

(** [self.embeddings.model_name] *)
Definition embeddings_model : str := py "all-MiniLM-L6-v2".

Definition num (n : nat) : value := VNum (inject_Z (Z.of_nat n)).

Definition get_index_status : M dict :=
  s <- get_self ;;
  f <- get_fs ;;
  ret [ kv "faiss_available" (VBool (available (faiss_index s)));
        kv "documents_count" (num (length (documents s)));
        kv "vector_dim" (match vector_dim s with
                         | Present n => num n
                         | _ => VNone
                         end);
        kv "index_path" (VStr (index_path_of s));
        kv "index_exists" (VBool (match index_at f (index_path_of s) with
                                  | Some _ => true
                                  | None => false
                                  end));
        kv "embeddings_model" (VStr embeddings_model) ].

End Rag.

(* ================================================================== *)
(** ** The routes of [routes/chat.py] *)

Module Routes.
Import Py Re Machine Groq Rag.

(** The process behind the blueprint: whether the module-level
    [rag_service] is set, and the machine whose [self] is that object
    when it is. *)
Record app := App {
  rag_service : bool;
  world : machine
}.

(** A view function: it may raise, and it may change the application. *)
Definition R (A : Type) : Type := app -> outcome A * app.

Definition rret {A} (a : A) : R A := fun s => (Ok a, s).

Definition rlift {A} (o : outcome A) : R A := fun s => (o, s).

Definition rbind {A B} (c : R A) (k : A -> R B) : R B :=
  fun s =>
    match c s with
    | (Ok a, s') => k a s'
    | (Raise, s') => (Raise, s')
    end.

(** [try: c  except Exception: h] *)
Definition rtry {A} (c : R A) (h : R A) : R A :=
  fun s =>
    match c s with
    | (Ok a, s') => (Ok a, s')
    | (Raise, s') => h s'
    end.

(** A method call on the service object. *)
Definition call {A} (c : M A) : R A :=
  fun s => let (o, w) := c (world s) in (o, App (rag_service s) w).

(** A JSON body and a status code. *)
Definition response : Type := dict * nat.

(** [uuid.uuid4()] by the number of the call within a request, and
    [datetime.datetime.now().isoformat()]. *)
Record clock := Clock {
  uuid4 : nat -> str;
  now : str
}.

(** [get_rag_service]: the service is built by the first call that finds
    none; a constructor that raises leaves the global unset. *)
Definition get_rag_service (E : externals) : R unit :=
  fun s =>
    if rag_service s then (Ok tt, s)
    else
      match __init__ E (world s) with
      | (Ok _, w) => (Ok tt, App true w)
      | (Raise, w) => (Raise, App false w)
      end.

Definition reset_rag_service : R unit :=
  fun s => (Ok tt, App false (world s)).

Definition health_check (E : externals) (C : clock) (error_text : str) : R response :=
  rtry
    (rbind (get_rag_service E) (fun _ =>
     rret ([ kv "status" (VStr (py "healthy"));
             kv "timestamp" (VStr (now C));
             kv "service" (VStr (py "TechCorp Solutions RAG Chatbot"));
             kv "version" (VStr (py "1.0.0")) ], 200)))
    (rret ([ kv "status" (VStr (py "unhealthy"));
             kv "error" (VStr error_text);
             kv "timestamp" (VStr (now C)) ], 500)).

(** ['message' not in data] for a JSON value; a number or a boolean is
    not iterable. *)
Definition lacks_message (data : value) : outcome bool :=
  match data with
  | VDict d => Ok (negb (dict_has d "message"))
  | VList l =>
      Ok (negb (existsb (fun v => match v with
                                  | VStr s => str_eqb s (py "message")
                                  | _ => false
                                  end) l))
  | VStr s => Ok (negb (contains (py "message") s))
  | VNone | VBool _ | VNum _ => Raise
  end.

(** [data['message'].strip()] *)
Definition message_of (data : value) : outcome str :=
  match data with
  | VDict d =>
      match dict_get d "message" with
      | Some (VStr s) => Ok (strip s)
      | _ => Raise
      end
  | _ => Raise
  end.

(** [data.get('conversation_id')] *)
Definition conversation_of (data : value) : outcome value :=
  match data with
  | VDict d => Ok (dict_get_default d "conversation_id" VNone)
  | _ => Raise
  end.

(** [d[k]] and [d[k] = v] *)
Definition item (d : dict) (k : string) : outcome value :=
  match dict_get d k with Some v => Ok v | None => Raise end.

Fixpoint dict_set (d : dict) (k : string) (v : value) : dict :=
  match d with
  | [] => [(k, v)]
  | (k', v') :: d' =>
      if String.eqb k k' then (k, v) :: d' else (k', v') :: dict_set d' k v
  end.

Definition bad_request (text : string) : response :=
  ([ kv "error" (VStr (py text)) ], 400).

Definition internal_error : response :=
  ([ kv "error" (VStr (py "Internal server error"));
     kv "message" (VStr (py "Sorry, we encountered an error processing your request. Please try again later or contact support.")) ],
   500).

(** The conversation id as [process_message] is given it; the method
    does not read it. *)
Definition id_text (conversation_id : value) : str :=
  match conversation_id with VStr s => s | _ => [] end.

(** [chat].  [data] is what [request.get_json()] returns, or the
    exception it raises. *)
Definition chat (E : externals) (C : clock) (data : outcome value) : R response :=
  rtry
    (rbind (rlift data) (fun data =>
     if negb (value_truthy data) then rret (bad_request "Message is required")
     else
     rbind (rlift (lacks_message data)) (fun lacking =>
     if (lacking : bool) then rret (bad_request "Message is required")
     else
     rbind (rlift (message_of data)) (fun user_message =>
     rbind (rlift (conversation_of data)) (fun given =>
     if negb (truthy user_message) then rret (bad_request "Message cannot be empty")
     else
     let fresh := negb (value_truthy given) in
     let conversation_id := if fresh then VStr (uuid4 C 0) else given in
     rbind (get_rag_service E) (fun _ =>
     rbind (call Rag.get_index_status) (fun index_status =>
     rbind (call (process_message E user_message (id_text conversation_id)))
           (fun response_data =>
     let debug := VDict [ kv "index_status" (VDict index_status);
                          kv "message_processed" (VStr user_message) ] in
     let response_data := dict_set response_data "debug" debug in
     rbind (rlift (item response_data "response")) (fun text =>
     rbind (rlift (item response_data "confidence")) (fun confidence =>
     rret ([ kv "message_id" (VStr (uuid4 C (if fresh then 1 else 0)));
             kv "conversation_id" conversation_id;
             kv "response" text;
             kv "confidence" confidence;
             kv "sources" (dict_get_default response_data "sources" (VList []));
             kv "context_used"
                (dict_get_default response_data "context_used" (VBool false));
             kv "timestamp" (VStr (now C));
             kv "suggested_responses"
                (dict_get_default response_data "suggested_responses" (VList []));
             kv "pdf_available"
                (dict_get_default response_data "pdf_available" (VBool false));
             kv "debug" (dict_get_default response_data "debug" (VDict [])) ],
           200)))))))))))
    (rret internal_error).

Definition reset_rag_service_endpoint : R response :=
  rbind reset_rag_service (fun _ =>
  rret ([ kv "message" (VStr (py "RAG service reset successfully")) ], 200)).

(** The loop of [upload_documents] over the uploaded files, [i] counting
    them; the text of an exception caught for the [i]-th is
    [error_texts i]. *)
Fixpoint process_files (E : externals) (error_texts : nat -> str) (i : nat)
    (files : list upload) (processed_files : list dict) : R (list dict) :=
  match files with
  | [] => rret processed_files
  | file :: rest =>
      if str_eqb (filename file) []
      then process_files E error_texts (S i) rest processed_files
      else
        rbind (call (add_document E (error_texts i) file)) (fun result =>
        process_files E error_texts (S i) rest (processed_files ++ [result]))
  end.

(** [upload_documents].  [files] is [request.files.getlist('files')], or
    [None] when the request has no such part. *)
Definition upload_documents (E : externals) (error_texts : nat -> str)
    (files : option (list upload)) : R response :=
  rtry
    (rbind (get_rag_service E) (fun _ =>
     match files with
     | None => rret (bad_request "No files provided")
     | Some files =>
         rbind (process_files E error_texts 0 files []) (fun processed_files =>
         rret ([ kv "message"
                    (VStr (py "Successfully processed "
                           ++ str_of_nat (length processed_files)
                           ++ py " documents"));
                 kv "files" (VList (map VDict processed_files)) ], 200))
     end))
    (rret ([ kv "error" (VStr (py "Failed to process documents")) ], 500)).

Definition get_index_status (E : externals) (error_text : str) : R response :=
  rtry
    (rbind (get_rag_service E) (fun _ =>
     rbind (call Rag.get_index_status) (fun status =>
     rret (status, 200))))
    (rret ([ kv "error" (VStr error_text) ], 500)).

Definition rebuild_index (E : externals) (error_text : str) : R response :=
  rtry
    (rbind (get_rag_service E) (fun _ =>
     rbind (call (rebuild_faiss_index E)) (fun success =>
     if (success : bool)
     then rret ([ kv "message" (VStr (py "FAISS index rebuilt successfully")) ], 200)
     else rret ([ kv "error" (VStr (py "Failed to rebuild FAISS index")) ], 500))))
    (rret ([ kv "error" (VStr error_text) ], 500)).

End Routes.

(* ================================================================== *)
(** ** Vocabulary of the statements, and sample worlds *)

Module Spec.
Import Py Re Machine Groq Rag.

(** [enumerate(l, start=i)] *)
Fixpoint enumerate_from {A} (i : nat) (l : list A) : list (nat * A) :=
  match l with
  | [] => []
  | x :: l' => (i, x) :: enumerate_from (S i) l'
  end.

(** The events a computation adds to the trace of the state it starts in. *)
Definition events_of {A} (c : M A) (st : machine) : list event :=
  skipn (length (trace st)) (trace (snd (c st))).

Definition result_of {A} (c : M A) (st : machine) : outcome A := fst (c st).

(** The texts the extraction loop keeps, in page order: the stripped text
    of every page that has text left after stripping. *)
Definition kept_texts (pages : list (option str)) : list str :=
  flat_map (fun text =>
    match text with
    | Some t => if truthy (strip t) then [strip t] else []
    | None => []
    end) pages.

(** The dictionary stored for the [i]-th chunk, counting from zero. *)
Definition chunk_entry (i : nat) (chunk : str) : dict :=
  [ kv "title" (VStr (py "Chunk " ++ str_of_nat (i + 1)));
    kv "content" (VStr chunk);
    kv "full_title" (VStr (py "Chunk " ++ str_of_nat (i + 1))) ].

(** One entry per chunk, in the order of the chunks. *)
Definition chunk_entries (text_chunks : list str) : list dict :=
  map (fun p => chunk_entry (fst p) (snd p)) (enumerate_from 0 text_chunks).

(** The values of a docstore that have a [page_content], with their
    ids, in the order of the docstore's dictionary. *)
Definition stored_documents (v : vectorstore) : list (str * Document) :=
  flat_map (fun entry =>
    match snd entry with
    | StoredDocument d => [(fst entry, d)]
    | StoredObject => []
    end) (docstore v).

(** The dictionary kept for the document stored under [doc_id]. *)
Definition document_entry (doc_id : str) (d : Document) : dict :=
  [ kv "title" (VStr (py "Document " ++ doc_id));
    kv "content" (VStr (page_content d));
    kv "full_title" (VStr (py "Document " ++ doc_id)) ].

(** One entry per stored document, in the order of the docstore. *)
Definition docstore_entries (v : vectorstore) : list dict :=
  map (fun entry => document_entry (fst entry) (snd entry)) (stored_documents v).

(** Where the constructor looks for a saved index. *)
Definition startup_index_path : str :=
  path_join initial_knowledge_base_path (py "faiss_index").

(** The index at the start-up path can be loaded. *)
Definition index_loads (E : externals) (st : machine) (v : vectorstore) (dim : nat)
  : Prop :=
  index_at (fs st) startup_index_path = Some (Readable v) /\ embed_dim E = Ok dim.

(** An event of rebuilding from PDFs. *)
Definition rebuilding (e : event) : Prop :=
  e = Call_load_sample_documents \/ e = Call_force_process_pdf
  \/ exists pdf_path, e = Call_process_pdf_and_index pdf_path.

(** A computation only ever appends to the trace. *)
Definition extends {A} (c : M A) : Prop :=
  forall st, exists evs, trace (snd (c st)) = trace st ++ evs.

(** The score of the document at an index, as the loop reads it. *)
Definition score (sims : list Q) (idx : nat) : Q := nth idx sims 0%Q.

(** Scores listed from the best down. *)
Definition descending (l : list Q) : Prop :=
  StronglySorted (fun a b => (b <= a)%Q) l.

(** A document that made it into the results, with its score. *)
Definition hit := (dict * Q)%type.

Definition result_of_hit (h : hit) : dict := search_result (fst h) (snd h).

(** The character before the position reached after reading [u]. *)
Fixpoint advance (prev : option ascii) (u : str) : option ascii :=
  match u with
  | [] => prev
  | c :: u' => advance (Some c) u'
  end.

(** [matches F r prev u t]: at a position preceded by [prev] and followed
    by [u ++ t], the pattern [r] can match exactly [u]. *)
Fixpoint matches (F : flags) (r : re) (prev : option ascii) (u t : str) : Prop :=
  match r with
  | Eps => u = []
  | Chr c => exists x, u = [x] /\ class_match F c x = true
  | Bol => u = [] /\ at_bol F prev = true
  | Eol => u = [] /\ at_eol F t = true
  | Cat a b =>
      exists u1 u2,
        u = u1 ++ u2
        /\ matches F a prev u1 (u2 ++ t)
        /\ matches F b (advance prev u1) u2 t
  | Alt a b => matches F a prev u t \/ matches F b prev u t
  | Opt a => matches F a prev u t \/ u = []
  | Star c | StarLazy c => Forall (fun x => class_match F c x = true) u
  | Plus c => u <> [] /\ Forall (fun x => class_match F c x = true) u
  end.

(** [u] spells the literal [w], up to case when the flag says so. *)
Definition spells (F : flags) (w u : str) : Prop :=
  Forall2 (fun c x => atom_match F (AChar c) x = true) w u.

(** [p] occurs in [s] as a substring. *)
Definition occurs (p s : str) : Prop := exists a b, s = a ++ p ++ b.

(** [a] is a contiguous part of [s]. *)
Definition infix (a s : str) : Prop := exists u v, s = u ++ a ++ v.

(** The scan of [re.sub] as a relation: from a position preceded by
    [prev], the text [s] is rewritten to [o]. *)
Inductive Subst (F : flags) (r : re) (repl : str)
  : option ascii -> str -> str -> Prop :=
| Subst_nil prev : Subst F r repl prev [] []
| Subst_match prev s p t o :
    match_at F r prev s = Some (p, t) ->
    length t < length s ->
    Subst F r repl p t o ->
    Subst F r repl prev s (repl ++ o)
| Subst_skip prev x s o :
    (forall p t, match_at F r prev (x :: s) = Some (p, t) ->
                 length (x :: s) <= length t) ->
    Subst F r repl (Some x) s o ->
    Subst F r repl prev (x :: s) (x :: o).

(** The text [b] begins with a spelling of the literal [w]. *)
Definition begins (F : flags) (w b : str) : Prop :=
  exists u t, b = u ++ t /\ spells F w u.

(** A spelling of the literal [w] is found somewhere in [s]. *)
Definition found (F : flags) (w s : str) : Prop :=
  exists a b, s = a ++ b /\ begins F w b.

(** No character of [R] is taken for the character [c]. *)
Definition foreign (F : flags) (R : str) (c : ascii) : bool :=
  forallb (fun x => negb (atom_match F (AChar c) x)) R.

(** A token that a run of [R] can neither open nor close, and that is
    short enough for its closing character to fall inside such a run. *)
Definition bracketed (F : flags) (R : str) (tok : str) : bool :=
  match tok with
  | c :: v =>
      foreign F R c
      && match rev v with
         | z :: _ => foreign F R z
         | [] => false
         end
      && (length v <=? length R)
  | [] => false
  end.

(** The closing character of [v] is foreign to [R], and [v] is no longer
    than [R]. *)
Definition closing (F : flags) (R : str) (v : str) : Prop :=
  (exists v0 z, v = v0 ++ [z] /\ foreign F R z = true) /\ length v <= length R.

(** A token that runs of [R] neither open nor close. *)
Definition token (F : flags) (R : str) (tok : str) : Prop :=
  exists c v, tok = c :: v /\ foreign F R c = true /\ v <> [] /\ closing F R v.

(** A pattern without [^] and [$]. *)
Fixpoint no_anchor (r : re) : bool :=
  match r with
  | Bol | Eol => false
  | Cat a b | Alt a b => no_anchor a && no_anchor b
  | Opt a => no_anchor a
  | Eps | Chr _ | Star _ | StarLazy _ | Plus _ => true
  end.

(** A pattern that ends in [.*$] and has no other anchor. *)
Fixpoint ends_open (r : re) : bool :=
  match r with
  | Cat (Star CAny) Eol => true
  | Cat a b => no_anchor a && ends_open b
  | _ => false
  end.

(** The shape of the patterns that cut a signature off the end. *)
Definition cuts_tail (r : re) : bool := ends_open r && (0 <? min_len r).

(** Every pattern [_clean_response] deletes at the end of the text. *)
Definition tail_patterns : list re := signature_patterns ++ [last_signature_pattern].

(** [s] begins with [phrase], whatever the case of the letters: the text
    after it. *)
Fixpoint spelled_at_start (phrase s : str) : option str :=
  match phrase with
  | [] => Some s
  | c :: w =>
      match s with
      | x :: s' =>
          if char_eqb (lower_char x) (lower_char c) then spelled_at_start w s'
          else None
      | [] => None
      end
  end.

(** The text after the first place of [s] where [phrase] is spelled. *)
Fixpoint after_phrase (phrase s : str) : option str :=
  match spelled_at_start phrase s with
  | Some t => Some t
  | None =>
      match s with
      | [] => None
      | _ :: s' => after_phrase phrase s'
      end
  end.

(** The text after the first line break of [s]. *)
Fixpoint after_line_break (s : str) : option str :=
  match s with
  | [] => None
  | x :: s' => if char_eqb x nl then Some s' else after_line_break s'
  end.

Definition after_two_line_breaks (s : str) : option str :=
  match after_line_break s with
  | Some t => after_line_break t
  | None => None
  end.

(** The text after the second line break that follows the first spelling
    of [phrase] in [s]. *)
Definition past_sign_off (phrase s : str) : option str :=
  match after_phrase phrase s with
  | Some t => after_two_line_breaks t
  | None => None
  end.

(** [s] without its head up to and including the second line break after
    the first spelling of [phrase]; [s] itself when the phrase is not
    there or fewer than two line breaks follow it. *)
Definition without_head (phrase s : str) : str :=
  match past_sign_off phrase s with
  | Some t => t
  | None => s
  end.

(** The three heads [_clean_response] cuts, in its order. *)
Definition without_heads (s : str) : str :=
  without_head (py "Thank you,")
    (without_head (py "Sincerely,")
       (without_head (py "Best regards,") s)).

(** The similarity a result dictionary carries. *)
Definition similarity_in (d : dict) : option value := dict_get d "similarity".

(** The results of the vector search for the documents [docs], the first
    of rank [i]. *)
Definition numbered_results (i : nat) (docs : list Document) : list dict :=
  map (fun p => faiss_result (fst p) (snd p)) (enumerate_from i docs).

(** What a returned dictionary looks like when read back by key. *)
Definition response_keys : list string :=
  ["response"; "confidence"; "context_used"; "sources";
   "suggested_responses"; "pdf_available"]%string.

Definition shaped (d : dict) : Prop :=
  (forall k, In k response_keys -> dict_has d k = true)
  /\ exists confidence context_used sources,
       dict_get d "confidence" = Some (VNum confidence)
       /\ dict_get d "context_used" = Some (VBool context_used)
       /\ dict_get d "sources" = Some (VList sources)
       /\ (5 # 10 <= confidence <= 95 # 100)%Q
       /\ (context_used = true <-> sources <> [])
       /\ (context_used = true -> (7 # 10 <= confidence)%Q).

(** The first two rewrites of [preprocess_text]: [\s+], and a character
    outside [\w \s ? : , . - ( )]. *)
Definition spaces_pattern : re := Plus (CAtom ASpace).

Definition special_pattern : re :=
  Chr (CSet true [AWord; ASpace; AChar "?"; AChar ":"; AChar ",";
                  AChar "."; AChar "-"; AChar "("; AChar ")"]).

(** [preprocess_text] without its currency and percentage rewrites. *)
Definition squeezed (text : str) : str :=
  strip (re_sub no_flags special_pattern []
           (re_sub no_flags spaces_pattern (py " ") (lower text))).

(** Text of ASCII characters, on which the model of [str] follows
    Python. *)
Definition ascii_text (s : str) : Prop := Forall (fun c => code c < 128) s.

(** A character that [preprocess_text] can leave in its result: a
    lower-case letter, a digit, the underscore, the space, or one of the
    punctuation marks it retains. *)
Definition kept_char (c : ascii) : bool :=
  is_lower c || is_digit c || existsb (char_eqb c) (py "_ ?:,.-()").

(** Text without white space at either end. *)
Definition trimmed (s : str) : Prop :=
  (forall c s', s = c :: s' -> is_space c = false)
  /\ (forall s' c, s = s' ++ [c] -> is_space c = false).

(** The request [_chat] sends for its arguments: the temperature raised
    to 0.1 when it is not positive, the token limit capped at 8192. *)
Definition sent_request (msgs : list (str * str)) (temperature top_p : Q)
    (max_tokens : Z) : request :=
  Request msgs (if Qle_bool temperature 0 then (1 # 10)%Q else temperature) top_p
          (if (8192 <? max_tokens)%Z then 8192%Z else max_tokens).

(** What [_chat] makes of the outcome of the POST. *)
Definition reply_text (o : outcome http_response) : option str :=
  match o with
  | Ok resp =>
      if status_code resp =? 200
      then match content resp with Ok c => Some (strip c) | Raise => None end
      else None
  | Raise => None
  end.

(** The reply as a string, empty when there is none. *)
Definition text_of (result : option str) : str :=
  match result with Some r => r | None => [] end.

(** The state after one more request to the hosted model. *)
Definition after_request (st : machine) : machine :=
  Mach (self st) (fs st) (S (llm_calls st)) (trace st).

(** A text that carries the sign-off: it matches
    [best regards.*techcorp.*service] and has at least 20 characters. *)
Definition signed (t : str) : Prop := has_signature t = true /\ 20 <= length t.

(** The PDF at [pdf_path] can be read, indexed and saved in this world,
    giving the vector store [v]. *)
Definition indexable (E : externals) (st : machine) (pdf_path : str)
    (v : vectorstore) : Prop :=
  exists pages dim,
    pdf_pages (fs st) pdf_path = Ok pages
    /\ from_texts E (split_text E (join [nl; nl] (kept_texts pages))) = Ok v
    /\ save_local E v (index_path_of (self st)) = true
    /\ embed_dim E = Ok dim.

(** [os.listdir] raises where [get_pdf_info] calls it: on the project
    root, or, when the root holds no PDF and [company_documents] exists,
    on that path. *)
Definition listing_raises (f : filesystem) : bool :=
  match root_files f with
  | Raise => true
  | Ok in_root =>
      match filter is_pdf in_root, company_documents f with
      | [], Some Raise => true
      | _, _ => false
      end
  end.

(** The path of the first PDF [get_pdf_info] lists, if it lists one. *)
Definition first_pdf (f : filesystem) : option str :=
  match root_files f with
  | Raise => None
  | Ok in_root =>
      match filter is_pdf in_root with
      | pdf_file :: _ => Some (path_join project_root pdf_file)
      | [] =>
          match company_documents f with
          | Some (Ok listing) =>
              match filter is_pdf listing with
              | pdf_file :: _ =>
                  Some (path_join (path_join project_root (py "company_documents"))
                                  pdf_file)
              | [] => None
              end
          | _ => None
          end
      end
  end.

(** The chunks the splitter makes of the PDF at [pdf_path]. *)
Definition pdf_chunks (E : externals) (st : machine) (pdf_path : str)
  : list str :=
  match pdf_pages (fs st) pdf_path with
  | Ok pages => split_text E (join [nl; nl] (kept_texts pages))
  | Raise => []
  end.

(** The entry stored for the chunk at position [i] of an uploaded
    document. *)
Definition part_entry (title : str) (i : nat) (chunk : str) : dict :=
  [ kv "title" (VStr (title ++ py " - Part " ++ str_of_nat (i + 1)));
    kv "content" (VStr chunk);
    kv "full_title" (VStr title);
    kv "processed_content" (VStr (preprocess_text chunk)) ].

(** The texts the TF-IDF vectoriser is fitted on. *)
Definition processed_contents (docs : list dict) : outcome (list str) :=
  all_ok (map (fun doc => str_item doc "processed_content") docs).

(** The TF-IDF vectors can be built over these documents. *)
Definition vectorisable (E : externals) (docs : list dict) (v : tfidf_matrix)
  : Prop :=
  exists texts, processed_contents docs = Ok texts /\ fit_transform E texts = Ok v.

(** The two dictionaries [add_document] returns. *)
Definition upload_succeeded (file : upload) (content : str) : dict :=
  [ kv "filename" (VStr (filename file));
    kv "status" (VStr (py "success"));
    kv "size" (VNum (inject_Z (Z.of_nat (length content)))) ].

Definition upload_failed (file : upload) (error_text : str) : dict :=
  [ kv "filename" (VStr (filename file));
    kv "status" (VStr (py "error"));
    kv "error" (VStr error_text) ].

(** Documents as the vector pipeline leaves them in [self.documents]:
    built from chunks by [process_pdf_and_index] or read back from a
    docstore by [load_faiss_index]. *)
Definition from_vector_pipeline (docs : list dict) : Prop :=
  (exists text_chunks, docs = chunk_dicts 0 text_chunks)
  \/ (exists v, docs = docstore_dicts v).

(** The service as the constructor has it when no index could be loaded
    and before it turns to the PDFs. *)
Definition unindexed_service : RAGService :=
  Rag [] None initial_knowledge_base_path IsNone IsNone.

Definition unindexed (st : machine) : machine :=
  Mach unindexed_service (fs st) (llm_calls st) (trace st).

(** The service can be had: it is built already, or the constructor
    returns. *)
Definition service_ready (E : externals) (s : Routes.app) : Prop :=
  Routes.rag_service s = true \/ fst (__init__ E (Routes.world s)) = Ok tt.

(** The application once [get_rag_service] has returned. *)
Definition with_service (E : externals) (s : Routes.app) : Routes.app :=
  if Routes.rag_service s then s
  else Routes.App true (snd (__init__ E (Routes.world s))).

(** A request body that [chat] turns down: no JSON value or a falsy one,
    none with a ['message'] in it, or a message that is blank. *)
Definition rejected (data : outcome value) : Prop :=
  exists v,
    data = Ok v
    /\ (value_truthy v = false
        \/ Routes.lacks_message v = Ok true
        \/ (Routes.lacks_message v = Ok false /\ Routes.message_of v = Ok [])).

(** The conversation id [chat] answers with: the one given when it is
    truthy, a fresh one otherwise. *)
Definition answered_id (C : Routes.clock) (d : dict) : value :=
  let given := dict_get_default d "conversation_id" VNone in
  if value_truthy given then given else VStr (Routes.uuid4 C 0).

(** The keys of the body [chat] answers with. *)
Definition chat_keys : list string :=
  ["message_id"; "conversation_id"; "response"; "confidence"; "sources";
   "context_used"; "timestamp"; "suggested_responses"; "pdf_available";
   "debug"]%string.

(** The uploaded files [upload_documents] hands to [add_document]. *)
Definition named (files : list upload) : list upload :=
  filter (fun f => negb (str_eqb (filename f) [])) files.

End Spec.

Module Sample.
Import Py Re Machine Groq Rag.

(** A hosted model that answers every request with the same text. *)
Definition constant_llm (reply : str) : nat -> request -> outcome http_response :=
  fun _ _ => Ok (Http 200 (Ok reply)).

(** A hosted model that answers the [n]-th request with the [n]-th text of
    a script and fails afterwards. *)
Definition scripted_llm (script : list str) : nat -> request -> outcome http_response :=
  fun n _ =>
    match nth_error script n with
    | Some reply => Ok (Http 200 (Ok reply))
    | None => Raise
    end.

Definition doc_a : Document := Doc (py "Cloud migration starts at $2,500 per month.") None.
Definition doc_b : Document := Doc (py "Support is available 24/7.") (Some []).

Definition store : vectorstore :=
  Store [ (py "id-a", StoredDocument doc_a); (py "id-b", StoredDocument doc_b) ].

(** Externals in which everything works: the splitter cuts at blank
    lines only in name (it returns the text as one chunk), the vector store
    built from texts is [store], and the retriever returns both documents. *)
Definition externals_ok (llm : nat -> request -> outcome http_response) : externals :=
  Ext llm
      (fun text => [text])
      (fun _ => Ok store)
      (fun _ _ => true)
      (Ok 384)
      (fun _ _ _ => Ok [doc_a; doc_b])
      (fun texts => Ok (Fitted texts))
      (fun _ _ => Ok [(9 # 10)%Q; (3 # 10)%Q]).

(** The same with a retriever that raises. *)
Definition externals_retriever_down (llm : nat -> request -> outcome http_response)
  : externals :=
  Ext llm
      (fun text => [text])
      (fun _ => Ok store)
      (fun _ _ => true)
      (Ok 384)
      (fun _ _ _ => Raise)
      (fun texts => Ok (Fitted texts))
      (fun _ _ => Ok [(9 # 10)%Q; (3 # 10)%Q]).

Definition empty_fs : filesystem :=
  Fs (Ok []) None (fun _ => Raise) (fun _ => None) (fun _ => None).

Definition chunk (title content : string) : dict :=
  [ kv "title" (VStr (py title)); kv "content" (VStr (py content));
    kv "full_title" (VStr (py title)) ].

Definition two_chunks : list dict :=
  [ chunk "Chunk 1" "Cloud migration starts at $2,500 per month.";
    chunk "Chunk 2" "Support is available 24/7." ].

(** A service with a loaded index and two chunks. *)
Definition indexed_service : RAGService :=
  Rag two_chunks None initial_knowledge_base_path (Present store) (Present 384).

(** A service without an index, with TF-IDF vectors over its two chunks. *)
Definition legacy_service : RAGService :=
  Rag two_chunks (Some (Fitted [])) initial_knowledge_base_path IsNone IsNone.

Definition machine_of (s : RAGService) (f : filesystem) : machine := Mach s f 0 [].

(** A project directory with one PDF of four pages: text with blanks
    around it, a page of blanks, a page without text, and text. *)
Definition brochure_path : str := path_join project_root (py "company.pdf").

Definition brochure_pages : list (option str) :=
  [ Some (py "  Cloud Migration  " ++ [nl]); Some (py "   "); None;
    Some (py "Support 24/7") ].

Definition brochure_fs : filesystem :=
  Fs (Ok [py "README.md"; py "company.pdf"]) None
     (fun p => if str_eqb p brochure_path then Ok brochure_pages else Raise)
     (fun _ => None) (fun _ => None).

(** The same directory after an index was saved at the start-up path. *)
Definition indexed_fs : filesystem :=
  Fs (Ok [py "README.md"; py "company.pdf"]) None
     (fun p => if str_eqb p brochure_path then Ok brochure_pages else Raise)
     (fun p => if str_eqb p (path_join initial_knowledge_base_path (py "faiss_index"))
               then Some (Readable store) else None)
     (fun _ => None).

(** A project directory without a PDF in which [company_documents] is
    there but cannot be listed: a regular file, or a directory that may not
    be read. *)
Definition unlistable_fs : filesystem :=
  Fs (Ok [py "README.md"]) (Some Raise) (fun _ => Raise) (fun _ => None)
     (fun _ => None).

(** A service on the legacy path whose only document, restored from a
    pickle, has no text under ["content"]. *)
Definition damaged_service : RAGService :=
  Rag [ [ kv "title" (VStr (py "Pricing")); kv "content" VNone ] ]
      (Some (Fitted [])) initial_knowledge_base_path IsNone IsNone.

(** A model that classifies a message as a general, relevant question. *)
Definition relevant_question_llm : nat -> request -> outcome http_response :=
  scripted_llm [py "general"; py "general"; py "relevant"].

End Sample.

(* ================================================================== *)
(** * Properties *)

Import Py Re Machine Groq Rag Spec.

Unset Implicit Arguments.

(** ** Strings and dictionaries *)

Lemma char_eqb_eq (a b : ascii) : char_eqb a b = true <-> a = b.
Proof. unfold char_eqb. apply Ascii.eqb_eq. Qed.

Lemma str_eqb_eq (a b : str) : str_eqb a b = true <-> a = b.
Proof.
  revert b. induction a as [|x a IH]; intros [|y b]; simpl; split;
    try congruence; try reflexivity.
  - intros H. apply andb_true_iff in H as [Hx Hs].
    apply char_eqb_eq in Hx. apply IH in Hs. congruence.
  - intros H. injection H as -> ->. apply andb_true_iff. split.
    + now apply char_eqb_eq.
    + now apply IH.
Qed.

Lemma str_eqb_refl (a : str) : str_eqb a a = true.
Proof. now apply str_eqb_eq. Qed.

Lemma str_in_In (x : str) (l : list str) : str_in x l = true <-> In x l.
Proof.
  unfold str_in. rewrite existsb_exists. split.
  - intros [y [Hy Heq]]. apply str_eqb_eq in Heq. now subst.
  - intros H. exists x. split; [assumption | apply str_eqb_refl].
Qed.

Lemma ascii_text_check (s : str) :
  forallb (fun c => code c <? 128) s = true -> ascii_text s.
Proof.
  intros H. apply Forall_forall. intros c Hc.
  rewrite forallb_forall in H. apply Nat.ltb_lt. now apply H.
Qed.

(** ** The hosted model *)

(** [_chat] swallows every failure: it returns, and with one more request
    on the counter. *)
Lemma chat_returns (E : externals) msgs t p n (st : machine) :
  exists result,
    _chat E msgs t p n st
    = (Ok result, Mach (self st) (fs st) (S (llm_calls st)) (trace st)).
Proof.
  unfold _chat.
  destruct (llm E _ _) as [resp|]; [|now exists None].
  destruct (status_code resp =? 200); [|now exists None].
  destruct (content resp) as [c|]; [now exists (Some (strip c)) | now exists None].
Qed.

Lemma intent_of_reply_valid (result : option str) :
  In (intent_of_reply result) valid_intents.
Proof.
  unfold intent_of_reply.
  destruct result as [r|]; [|vm_compute; tauto].
  destruct (truthy r && str_in (lower r) valid_intents) eqn:H.
  - apply andb_true_iff in H as [_ H]. now apply str_in_In.
  - vm_compute; tauto.
Qed.

Lemma valid_intent_nonempty (r : str) :
  str_in (lower r) valid_intents = true -> truthy r = true.
Proof.
  destruct r; [vm_compute; discriminate | reflexivity].
Qed.

(** C10.  Whatever the hosted model answers, and also when the request
    fails, [analyze_query_intent] returns one of the eight intents: the
    lower-cased reply when that is one of them, ['general'] otherwise.
    [check_relevance] returns [True] exactly when the reply, stripped and
    lower-cased, is ['relevant'], and a falsy value on every other reply
    and on failure. *)
Theorem intent_and_relevance_normalised :
  forall (E : externals) (query : str) (st : machine),
    (exists result st',
        _chat E (intent_messages query) (1 # 10)%Q (9 # 10)%Q 10%Z st
        = (Ok result, st')
        /\ analyze_query_intent E query st = (Ok (intent_of_reply result), st')
        /\ In (intent_of_reply result) valid_intents
        /\ match result with
           | Some r =>
               if str_in (lower r) valid_intents
               then intent_of_reply result = lower r
               else intent_of_reply result = py "general"
           | None => intent_of_reply result = py "general"
           end)
    /\
    (exists result st',
        _chat E (relevance_messages query) (1 # 10)%Q (9 # 10)%Q 5%Z st
        = (Ok result, st')
        /\ check_relevance E query st = (Ok (relevance_of_reply result), st')
        /\ (relevance_of_reply result = VBool true
            <-> exists r, result = Some r /\ lower (strip r) = py "relevant")
        /\ ((~ exists r, result = Some r /\ lower (strip r) = py "relevant")
            -> value_truthy (relevance_of_reply result) = false)).
Proof.
  intros E query st. split.
  - destruct (chat_returns E (intent_messages query) (1 # 10)%Q (9 # 10)%Q 10%Z st)
      as [result Hc].
    exists result. eexists. split; [exact Hc|].
    split; [unfold analyze_query_intent, bind; now rewrite Hc|].
    split; [apply intent_of_reply_valid|].
    destruct result as [r|]; [|reflexivity].
    unfold intent_of_reply.
    destruct (str_in (lower r) valid_intents) eqn:H.
    + now rewrite (valid_intent_nonempty r H).
    + now rewrite andb_false_r.
  - destruct (chat_returns E (relevance_messages query) (1 # 10)%Q (9 # 10)%Q 5%Z st)
      as [result Hc].
    exists result. eexists. split; [exact Hc|].
    split; [unfold check_relevance, bind; now rewrite Hc|].
    assert (Hiff : relevance_of_reply result = VBool true
                   <-> exists r, result = Some r /\ lower (strip r) = py "relevant").
    { unfold relevance_of_reply. destruct result as [r|].
      - destruct r as [|c r].
        + split; [discriminate|]. intros [r [Hr Hl]]. injection Hr as <-.
          vm_compute in Hl. discriminate.
        + cbn [truthy]. split.
          * intros H. injection H as H. apply str_eqb_eq in H. now exists (c :: r).
          * intros [r' [Hr Hl]]. injection Hr as <-. f_equal. now apply str_eqb_eq.
      - split; [discriminate|]. intros [r [Hr _]]. discriminate. }
    split; [exact Hiff|].
    intros Hn.
    destruct (value_truthy (relevance_of_reply result)) eqn:Hv; [|reflexivity].
    exfalso. apply Hn. apply Hiff.
    unfold relevance_of_reply in *.
    destruct result as [[|c r]|]; try discriminate.
    simpl in *. f_equal. exact Hv.
Qed.

(** ** Scores *)

Lemma Qlt_bool_iff (a b : Q) : Qlt_bool a b = true <-> (a < b)%Q.
Proof.
  unfold Qlt_bool. rewrite negb_true_iff. split.
  - intros H. apply Qnot_le_lt. intros Hle. apply Qle_bool_iff in Hle. congruence.
  - intros H. destruct (Qle_bool b a) eqn:Hle; [|reflexivity].
    apply Qle_bool_iff in Hle. exfalso. now apply (Qlt_not_le a b).
Qed.

Lemma Qlt_bool_false_iff (a b : Q) : Qlt_bool a b = false <-> (b <= a)%Q.
Proof.
  unfold Qlt_bool. rewrite negb_false_iff. apply Qle_bool_iff.
Qed.

Lemma pymax_ge_l (a b : Q) : (a <= pymax a b)%Q.
Proof.
  unfold pymax. destruct (Qlt_bool a b) eqn:H.
  - apply Qlt_bool_iff in H. now apply Qlt_le_weak.
  - apply Qle_refl.
Qed.

Lemma pymax_ge_r (a b : Q) : (b <= pymax a b)%Q.
Proof.
  unfold pymax. destruct (Qlt_bool a b) eqn:H.
  - apply Qle_refl.
  - now apply Qlt_bool_false_iff.
Qed.

Lemma rank_similarity_passes (i : nat) :
  Qlt_bool threshold (rank_similarity i) = (i <? 6).
Proof.
  destruct (i <? 6) eqn:Hi.
  - apply Nat.ltb_lt in Hi. apply Qlt_bool_iff.
    unfold threshold, rank_similarity, Qlt, Qminus, Qplus, Qmult, Qopp, inject_Z.
    cbn [Qnum Qden]. rewrite ?Pos2Z.inj_mul. lia.
  - apply Nat.ltb_ge in Hi. apply Qlt_bool_false_iff.
    unfold threshold, rank_similarity, Qle, Qminus, Qplus, Qmult, Qopp, inject_Z.
    cbn [Qnum Qden]. rewrite ?Pos2Z.inj_mul. lia.
Qed.

Lemma rank_similarity_decreasing (i : nat) :
  (rank_similarity (S i) < rank_similarity i)%Q.
Proof.
  unfold rank_similarity, Qlt, Qminus, Qplus, Qmult, Qopp, inject_Z.
  cbn [Qnum Qden]. rewrite ?Pos2Z.inj_mul. lia.
Qed.

(** ** Vector search *)

Lemma collect_faiss_results_upto (docs : list Document) :
  forall i k results max_sim,
    k = 6 - i ->
    fst (collect_faiss i docs results max_sim)
    = results ++ numbered_results i (firstn k docs).
Proof.
  induction docs as [|doc docs IH]; intros i k results max_sim Hk.
  - rewrite firstn_nil. unfold numbered_results. simpl.
    now rewrite app_nil_r.
  - cbn [collect_faiss]. rewrite rank_similarity_passes.
    destruct (i <? 6) eqn:Hi.
    + apply Nat.ltb_lt in Hi. rewrite (IH (S i) (6 - S i)) by reflexivity.
      destruct k as [|k]; [lia|]. replace (6 - S i) with k by lia.
      unfold numbered_results. simpl. now rewrite <- app_assoc.
    + apply Nat.ltb_ge in Hi. rewrite (IH (S i) 0) by lia.
      replace k with 0 by lia. reflexivity.
Qed.

Lemma collect_faiss_results (docs : list Document) (results : list dict) (max_sim : Q) :
  fst (collect_faiss 0 docs results max_sim)
  = results ++ numbered_results 0 (firstn 6 docs).
Proof. now apply collect_faiss_results_upto. Qed.

Lemma collect_faiss_max (docs : list Document) :
  forall i results max_sim,
    (max_sim <= snd (collect_faiss i docs results max_sim))%Q.
Proof.
  induction docs as [|doc docs IH]; intros i results max_sim.
  - apply Qle_refl.
  - simpl. destruct (Qlt_bool threshold (rank_similarity i)).
    + eapply Qle_trans; [apply pymax_ge_l | apply IH].
    + apply IH.
Qed.

Lemma rank_retrieved_spec (docs : list Document) :
  rank_retrieved docs = numbered_results 0 (firstn 6 docs).
Proof.
  unfold rank_retrieved.
  destruct (collect_faiss 0 docs [] 0%Q) as [results max_sim] eqn:Hc.
  assert (Hr : results = numbered_results 0 (firstn 6 docs)).
  { change results with (fst (results, max_sim)). rewrite <- Hc.
    now rewrite collect_faiss_results. }
  destruct docs as [|doc docs].
  - subst results. now destruct (Qlt_bool max_sim relevance_floor).
  - assert (Hm : (relevance_floor <= max_sim)%Q).
    { change max_sim with (snd (results, max_sim)). rewrite <- Hc.
      simpl. eapply Qle_trans; [|apply collect_faiss_max].
      eapply Qle_trans; [|apply pymax_ge_r]. vm_compute. discriminate. }
    apply Qlt_bool_false_iff in Hm. now rewrite Hm.
Qed.

Lemma enumerate_from_length {A} (l : list A) :
  forall i, length (enumerate_from i l) = length l.
Proof. induction l; intros i; simpl; [reflexivity | now rewrite IHl]. Qed.

Lemma numbered_results_nth (docs : list Document) :
  forall i n doc,
    nth_error docs n = Some doc ->
    nth_error (numbered_results i docs) n = Some (faiss_result (i + n) doc).
Proof.
  induction docs as [|d docs IH]; intros i n doc H.
  - now destruct n.
  - destruct n as [|n]; simpl in *.
    + injection H as ->. now rewrite Nat.add_0_r.
    + unfold numbered_results in *. simpl.
      rewrite (IH (S i) n doc H). f_equal. f_equal. lia.
Qed.

Lemma nth_error_firstn_lt {A} (l : list A) (k n : nat) :
  n < k -> nth_error (firstn k l) n = nth_error l n.
Proof.
  revert k n. induction l as [|x l IH]; intros k n H.
  - now rewrite firstn_nil.
  - destruct k; [lia|]. destruct n; [reflexivity|]. simpl. apply IH. lia.
Qed.

(** C9.  With an index, documents and an answering retriever, the vector
    search gives the document of rank [i] the similarity [0.8 - 0.1 * i]
    whatever was measured: the scores fall strictly from 0.8, only ranks
    below six are kept whatever [top_k] is, and a retriever that returns a
    document always gets a result through. *)
Theorem faiss_scores_are_synthesized :
  forall (E : externals) (query : str) (top_k : Z) (st : machine)
         (index : vectorstore) (docs : list Document),
    faiss_index (self st) = Present index ->
    documents (self st) <> [] ->
    retrieve E index query top_k = Ok docs ->
    exists results st',
      search_documents_faiss E query top_k st = (Ok results, st')
      /\ length results = Nat.min (length docs) 6
      /\ length results <= 6
      /\ (forall i doc,
             i < 6 -> nth_error docs i = Some doc ->
             nth_error results i = Some (faiss_result i doc)
             /\ similarity_in (faiss_result i doc) = Some (VNum (rank_similarity i)))
      /\ (rank_similarity 0 == 8 # 10)%Q
      /\ (forall i, (rank_similarity (S i) < rank_similarity i)%Q)
      /\ (docs <> [] -> results <> []).
Proof.
  intros E query top_k st index docs Hidx Hdocs Hret.
  exists (numbered_results 0 (firstn 6 docs)). eexists.
  assert (Hlen : length (numbered_results 0 (firstn 6 docs)) = Nat.min (length docs) 6).
  { unfold numbered_results. rewrite length_map, enumerate_from_length, length_firstn.
    apply Nat.min_comm. }
  split; [|split; [exact Hlen|split; [rewrite Hlen; apply Nat.le_min_r|split; [|split; [|split]]]]].
  - unfold search_documents_faiss, bind, emit, get_self, try_except, lift, ret.
    simpl. rewrite Hidx.
    destruct (documents (self st)) as [|d ds]; [congruence|].
    rewrite Hret. rewrite rank_retrieved_spec. reflexivity.
  - intros i doc Hi Hn. split; [|reflexivity].
    apply (numbered_results_nth (firstn 6 docs) 0 i).
    now rewrite nth_error_firstn_lt.
  - vm_compute. reflexivity.
  - apply rank_similarity_decreasing.
  - intros Hne Hnil. apply (f_equal (@length dict)) in Hnil. rewrite Hlen in Hnil.
    destruct docs; [congruence|]. simpl in Hnil. discriminate.
Qed.

Lemma faiss_scores_are_synthesized_witness :
  exists results st',
    search_documents_faiss (Sample.externals_ok (Sample.constant_llm []))
      (py "pricing") 3 (Sample.machine_of Sample.indexed_service Sample.empty_fs)
    = (Ok results, st')
    /\ length results = 2.
Proof.
  destruct (faiss_scores_are_synthesized
              (Sample.externals_ok (Sample.constant_llm []))
              (py "pricing") 3
              (Sample.machine_of Sample.indexed_service Sample.empty_fs)
              Sample.store [Sample.doc_a; Sample.doc_b])
    as [results [st' [H [Hlen _]]]].
  - reflexivity.
  - discriminate.
  - reflexivity.
  - exists results, st'. split; [exact H | exact Hlen].
Defined.

(** ** Which search runs *)

Lemma skipn_own_length {A} (l evs : list A) : skipn (length l) (l ++ evs) = evs.
Proof. induction l; simpl; [reflexivity | assumption]. Qed.

Lemma events_of_run {A} (c : M A) (st st' : machine) (o : outcome A) (evs : list event) :
  c st = (o, st') -> trace st' = trace st ++ evs -> events_of c st = evs.
Proof.
  intros Hc Ht. unfold events_of. rewrite Hc. simpl. rewrite Ht.
  apply skipn_own_length.
Qed.

(** The legacy search never raises and changes nothing but the trace. *)
Lemma search_documents_run (E : externals) (query : str) (top_k : Z) (st : machine) :
  exists results,
    search_documents E query top_k st
    = (Ok results,
       Mach (self st) (fs st) (llm_calls st) (trace st ++ [Call_search_documents])).
Proof.
  unfold search_documents, bind, emit, get_self, try_except, lift, ret. simpl.
  destruct (documents (self st)) as [|d ds]; [now exists []|].
  destruct (document_vectors (self st)) as [v|]; [|now exists []].
  destruct (similarities E v (preprocess_text query)) as [sims|]; eauto.
Qed.

#[local] Arguments search_documents : simpl never.

(** The three ways through [search_documents_faiss]. *)
Lemma search_documents_faiss_delegates (E : externals) (query : str) (top_k : Z)
    (st : machine) :
  available (faiss_index (self st)) = false \/ documents (self st) = [] ->
  exists results,
    search_documents_faiss E query top_k st
    = (Ok results,
       Mach (self st) (fs st) (llm_calls st)
            (trace st ++ [Call_search_documents_faiss; Call_search_documents])).
Proof.
  intros H.
  destruct (search_documents_run E query top_k
              (Mach (self st) (fs st) (llm_calls st)
                    (trace st ++ [Call_search_documents_faiss]))) as [results Hr].
  exists results. simpl in Hr. rewrite <- app_assoc in Hr. simpl in Hr.
  unfold search_documents_faiss, bind, emit, get_self. simpl.
  destruct (faiss_index (self st)) as [| |index]; try exact Hr.
  destruct (documents (self st)) as [|d ds]; [exact Hr|].
  destruct H as [H|H]; discriminate.
Qed.

Lemma search_documents_faiss_answers (E : externals) (query : str) (top_k : Z)
    (st : machine) (index : vectorstore) (docs : list Document) :
  faiss_index (self st) = Present index ->
  documents (self st) <> [] ->
  retrieve E index query top_k = Ok docs ->
  search_documents_faiss E query top_k st
  = (Ok (rank_retrieved docs),
     Mach (self st) (fs st) (llm_calls st)
          (trace st ++ [Call_search_documents_faiss; Retriever_invoke])).
Proof.
  intros Hidx Hdocs Hret.
  unfold search_documents_faiss, bind, emit, get_self, try_except, lift, ret.
  simpl. rewrite Hidx.
  destruct (documents (self st)) as [|d ds]; [congruence|].
  rewrite Hret. simpl. now rewrite <- app_assoc.
Qed.

Lemma search_documents_faiss_recovers (E : externals) (query : str) (top_k : Z)
    (st : machine) (index : vectorstore) :
  faiss_index (self st) = Present index ->
  documents (self st) <> [] ->
  retrieve E index query top_k = Raise ->
  exists results,
    search_documents_faiss E query top_k st
    = (Ok results,
       Mach (self st) (fs st) (llm_calls st)
            (trace st ++ [Call_search_documents_faiss; Retriever_invoke;
                          Call_search_documents])).
Proof.
  intros Hidx Hdocs Hret.
  destruct (search_documents_run E query top_k
              (Mach (self st) (fs st) (llm_calls st)
                    ((trace st ++ [Call_search_documents_faiss]) ++ [Retriever_invoke])))
    as [results Hr].
  exists results.
  unfold search_documents_faiss, bind, emit, get_self, try_except, lift, ret.
  simpl. rewrite Hidx.
  destruct (documents (self st)) as [|d ds]; [congruence|].
  rewrite Hret. simpl. simpl in Hr. rewrite Hr.
  now rewrite <- !app_assoc.
Qed.

(** ** Answering a message *)

Lemma bind_ok {A B} (c : M A) (k : A -> M B) (st st' : machine) (a : A) :
  c st = (Ok a, st') -> bind c k st = k a st'.
Proof. intros H. unfold bind. now rewrite H. Qed.

Lemma bind_raise {A B} (c : M A) (k : A -> M B) (st st' : machine) :
  c st = (Raise, st') -> bind c k st = (Raise, st').
Proof. intros H. unfold bind. now rewrite H. Qed.

Lemma try_except_ok {A} (c h : M A) (st st' : machine) (a : A) :
  c st = (Ok a, st') -> try_except c h st = (Ok a, st').
Proof. intros H. unfold try_except. now rewrite H. Qed.

Lemma try_except_raise {A} (c h : M A) (st st' : machine) :
  c st = (Raise, st') -> try_except c h st = h st'.
Proof. intros H. unfold try_except. now rewrite H. Qed.

Arguments bind_ok {A B c} k {st st' a} _.
Arguments bind_raise {A B c} k {st st'} _.
Arguments try_except_ok {A c} h {st st' a} _.
Arguments try_except_raise {A c} h {st st'} _.

Lemma pymin_le_l (a b : Q) : (pymin a b <= a)%Q.
Proof.
  unfold pymin. destruct (Qlt_bool b a) eqn:H.
  - apply Qlt_bool_iff in H. now apply Qlt_le_weak.
  - apply Qle_refl.
Qed.

Lemma pymin_glb (a b c : Q) : (c <= a)%Q -> (c <= b)%Q -> (c <= pymin a b)%Q.
Proof. intros Ha Hb. unfold pymin. now destruct (Qlt_bool b a). Qed.

(** The clamp [min(0.95, max(0.7, x))]. *)
Lemma confidence_clamped (x : Q) :
  (7 # 10 <= pymin (95 # 100) (pymax (7 # 10) x) <= 95 # 100)%Q.
Proof.
  split.
  - apply pymin_glb; [vm_compute; discriminate | apply pymax_ge_l].
  - apply pymin_le_l.
Qed.

(** [get_pdf_info] returns when both listings answer, and raises, without
    a change of state, when one of them raises. *)
Lemma get_pdf_info_run (st : machine) :
  listing_raises (fs st) = false ->
  exists info, get_pdf_info st = (Ok info, st)
               /\ exists b, pdf_available_of info = VBool b.
Proof.
  unfold listing_raises, get_pdf_info, bind, get_fs, lift, ret. simpl.
  destruct (root_files (fs st)) as [in_root|]; [|discriminate].
  destruct (filter is_pdf in_root) as [|f fs'].
  - destruct (company_documents (fs st)) as [[listing|]|]; intros H;
      try discriminate.
    + destruct (filter is_pdf listing); eexists; (split; [reflexivity|]);
        now eexists.
    + eexists; (split; [reflexivity|]); now eexists.
  - intros _. eexists; (split; [reflexivity|]); now eexists.
Qed.

Lemma get_pdf_info_raises (st : machine) :
  listing_raises (fs st) = true -> get_pdf_info st = (Raise, st).
Proof.
  unfold listing_raises, get_pdf_info, bind, get_fs, lift, ret. simpl.
  destruct (root_files (fs st)) as [in_root|]; [|reflexivity].
  destruct (filter is_pdf in_root) as [|f fs']; [|discriminate].
  destruct (company_documents (fs st)) as [[listing|]|]; intros H;
    try discriminate.
  reflexivity.
Qed.

Lemma analyze_query_intent_run (E : externals) (query : str) (st : machine) :
  exists intent,
    analyze_query_intent E query st
    = (Ok intent, Mach (self st) (fs st) (S (llm_calls st)) (trace st)).
Proof.
  destruct (chat_returns E (intent_messages query) (1 # 10)%Q (9 # 10)%Q 10%Z st)
    as [result Hc].
  exists (intent_of_reply result).
  unfold analyze_query_intent. now rewrite (bind_ok _ Hc).
Qed.

Lemma is_greeting_run (E : externals) (text : str) (st : machine) :
  exists b, is_greeting E text st
            = (Ok b, Mach (self st) (fs st) (S (llm_calls st)) (trace st)).
Proof.
  destruct (analyze_query_intent_run E text st) as [intent H].
  eexists. unfold is_greeting. rewrite (bind_ok _ H). reflexivity.
Qed.

Lemma is_farewell_run (E : externals) (text : str) (st : machine) :
  exists b, is_farewell E text st
            = (Ok b, Mach (self st) (fs st) (S (llm_calls st)) (trace st)).
Proof.
  destruct (analyze_query_intent_run E text st) as [intent H].
  eexists. unfold is_farewell. rewrite (bind_ok _ H). reflexivity.
Qed.

Lemma is_relevant_run (E : externals) (text : str) (st : machine) :
  exists v, is_relevant_to_company E text st
            = (Ok v, Mach (self st) (fs st) (S (llm_calls st)) (trace st)).
Proof.
  destruct (chat_returns E (relevance_messages text) (1 # 10)%Q (9 # 10)%Q 5%Z st)
    as [result Hc].
  eexists. unfold is_relevant_to_company, check_relevance.
  rewrite (bind_ok _ Hc). reflexivity.
Qed.

Lemma search_documents_faiss_returns (E : externals) (query : str) (top_k : Z)
    (st : machine) :
  exists results st', search_documents_faiss E query top_k st = (Ok results, st').
Proof.
  destruct (faiss_index (self st)) as [| |index] eqn:Hidx.
  1,2: destruct (search_documents_faiss_delegates E query top_k st) as [r Hr];
    [left; now rewrite Hidx | eauto].
  destruct (documents (self st)) as [|d ds] eqn:Hdocs.
  - destruct (search_documents_faiss_delegates E query top_k st) as [r Hr];
      [now right | eauto].
  - assert (Hne : documents (self st) <> []) by (rewrite Hdocs; discriminate).
    destruct (retrieve E index query top_k) as [docs|] eqn:Hret.
    + rewrite (search_documents_faiss_answers E query top_k st index docs Hidx Hne Hret). eauto.
    + destruct (search_documents_faiss_recovers E query top_k st index Hidx Hne Hret)
        as [r Hr]. eauto.
Qed.

Lemma reply_has_keys response confidence context_used sources suggested pdf k :
  In k response_keys ->
  dict_has (reply response confidence context_used sources suggested pdf) k = true.
Proof.
  simpl. intros [<-|[<-|[<-|[<-|[<-|[<-|[]]]]]]]; reflexivity.
Qed.

Lemma shaped_without_context response confidence suggested pdf :
  (5 # 10 <= confidence <= 95 # 100)%Q ->
  shaped (reply response confidence false [] suggested pdf).
Proof.
  intros Hc. split; [intros k; apply reply_has_keys|].
  exists confidence, false, []. repeat split; try reflexivity; try apply Hc;
    try discriminate; try congruence.
Qed.

Lemma shaped_with_context response x (sources : list value) suggested pdf :
  sources <> [] ->
  shaped (reply response (pymin (95 # 100) (pymax (7 # 10) x)) true sources
                suggested pdf).
Proof.
  intros Hs. destruct (confidence_clamped x) as [Hlo Hhi].
  split; [intros k; apply reply_has_keys|].
  exists (pymin (95 # 100) (pymax (7 # 10) x)), true, sources.
  repeat split; try reflexivity; try assumption; try (intros _; assumption).
  eapply Qle_trans; [|exact Hlo]. vm_compute. discriminate.
Qed.

(** The [try] body either raises or returns a well-shaped dictionary. *)
Lemma answer_from_documents_run (E : externals) (message : str) (pdf : value)
    (st : machine) :
  exists st',
    answer_from_documents E message pdf st = (Raise, st')
    \/ exists d, answer_from_documents E message pdf st = (Ok d, st') /\ shaped d.
Proof.
  unfold answer_from_documents.
  destruct (search_documents_faiss_returns E message 3 st) as [docs [st1 Hs]].
  rewrite (bind_ok _ Hs).
  destruct docs as [|doc docs].
  - exists st1. right. eexists. split; [reflexivity|].
    apply shaped_without_context. split; vm_compute; discriminate.
  - destruct (generate_rag_response E message (doc :: docs) st1)
      as [[response|] st2] eqn:Hg.
    + rewrite (bind_ok _ Hg).
      destruct (all_ok (map (fun d => num_of (similarity_of d)) (doc :: docs)))
        as [sims|] eqn:Hsims.
      * exists st2. right. eexists. unfold bind, lift, ret.
        split; [reflexivity|]. apply shaped_with_context. discriminate.
      * exists st2. left. reflexivity.
    + exists st2. left. now rewrite (bind_raise _ Hg).
Qed.

Lemma is_greeting_total (E : externals) (text : str) (st st' : machine) :
  is_greeting E text st <> (Raise, st').
Proof. destruct (is_greeting_run E text st) as [b H]. congruence. Qed.

Lemma is_farewell_total (E : externals) (text : str) (st st' : machine) :
  is_farewell E text st <> (Raise, st').
Proof. destruct (is_farewell_run E text st) as [b H]. congruence. Qed.

Lemma is_relevant_total (E : externals) (text : str) (st st' : machine) :
  is_relevant_to_company E text st <> (Raise, st').
Proof. destruct (is_relevant_run E text st) as [b H]. congruence. Qed.

Lemma process_message_run (E : externals) (message conversation_id : str)
    (st : machine) :
  listing_raises (fs st) = false ->
  exists d st',
    process_message E message conversation_id st = (Ok d, st') /\ shaped d.
Proof.
  intros Hlist.
  assert (Hfb : forall response suggested pdf,
             shaped (reply response (5 # 10) false [] suggested pdf)
             /\ shaped (reply response (6 # 10) false [] suggested pdf)
             /\ shaped (reply response (95 # 100) false [] suggested pdf)).
  { intros. repeat split; try apply reply_has_keys;
      apply shaped_without_context; split; vm_compute; discriminate. }
  unfold process_message.
  destruct (get_pdf_info_run st Hlist) as [info [Hinfo [avail Hav]]].
  rewrite (bind_ok _ Hinfo). cbv beta.
  unfold bind at 1.
  destruct (is_greeting E message st) as [[g|] st1] eqn:Hg;
    [|now apply is_greeting_total in Hg].
  destruct g.
  { eexists. eexists. split; [reflexivity | apply Hfb]. }
  unfold bind at 1.
  destruct (is_farewell E message st1) as [[f|] st2] eqn:Hf;
    [|now apply is_farewell_total in Hf].
  destruct f.
  { eexists. eexists. split; [reflexivity | apply Hfb]. }
  unfold bind at 1.
  destruct (is_relevant_to_company E message st2) as [[v|] st3] eqn:Hv;
    [|now apply is_relevant_total in Hv].
  destruct (value_truthy v); cbn [negb].
  - destruct (answer_from_documents_run E message (pdf_available_of info) st3)
      as [st' [Hr | [d [Hd Hshape]]]].
    + rewrite (try_except_raise _ Hr). eexists. eexists.
      split; [reflexivity | apply Hfb].
    + rewrite (try_except_ok _ Hd). eauto.
  - eexists. eexists. split; [reflexivity | apply Hfb].
Qed.

Lemma process_message_raises (E : externals) (message conversation_id : str)
    (st : machine) :
  listing_raises (fs st) = true ->
  process_message E message conversation_id st = (Raise, st).
Proof.
  intros H. unfold process_message.
  now rewrite (bind_raise _ (get_pdf_info_raises st H)).
Qed.


(** C8.  Every dictionary [process_message] returns has the six keys, a
    confidence between 0.5 and 0.95, and [context_used] true exactly when
    [sources] is not empty, in which case the confidence is at least
    0.7. *)
Theorem process_message_result_shape :
  forall (E : externals) (message conversation_id : str) (st : machine)
         (d : dict) (st' : machine),
    process_message E message conversation_id st = (Ok d, st') ->
    (forall k, In k response_keys -> dict_has d k = true)
    /\ exists confidence context_used sources,
         dict_get d "confidence" = Some (VNum confidence)
         /\ dict_get d "context_used" = Some (VBool context_used)
         /\ dict_get d "sources" = Some (VList sources)
         /\ (5 # 10 <= confidence <= 95 # 100)%Q
         /\ (context_used = true <-> sources <> [])
         /\ (context_used = true -> (7 # 10 <= confidence)%Q).
Proof.
  intros E message conversation_id st d st' Hrun.
  destruct (listing_raises (fs st)) eqn:Hlist.
  - rewrite (process_message_raises E message conversation_id st Hlist) in Hrun.
    discriminate.
  - destruct (process_message_run E message conversation_id st Hlist)
      as [d0 [st0 [H Hs]]].
    rewrite H in Hrun. injection Hrun as <- _. exact Hs.
Qed.



Lemma process_message_result_shape_witness :
  let d := fallback_reply (py "What does it cost?") (VBool false) in
  dict_has d "pdf_available" = true
  /\ exists confidence,
       dict_get d "confidence" = Some (VNum confidence)
       /\ (5 # 10 <= confidence <= 95 # 100)%Q.
Proof.
  intros d.
  assert (Hrun : process_message (Sample.externals_ok Sample.relevant_question_llm)
                   (py "What does it cost?") (py "c-1")
                   (Sample.machine_of Sample.damaged_service Sample.empty_fs)
                 = (Ok d, Mach Sample.damaged_service Sample.empty_fs 3
                               [Call_search_documents_faiss; Call_search_documents]))
    by (vm_compute; reflexivity).
  destruct (process_message_result_shape _ _ _ _ _ _ Hrun)
    as [Hkeys [confidence [context_used [sources [Hc [_ [_ [Hbounds _]]]]]]]].
  split; [apply Hkeys; cbn; tauto|].
  exists confidence. split; [exact Hc | exact Hbounds].
Defined.

(** ** Ingestion *)

Lemma strip_nil : strip [] = [].
Proof. reflexivity. Qed.

Lemma page_contents (pages : list (option str)) :
  forall n,
    all_ok (map (fun doc => str_item doc "content") (page_dicts n pages))
    = Ok (kept_texts pages).
Proof.
  induction pages as [|text pages IH]; intros n; [reflexivity|].
  cbn [page_dicts kept_texts flat_map].
  destruct text as [t|]; [|apply IH].
  destruct t as [|c t]; [cbn [truthy andb]; rewrite strip_nil; apply IH|].
  cbn [truthy andb].
  destruct (truthy (strip (c :: t))); [|apply IH].
  cbn [map]. cbv beta.
  change (str_item [kv "title" (VStr (py "Page " ++ str_of_nat (n + 1)));
                    kv "content" (VStr (strip (c :: t)))] "content")
    with (Ok (strip (c :: t))).
  cbn [all_ok]. fold (kept_texts pages). rewrite (IH (S n)). reflexivity.
Qed.

Lemma chunk_dicts_nth (chunks : list str) :
  forall i n chunk,
    nth_error chunks n = Some chunk ->
    nth_error (chunk_dicts i chunks) n = Some (chunk_entry (i + n) chunk).
Proof.
  induction chunks as [|c chunks IH]; intros i n chunk H.
  - now destruct n.
  - destruct n as [|n]; cbn [chunk_dicts nth_error] in *.
    + injection H as ->. now rewrite Nat.add_0_r.
    + rewrite (IH (S i) n chunk H). now rewrite Nat.add_succ_r.
Qed.

Lemma chunk_dicts_length (chunks : list str) :
  forall i, length (chunk_dicts i chunks) = length chunks.
Proof. induction chunks; intros i; simpl; [reflexivity | now rewrite IHchunks]. Qed.

(** A run of [process_pdf_and_index] in which the reader, the vector
    store and the embedding model all answer. *)
Lemma process_pdf_and_index_run (E : externals) (pdf_path : str) (st : machine)
    (pages : list (option str)) (v : vectorstore) (dim : nat) :
  let all_text := join [nl; nl] (kept_texts pages) in
  let text_chunks := split_text E all_text in
  pdf_pages (fs st) pdf_path = Ok pages ->
  from_texts E text_chunks = Ok v ->
  save_local E v (index_path_of (self st)) = true ->
  embed_dim E = Ok dim ->
  process_pdf_and_index E pdf_path st
  = (Ok tt,
     Mach (Rag (chunk_dicts 0 text_chunks) (document_vectors (self st))
               (knowledge_base_path (self st)) (Present v) (Present dim))
          (write_index (index_path_of (self st)) v (fs st))
          (llm_calls st)
          (trace st ++ [Call_process_pdf_and_index pdf_path;
                        Splitter_input all_text;
                        Save_local (index_path_of (self st))])).
Proof.
  intros all_text text_chunks Hpages Hstore Hsave Hdim.
  unfold process_pdf_and_index.
  unfold bind at 1. cbn [emit].
  unfold bind at 1. cbn [get_fs fs].
  unfold bind at 1. unfold lift at 1. rewrite Hpages.
  unfold bind at 1. unfold lift at 1. rewrite page_contents.
  fold all_text. fold text_chunks.
  unfold bind at 1. cbn [emit].
  unfold bind at 1. unfold lift at 1. rewrite Hstore.
  unfold bind at 1. cbn [get_self self].
  rewrite Hsave.
  unfold bind, emit, modify_fs, modify_self, lift, ret. rewrite Hdim.
  cbn. rewrite <- !app_assoc. reflexivity.
Qed.

(** C7.  [process_pdf_and_index] keeps, in page order, the stripped text
    of every page that is not blank, joins the kept texts with a blank
    line between them, hands that one string to the splitter, and leaves
    in [self.documents] one entry per chunk: the entry of the chunk at
    position [i] is titled ['Chunk i+1'] and has the chunk as content. *)
Theorem pdf_ingestion :
  forall (E : externals) (pdf_path : str) (st : machine)
         (pages : list (option str)) (v : vectorstore) (dim : nat),
    let all_text := join [nl; nl] (kept_texts pages) in
    let text_chunks := split_text E all_text in
    pdf_pages (fs st) pdf_path = Ok pages ->
    from_texts E text_chunks = Ok v ->
    save_local E v (index_path_of (self st)) = true ->
    embed_dim E = Ok dim ->
    exists st',
      process_pdf_and_index E pdf_path st = (Ok tt, st')
      /\ events_of (process_pdf_and_index E pdf_path) st
         = [ Call_process_pdf_and_index pdf_path;
             Splitter_input all_text;
             Save_local (index_path_of (self st)) ]
      /\ length (documents (self st')) = length text_chunks
      /\ (forall i chunk,
             nth_error text_chunks i = Some chunk ->
             nth_error (documents (self st')) i = Some (chunk_entry i chunk)
             /\ dict_get (chunk_entry i chunk) "title"
                = Some (VStr (py "Chunk " ++ str_of_nat (i + 1)))
             /\ dict_get (chunk_entry i chunk) "content" = Some (VStr chunk)).
Proof.
  intros E pdf_path st pages v dim all_text text_chunks Hpages Hstore Hsave Hdim.
  pose proof (process_pdf_and_index_run E pdf_path st pages v dim Hpages Hstore Hsave Hdim)
    as Hrun.
  eexists. split; [exact Hrun|].
  split; [exact (@events_of_run _ _ _ _ _ _ Hrun eq_refl)|].
  cbn [self documents]. split; [apply chunk_dicts_length|].
  intros i chunk Hi. split; [|split; reflexivity].
  apply (chunk_dicts_nth text_chunks 0 i chunk Hi).
Qed.

Lemma pdf_ingestion_witness :
  exists st',
    process_pdf_and_index (Sample.externals_ok (Sample.constant_llm []))
      Sample.brochure_path
      (Sample.machine_of fresh_service Sample.brochure_fs)
    = (Ok tt, st')
    /\ events_of (process_pdf_and_index (Sample.externals_ok (Sample.constant_llm []))
                                        Sample.brochure_path)
                 (Sample.machine_of fresh_service Sample.brochure_fs)
       = [ Call_process_pdf_and_index Sample.brochure_path;
           Splitter_input (py "Cloud Migration" ++ [nl; nl] ++ py "Support 24/7");
           Save_local startup_index_path ].
Proof.
  destruct (pdf_ingestion (Sample.externals_ok (Sample.constant_llm []))
              Sample.brochure_path
              (Sample.machine_of fresh_service Sample.brochure_fs)
              Sample.brochure_pages Sample.store 384)
    as [st' [Hrun [Hev _]]]; try reflexivity.
  exists st'. split; [exact Hrun | exact Hev].
Defined.

(** ** The persisted index *)

Lemma extends_ret {A} (a : A) : extends (ret a).
Proof. intros st. exists []. simpl. now rewrite app_nil_r. Qed.

Lemma extends_raise {A} : extends (@raise A).
Proof. intros st. exists []. simpl. now rewrite app_nil_r. Qed.

Lemma extends_lift {A} (o : outcome A) : extends (lift o).
Proof. intros st. exists []. simpl. now rewrite app_nil_r. Qed.

Lemma extends_get_self : extends get_self.
Proof. intros st. exists []. simpl. now rewrite app_nil_r. Qed.

Lemma extends_get_fs : extends get_fs.
Proof. intros st. exists []. simpl. now rewrite app_nil_r. Qed.

Lemma extends_modify_self f : extends (modify_self f).
Proof. intros st. exists []. simpl. now rewrite app_nil_r. Qed.

Lemma extends_modify_fs f : extends (modify_fs f).
Proof. intros st. exists []. simpl. now rewrite app_nil_r. Qed.

Lemma extends_emit e : extends (emit e).
Proof. intros st. now exists [e]. Qed.

Lemma extends_bind {A B} (c : M A) (k : A -> M B) :
  extends c -> (forall a, extends (k a)) -> extends (bind c k).
Proof.
  intros Hc Hk st. unfold bind.
  destruct (Hc st) as [evs Hevs].
  destruct (c st) as [[a|] st1]; simpl in Hevs.
  - destruct (Hk a st1) as [evs' Hevs']. exists (evs ++ evs').
    rewrite Hevs', Hevs. now rewrite app_assoc.
  - now exists evs.
Qed.

Lemma extends_try_except {A} (c h : M A) :
  extends c -> extends h -> extends (try_except c h).
Proof.
  intros Hc Hh st. unfold try_except.
  destruct (Hc st) as [evs Hevs].
  destruct (c st) as [[a|] st1]; simpl in Hevs.
  - now exists evs.
  - destruct (Hh st1) as [evs' Hevs']. exists (evs ++ evs').
    rewrite Hevs', Hevs. now rewrite app_assoc.
Qed.

Create HintDb extends.

#[local] Hint Resolve extends_ret extends_raise extends_lift extends_get_self
  extends_get_fs extends_modify_self extends_modify_fs extends_emit : extends.

Ltac extends_step :=
  first [ apply extends_bind; [|intros ?]
        | apply extends_try_except
        | solve [auto with extends]
        | match goal with
          | |- extends (match ?x with _ => _ end) => destruct x
          | |- extends (if ?x then _ else _) => destruct x
          end ].

Lemma extends_get_pdf_info : extends get_pdf_info.
Proof. unfold get_pdf_info. repeat extends_step. Qed.

Lemma extends_process_pdf_and_index E pdf_path :
  extends (process_pdf_and_index E pdf_path).
Proof. unfold process_pdf_and_index. repeat extends_step. Qed.

Lemma extends_force_process_pdf E : extends (force_process_pdf E).
Proof.
  unfold force_process_pdf.
  repeat first [ apply extends_get_pdf_info
               | apply extends_process_pdf_and_index
               | extends_step ].
Qed.

Lemma extends_load_sample_documents E : extends (load_sample_documents E).
Proof.
  unfold load_sample_documents.
  repeat first [ apply extends_get_pdf_info
               | apply extends_process_pdf_and_index
               | extends_step ].
Qed.

(** [load_faiss_index] when the saved index loads. *)
Lemma load_faiss_index_loads (E : externals) (st : machine) (v : vectorstore)
    (dim : nat) :
  index_at (fs st) (index_path_of (self st)) = Some (Readable v) ->
  embed_dim E = Ok dim ->
  load_faiss_index E st
  = (Ok tt,
     Mach (Rag (docstore_dicts v) (document_vectors (self st))
               (knowledge_base_path (self st)) (Present v) (Present dim))
          (fs st) (llm_calls st) (trace st ++ [Call_load_faiss_index])).
Proof.
  intros Hat Hdim.
  unfold load_faiss_index, bind, emit, get_self, get_fs. cbn [self fs].
  rewrite Hat. unfold try_except, bind, lift, load_local, modify_self.
  rewrite Hdim. reflexivity.
Qed.

(** [load_faiss_index] when there is no index or it cannot be loaded. *)
Lemma load_faiss_index_forgets (E : externals) (st : machine) :
  index_at (fs st) (index_path_of (self st)) = None
  \/ index_at (fs st) (index_path_of (self st)) = Some Unreadable
  \/ embed_dim E = Raise ->
  load_faiss_index E st
  = (Ok tt,
     Mach (Rag [] (document_vectors (self st)) (knowledge_base_path (self st))
               IsNone IsNone)
          (fs st) (llm_calls st) (trace st ++ [Call_load_faiss_index])).
Proof.
  intros H.
  unfold load_faiss_index, bind, emit, get_self, get_fs. cbn [self fs].
  destruct (index_at (fs st) (index_path_of (self st))) as [[v|]|] eqn:Hat.
  - destruct H as [H|[H|H]]; try discriminate.
    unfold try_except, bind, lift, load_local, modify_self, forget_index.
    rewrite H. reflexivity.
  - reflexivity.
  - reflexivity.
Qed.

Lemma init_loads (E : externals) (st : machine) (v : vectorstore) (dim : nat) :
  index_loads E st v dim ->
  __init__ E st
  = (Ok tt,
     Mach (Rag (docstore_dicts v) None initial_knowledge_base_path
               (Present v) (Present dim))
          (fs st) (llm_calls st) (trace st ++ [Call_load_faiss_index])).
Proof.
  intros [Hat Hdim]. unfold __init__.
  unfold bind at 1. cbn [modify_self].
  rewrite (bind_ok _ (load_faiss_index_loads E
             (Mach fresh_service (fs st) (llm_calls st) (trace st)) v dim Hat Hdim)).
  reflexivity.
Qed.

(** The legacy knowledge base is loaded without raising, and adds one
    event. *)
Lemma load_knowledge_base_run (E : externals) (st : machine) :
  exists s,
    load_knowledge_base E st
    = (Ok tt, Mach s (fs st) (llm_calls st) (trace st ++ [Call_load_knowledge_base])).
Proof.
  unfold load_knowledge_base, build_vectors, try_except, bind, emit, get_self,
    get_fs, modify_self, lift, ret.
  simpl.
  destruct (pickle_at (fs st) _) as [[kb|]|]; simpl; try (eexists; reflexivity).
  destruct (unpickled (kb_documents kb)); simpl; try (eexists; reflexivity).
  destruct (kb_document_vectors kb); simpl; try (eexists; reflexivity).
  repeat (simpl;
          match goal with
          | |- context [match str_item ?d ?k with _ => _ end] =>
              destruct (str_item d k)
          | |- context [match all_ok ?l with _ => _ end] => destruct (all_ok l)
          | |- context [match fit_transform ?E ?t with _ => _ end] =>
              destruct (fit_transform E t)
          end);
    simpl; eexists; reflexivity.
Qed.

Lemma events_of_trace {A} (c : M A) (st : machine) (evs : list event) :
  trace (snd (c st)) = trace st ++ evs -> events_of c st = evs.
Proof. intros H. unfold events_of. rewrite H. apply skipn_own_length. Qed.

Lemma extends_bind_from {A B} (c : M A) (k : A -> M B) (st : machine)
    (evs : list event) :
  trace (snd (c st)) = trace st ++ evs ->
  (forall a, extends (k a)) ->
  exists evs', trace (snd (bind c k st)) = trace st ++ evs ++ evs'.
Proof.
  intros Hc Hk. unfold bind.
  destruct (c st) as [[a|] st1]; simpl in Hc.
  - destruct (Hk a st1) as [evs' Hevs']. exists evs'.
    rewrite Hevs', Hc. now rewrite app_assoc.
  - exists []. simpl. now rewrite app_nil_r.
Qed.

Lemma load_sample_documents_trace (E : externals) (st : machine) :
  exists evs,
    trace (snd (load_sample_documents E st))
    = trace st ++ Call_load_sample_documents :: evs.
Proof.
  unfold load_sample_documents.
  apply (extends_bind_from (emit Call_load_sample_documents) _ st
                           [Call_load_sample_documents]); [reflexivity|].
  intros _.
  repeat first [ apply extends_get_pdf_info
               | apply extends_process_pdf_and_index
               | extends_step ].
Qed.

(** The constructor without a loadable index: the legacy knowledge base
    and then the PDFs are tried. *)
Lemma init_rebuilds (E : externals) (st : machine) :
  (~ exists v dim, index_loads E st v dim) ->
  exists evs,
    events_of (__init__ E) st
    = [Call_load_faiss_index; Call_load_knowledge_base; Call_load_sample_documents]
      ++ evs.
Proof.
  intros Hno.
  assert (Hfail : index_at (fs st) startup_index_path = None
                  \/ index_at (fs st) startup_index_path = Some Unreadable
                  \/ embed_dim E = Raise).
  { destruct (index_at (fs st) startup_index_path) as [[v|]|] eqn:Hat; auto.
    destruct (embed_dim E) as [dim|] eqn:Hdim; auto.
    exfalso. apply Hno. exists v, dim. now split. }
  assert (Htrace : exists evs,
             trace (snd (__init__ E st))
             = trace st ++ [Call_load_faiss_index; Call_load_knowledge_base;
                            Call_load_sample_documents] ++ evs).
  { unfold __init__. unfold bind at 1. cbn [modify_self].
    rewrite (bind_ok _ (load_faiss_index_forgets E
               (Mach fresh_service (fs st) (llm_calls st) (trace st)) Hfail)).
    unfold bind at 1. cbn [get_self self faiss_index available].
    match goal with |- context [bind (load_knowledge_base E) ?k ?s] =>
      destruct (load_knowledge_base_run E s) as [s2 Hkb];
      rewrite (bind_ok k Hkb)
    end.
    cbn [self fs llm_calls trace].
    match goal with |- context [bind (load_sample_documents E) ?k ?s] =>
      destruct (load_sample_documents_trace E s) as [evs Hevs];
      destruct (extends_bind_from (load_sample_documents E) k s _ Hevs)
        as [evs' Htr]
    end.
    { intros _. repeat first [ apply extends_force_process_pdf | extends_step ]. }
    exists (evs ++ evs'). rewrite Htr. cbn [trace].
    rewrite <- !app_assoc. reflexivity. }
  destruct Htrace as [evs Htrace]. exists evs.
  now apply events_of_trace.
Qed.

Lemma write_index_read (path : str) (v : vectorstore) (f : filesystem) :
  index_at (write_index path v f) path = Some (Readable v).
Proof. unfold write_index. cbn [index_at]. now rewrite str_eqb_refl. Qed.

(** What [load_faiss_index] makes of a docstore. *)
Lemma docstore_dicts_entries (v : vectorstore) :
  docstore_dicts v = docstore_entries v.
Proof.
  unfold docstore_dicts, docstore_entries, stored_documents.
  induction (docstore v) as [|[doc_id [d|]] l IH]; cbn [flat_map map app snd fst].
  - reflexivity.
  - now rewrite IH.
  - exact IH.
Qed.

(** C5.  [process_pdf_and_index] saves the vector store under
    [knowledge_base_path/faiss_index], which is where a later constructor
    looks; a constructor that finds a loadable index there takes its
    documents from the docstore, one entry per stored document with its
    text as content and its id in the title, and does nothing else, and
    the constructor turns to the PDFs only when the index is missing or
    fails to load, which it then does. *)
Theorem index_persisted_and_reloaded :
  forall (E : externals) (st : machine),
    (forall pdf_path pages v dim,
        pdf_pages (fs st) pdf_path = Ok pages ->
        from_texts E (split_text E (join [nl; nl] (kept_texts pages))) = Ok v ->
        save_local E v (index_path_of (self st)) = true ->
        embed_dim E = Ok dim ->
        exists st',
          process_pdf_and_index E pdf_path st = (Ok tt, st')
          /\ index_path_of (self st)
             = path_join (knowledge_base_path (self st)) (py "faiss_index")
          /\ In (Save_local (index_path_of (self st)))
                (events_of (process_pdf_and_index E pdf_path) st)
          /\ index_at (fs st') (index_path_of (self st)) = Some (Readable v)
          /\ (knowledge_base_path (self st) = initial_knowledge_base_path ->
              index_loads E st' v dim))
    /\
    (forall v dim,
        index_loads E st v dim ->
        exists st',
          __init__ E st = (Ok tt, st')
          /\ faiss_index (self st') = Present v
          /\ documents (self st') = docstore_entries v
          /\ events_of (__init__ E) st = [Call_load_faiss_index])
    /\
    (forall e,
        In e (events_of (__init__ E) st) -> rebuilding e ->
        ~ exists v dim, index_loads E st v dim)
    /\
    ((~ exists v dim, index_loads E st v dim) ->
     exists evs,
       events_of (__init__ E) st
       = [Call_load_faiss_index; Call_load_knowledge_base;
          Call_load_sample_documents] ++ evs).
Proof.
  intros E st.
  assert (Hloads : forall v dim,
             index_loads E st v dim ->
             exists st',
               __init__ E st = (Ok tt, st')
               /\ faiss_index (self st') = Present v
               /\ documents (self st') = docstore_entries v
               /\ events_of (__init__ E) st = [Call_load_faiss_index]).
  { intros v dim Hl. pose proof (init_loads E st v dim Hl) as Hrun.
    eexists. split; [exact Hrun|]. split; [reflexivity|].
    split; [apply docstore_dicts_entries|].
    exact (@events_of_run _ _ _ _ _ _ Hrun eq_refl). }
  split; [|split; [exact Hloads|split; [|apply init_rebuilds]]].
  - intros pdf_path pages v dim Hpages Hstore Hsave Hdim.
    pose proof (process_pdf_and_index_run E pdf_path st pages v dim
                  Hpages Hstore Hsave Hdim) as Hrun.
    eexists. split; [exact Hrun|]. split; [reflexivity|].
    split; [|split].
    + rewrite (@events_of_run _ _ _ _ _ _ Hrun eq_refl). simpl. tauto.
    + cbn [fs]. apply write_index_read.
    + intros Hkb. split; [|exact Hdim]. cbn [fs].
      unfold startup_index_path. rewrite <- Hkb. apply write_index_read.
  - intros e Hin Hre [v [dim Hl]].
    destruct (Hloads v dim Hl) as [st' [_ [_ [_ Hev]]]].
    rewrite Hev in Hin. destruct Hin as [<-|[]].
    destruct Hre as [H|[H|[p H]]]; discriminate.
Qed.

Lemma index_persisted_and_reloaded_witness :
  exists st',
    __init__ (Sample.externals_ok (Sample.constant_llm []))
             (Sample.machine_of fresh_service Sample.indexed_fs)
    = (Ok tt, st')
    /\ faiss_index (self st') = Present Sample.store
    /\ documents (self st')
       = [ document_entry (py "id-a") Sample.doc_a;
           document_entry (py "id-b") Sample.doc_b ]
    /\ events_of (__init__ (Sample.externals_ok (Sample.constant_llm [])))
                 (Sample.machine_of fresh_service Sample.indexed_fs)
       = [Call_load_faiss_index].
Proof.
  apply (proj1 (proj2 (index_persisted_and_reloaded
                         (Sample.externals_ok (Sample.constant_llm []))
                         (Sample.machine_of fresh_service Sample.indexed_fs)))
               Sample.store 384).
  split; reflexivity.
Defined.

(** ** Legacy search *)

Section Ranking.
Variable sims : list Q.

Let by_score (i j : nat) : Prop := (score sims i <= score sims j)%Q.

Lemma insert_by_In (i : nat) (l : list nat) (x : nat) :
  In x (insert_by sims i l) <-> x = i \/ In x l.
Proof.
  induction l as [|j l IH]; simpl.
  - split; [intros [H|[]]; auto | intros [H|[]]; auto].
  - destruct (Qle_bool (nth i sims 0%Q) (nth j sims 0%Q)); simpl.
    + split; [intros [H|H]; auto | intros [H|H]; auto].
    + rewrite IH. split; [intros [H|[H|H]]; auto | intros [H|[H|H]]; auto].
Qed.

Lemma insert_by_length (i : nat) (l : list nat) :
  length (insert_by sims i l) = S (length l).
Proof.
  induction l as [|j l IH]; simpl; [reflexivity|].
  destruct (Qle_bool _ _); simpl; [reflexivity | now rewrite IH].
Qed.

Lemma insert_by_sorted (i : nat) (l : list nat) :
  StronglySorted by_score l -> StronglySorted by_score (insert_by sims i l).
Proof.
  induction 1 as [|j l Hs IH Hall]; simpl.
  - constructor; [constructor | constructor].
  - destruct (Qle_bool (nth i sims 0%Q) (nth j sims 0%Q)) eqn:Hle.
    + apply Qle_bool_iff in Hle. constructor.
      * now constructor.
      * constructor; [exact Hle|].
        rewrite Forall_forall in *. intros x Hx.
        eapply Qle_trans; [exact Hle | now apply Hall].
    + assert (Hji : by_score j i).
      { unfold by_score, score. apply Qlt_le_weak. apply Qnot_le_lt.
        intros H. apply Qle_bool_iff in H. congruence. }
      constructor; [exact IH|].
      rewrite Forall_forall in *. intros x Hx.
      apply insert_by_In in Hx as [->|Hx]; [exact Hji | now apply Hall].
Qed.

Lemma argsort_sorted : StronglySorted by_score (argsort sims).
Proof.
  unfold argsort. induction (seq 0 (length sims)) as [|i l IH]; simpl.
  - constructor.
  - now apply insert_by_sorted.
Qed.

Lemma argsort_In (x : nat) : In x (argsort sims) <-> x < length sims.
Proof.
  unfold argsort.
  assert (H : forall l, In x (fold_right (insert_by sims) [] l) <-> In x l).
  { induction l as [|i l IH]; simpl; [tauto|].
    rewrite insert_by_In, IH. split; intros [H|H]; auto. }
  rewrite H, in_seq. lia.
Qed.

Lemma argsort_length : length (argsort sims) = length sims.
Proof.
  unfold argsort.
  assert (H : forall l, length (fold_right (insert_by sims) [] l) = length l).
  { induction l as [|i l IH]; simpl; [reflexivity|].
    now rewrite insert_by_length, IH. }
  rewrite H. apply length_seq.
Qed.

End Ranking.

Lemma StronglySorted_snoc {A} (R : A -> A -> Prop) (l : list A) (x : A) :
  StronglySorted R l -> Forall (fun y => R y x) l -> StronglySorted R (l ++ [x]).
Proof.
  induction 1 as [|y l Hs IH Hall]; intros Hx; simpl.
  - constructor; constructor.
  - inversion Hx as [|? ? Hyx Hrest]; subst. constructor.
    + now apply IH.
    + apply Forall_app. split; [exact Hall | now constructor].
Qed.

Lemma StronglySorted_rev_flip {A} (R : A -> A -> Prop) (l : list A) :
  StronglySorted R l -> StronglySorted (fun a b => R b a) (rev l).
Proof.
  induction 1 as [|x l Hs IH Hall]; simpl; [constructor|].
  apply StronglySorted_snoc; [exact IH|].
  apply Forall_rev. exact Hall.
Qed.

Lemma StronglySorted_firstn {A} (R : A -> A -> Prop) (n : nat) (l : list A) :
  StronglySorted R l -> StronglySorted R (firstn n l).
Proof.
  intros H. revert n. induction H as [|x l Hs IH Hall]; intros [|n]; simpl;
    try constructor.
  - apply IH.
  - rewrite Forall_forall in *. intros y Hy. apply Hall.
    rewrite <- (firstn_skipn n l). apply in_or_app. now left.
Qed.

Lemma slice_to_firstn {A} (k : Z) (l : list A) :
  (0 <= k)%Z -> slice_to k l = firstn (Z.to_nat k) l.
Proof.
  intros H. unfold slice_to. destruct (0 <=? k)%Z eqn:Hk; [reflexivity|].
  apply Z.leb_gt in Hk. lia.
Qed.

Lemma slice_to_incl {A} (k : Z) (l : list A) (x : A) :
  In x (slice_to k l) -> In x l.
Proof.
  unfold slice_to. destruct (0 <=? k)%Z; intros H;
    match type of H with In _ (firstn ?n _) =>
      rewrite <- (firstn_skipn n l); apply in_or_app; now left end.
Qed.

(** The indices the loop visits: valid, at most [top_k] of them, best
    score first. *)
Lemma top_indices_spec (sims : list Q) (top_k : Z) :
  (0 <= top_k)%Z ->
  (Z.of_nat (length (top_indices sims top_k)) <= top_k)%Z
  /\ (forall idx, In idx (top_indices sims top_k) -> idx < length sims)
  /\ descending (map (score sims) (top_indices sims top_k)).
Proof.
  intros Hk. unfold top_indices. split; [|split].
  - rewrite slice_to_firstn by assumption. rewrite length_firstn. lia.
  - intros idx H. apply slice_to_incl in H. apply in_rev in H.
    now apply argsort_In in H.
  - rewrite slice_to_firstn by assumption. unfold descending.
    rewrite <- firstn_map. apply StronglySorted_firstn.
    rewrite map_rev.
    apply (StronglySorted_rev_flip (fun a b => (a <= b)%Q)).
    pose proof (argsort_sorted sims) as H.
    induction H as [|i l Hs IH Hall]; simpl; constructor; [exact IH|].
    rewrite Forall_forall in *. intros q Hq.
    apply in_map_iff in Hq as [j [<- Hj]]. now apply Hall.
Qed.

Lemma collect_spec (docs : list dict) (sims : list Q) (idxs : list nat) :
  forall results max_sim,
    (forall idx, In idx idxs -> idx < length sims) ->
    exists hits : list hit,
      fst (collect docs sims idxs results max_sim)
      = results ++ map result_of_hit hits
      /\ length hits <= length idxs
      /\ (forall h, In h hits ->
            (threshold < snd h)%Q
            /\ exists idx,
                 In idx idxs /\ snd h = score sims idx
                 /\ nth_error sims idx = Some (snd h)
                 /\ nth_error docs idx = Some (fst h))
      /\ (descending (map (score sims) idxs) -> descending (map snd hits)).
Proof.
  induction idxs as [|idx rest IH]; intros results max_sim Hvalid.
  - exists []. simpl. rewrite app_nil_r.
    split; [reflexivity|]. split; [lia|]. split; [intros h []|].
    intros _. constructor.
  - assert (Hrest : forall i, In i rest -> i < length sims)
      by (intros i Hi; apply Hvalid; now right).
    assert (Hskip : forall results' max_sim',
               fst (collect docs sims (idx :: rest) results max_sim)
               = fst (collect docs sims rest results' max_sim') ->
               results' = results ->
               exists hits : list hit,
                 fst (collect docs sims (idx :: rest) results max_sim)
                 = results ++ map result_of_hit hits
                 /\ length hits <= length (idx :: rest)
                 /\ (forall h, In h hits ->
                       (threshold < snd h)%Q
                       /\ exists idx0,
                            In idx0 (idx :: rest) /\ snd h = score sims idx0
                            /\ nth_error sims idx0 = Some (snd h)
                            /\ nth_error docs idx0 = Some (fst h))
                 /\ (descending (map (score sims) (idx :: rest)) ->
                     descending (map snd hits))).
    { intros results' max_sim' Heq ->.
      destruct (IH results max_sim' Hrest) as [hits [Hf [Hlen [Hh Hd]]]].
      exists hits. rewrite Heq. split; [exact Hf|]. split; [simpl; lia|].
      split.
      - intros h Hin. destruct (Hh h Hin) as [Ht [i [Hi Hrem]]].
        split; [exact Ht|]. exists i. split; [now right | exact Hrem].
      - intros Hdesc. apply Hd. now inversion Hdesc. }
    destruct (Qlt_bool threshold (nth idx sims 0%Q)) eqn:Hpass;
      [|apply (Hskip results max_sim); [cbn [collect]; now rewrite Hpass | reflexivity]].
    destruct (nth_error docs idx) as [doc|] eqn:Hdoc;
      [|apply (Hskip results (pymax max_sim (nth idx sims 0%Q)));
        [cbn [collect]; now rewrite Hpass, Hdoc | reflexivity]].
    destruct (dict_has doc "title" && dict_has doc "content") eqn:Hkeys;
      [|apply (Hskip results (pymax max_sim (nth idx sims 0%Q)));
        [cbn [collect]; now rewrite Hpass, Hdoc, Hkeys | reflexivity]].
    destruct (IH (results ++ [search_result doc (nth idx sims 0%Q)])
                 (pymax max_sim (nth idx sims 0%Q)) Hrest)
      as [hits [Hf [Hlen [Hh Hd]]]].
    exists ((doc, nth idx sims 0%Q) :: hits).
    split; [cbn [collect]; rewrite Hpass, Hdoc, Hkeys, Hf, <- app_assoc;
            reflexivity|].
    split; [simpl; lia|]. split.
    + intros h [<-|Hin].
      * split; [now apply Qlt_bool_iff|]. exists idx.
        split; [now left|]. split; [reflexivity|]. split; [|exact Hdoc].
        cbn [snd]. apply nth_error_nth'. apply Hvalid. now left.
      * destruct (Hh h Hin) as [Ht [i [Hi Hrem]]].
        split; [exact Ht|]. exists i. split; [now right | exact Hrem].
    + intros Hdesc. inversion Hdesc as [|? ? Hsorted Hall]; subst.
      cbn [map snd]. constructor; [now apply Hd|].
      rewrite Forall_forall in *. intros q Hq.
      apply in_map_iff in Hq as [h [<- Hin]].
      destruct (Hh h Hin) as [_ [i [Hi [Hs _]]]].
      rewrite Hs. apply Hall. apply in_map_iff. now exists i.
Qed.

Lemma pymax_lt (a b c : Q) : (a < c)%Q -> (b < c)%Q -> (pymax a b < c)%Q.
Proof. intros Ha Hb. unfold pymax. now destruct (Qlt_bool a b). Qed.

Lemma collect_below_floor (docs : list dict) (sims : list Q) (idxs : list nat) :
  forall results max_sim,
    (max_sim < relevance_floor)%Q ->
    (forall idx, In idx idxs -> (score sims idx < relevance_floor)%Q) ->
    (snd (collect docs sims idxs results max_sim) < relevance_floor)%Q.
Proof.
  induction idxs as [|idx rest IH]; intros results max_sim Hm Hall; [exact Hm|].
  assert (Hrest : forall i, In i rest -> (score sims i < relevance_floor)%Q)
    by (intros i Hi; apply Hall; now right).
  assert (Hidx : (nth idx sims 0%Q < relevance_floor)%Q) by (apply Hall; now left).
  cbn [collect].
  destruct (Qlt_bool threshold (nth idx sims 0%Q)); [|now apply IH].
  destruct (nth_error docs idx) as [doc|];
    [|apply IH; [now apply pymax_lt | exact Hrest]].
  destruct (dict_has doc "title" && dict_has doc "content");
    (apply IH; [now apply pymax_lt | exact Hrest]).
Qed.

(** What [search_documents] returns when there are documents and
    vectors. *)
Lemma search_documents_ranks (E : externals) (query : str) (top_k : Z)
    (st : machine) (vectors : tfidf_matrix) :
  documents (self st) <> [] ->
  document_vectors (self st) = Some vectors ->
  search_documents E query top_k st
  = (Ok match similarities E vectors (preprocess_text query) with
        | Ok sims => rank_documents (documents (self st)) sims top_k
        | Raise => []
        end,
     Mach (self st) (fs st) (llm_calls st) (trace st ++ [Call_search_documents])).
Proof.
  intros Hdocs Hvec.
  unfold search_documents, bind, emit, get_self, try_except, lift, ret.
  cbn [self fs llm_calls trace]. rewrite Hvec.
  destruct (documents (self st)) as [|d ds]; [congruence|].
  now destruct (similarities E vectors (preprocess_text query)).
Qed.

(** C1.  With documents and vectors in place, and a count [top_k] that
    is not negative, the legacy search returns at most [top_k] results,
    each a document whose cosine similarity is above 0.2, listed from the
    highest similarity down; and it returns nothing when no similarity
    among the [top_k] best reaches 0.4. *)
Theorem tfidf_search_is_gated :
  forall (E : externals) (query : str) (top_k : Z) (st : machine)
         (vectors : tfidf_matrix),
    documents (self st) <> [] ->
    document_vectors (self st) = Some vectors ->
    (0 <= top_k)%Z ->
    exists results st',
      search_documents E query top_k st = (Ok results, st')
      /\ (Z.of_nat (length results) <= top_k)%Z
      /\ (exists hits : list hit,
             results = map result_of_hit hits
             /\ (forall h, In h hits ->
                   (2 # 10 < snd h)%Q
                   /\ similarity_in (result_of_hit h) = Some (VNum (snd h))
                   /\ exists sims idx,
                        similarities E vectors (preprocess_text query) = Ok sims
                        /\ nth_error sims idx = Some (snd h)
                        /\ nth_error (documents (self st)) idx = Some (fst h))
             /\ descending (map snd hits))
      /\ (forall sims,
             similarities E vectors (preprocess_text query) = Ok sims ->
             (forall idx, In idx (top_indices sims top_k) ->
                          (score sims idx < 4 # 10)%Q) ->
             results = []).
Proof.
  intros E query top_k st vectors Hdocs Hvec Hk.
  eexists. eexists. split; [apply (search_documents_ranks E query top_k st vectors Hdocs Hvec)|].
  destruct (similarities E vectors (preprocess_text query)) as [sims|] eqn:Hsims.
  2: { split; [simpl; lia|]. split.
       - exists []. split; [reflexivity|]. split; [intros h []|constructor].
       - reflexivity. }
  destruct (top_indices_spec sims top_k Hk) as [Hlen [Hvalid Hdesc]].
  destruct (collect_spec (documents (self st)) sims (top_indices sims top_k)
                         [] 0%Q Hvalid) as [hits [Hf [Hhl [Hh Hd]]]].
  unfold rank_documents.
  destruct (collect (documents (self st)) sims (top_indices sims top_k) [] 0%Q)
    as [results max_sim] eqn:Hc.
  cbn [fst app] in Hf. subst results.
  split; [|split].
  - destruct (Qlt_bool max_sim relevance_floor); [simpl; lia|].
    rewrite length_map. lia.
  - destruct (Qlt_bool max_sim relevance_floor).
    + exists []. split; [reflexivity|]. split; [intros h []|constructor].
    + exists hits. split; [reflexivity|]. split; [|now apply Hd].
      intros h Hin. destruct (Hh h Hin) as [Ht [idx [_ [_ [Hn Hdoc]]]]].
      split; [exact Ht|]. split; [reflexivity|]. now exists sims, idx.
  - intros sims' Heq Hlow. injection Heq as <-.
    assert (Hm : (max_sim < relevance_floor)%Q).
    { change max_sim with (snd (map result_of_hit hits, max_sim)). rewrite <- Hc.
      apply collect_below_floor; [reflexivity | exact Hlow]. }
    apply Qlt_bool_iff in Hm. now rewrite Hm.
Qed.

Lemma tfidf_search_is_gated_witness :
  exists results st',
    search_documents (Sample.externals_ok (Sample.constant_llm []))
      (py "How much is cloud migration?") 5
      (Sample.machine_of Sample.legacy_service Sample.empty_fs)
    = (Ok results, st')
    /\ (Z.of_nat (length results) <= 5)%Z.
Proof.
  destruct (tfidf_search_is_gated
              (Sample.externals_ok (Sample.constant_llm []))
              (py "How much is cloud migration?") 5
              (Sample.machine_of Sample.legacy_service Sample.empty_fs)
              (Fitted []))
    as [results [st' [Hrun [Hlen _]]]].
  - discriminate.
  - reflexivity.
  - lia.
  - exists results, st'. split; [exact Hrun | exact Hlen].
Defined.

(** ** What the legacy search runs over *)

Lemma chunk_dicts_entries (text_chunks : list str) :
  forall i,
    chunk_dicts i text_chunks
    = map (fun p => chunk_entry (fst p) (snd p)) (enumerate_from i text_chunks).
Proof.
  induction text_chunks as [|chunk rest IH]; intros i; [reflexivity|].
  cbn [chunk_dicts enumerate_from map fst snd]. now rewrite IH.
Qed.

Lemma search_documents_without_vectors (E : externals) (query : str) (top_k : Z)
    (st : machine) :
  documents (self st) = [] \/ document_vectors (self st) = None ->
  search_documents E query top_k st
  = (Ok [], Mach (self st) (fs st) (llm_calls st) (trace st ++ [Call_search_documents])).
Proof.
  unfold search_documents, bind, emit, get_self, ret. cbn [self fs llm_calls trace].
  intros [H|H]; rewrite H; [reflexivity|].
  now destruct (documents (self st)).
Qed.




(** ** The matcher and the relation it decides *)

Section MatcherFacts.
Variable F : flags.

Lemma advance_app (prev : option ascii) (u v : str) :
  advance prev (u ++ v) = advance (advance prev u) v.
Proof. revert prev. induction u as [|c u IH]; intros prev; simpl; auto. Qed.

Lemma orelse_l {A} (a b : option A) : a <> None -> orelse a b <> None.
Proof. now destruct a. Qed.

Lemma orelse_r {A} (a b : option A) : b <> None -> orelse a b <> None.
Proof. now destruct a. Qed.

Lemma orelse_some {A} (a b : option A) (x : A) :
  orelse a b = Some x -> a = Some x \/ b = Some x.
Proof. destruct a; simpl; auto. Qed.

Section Continuation.
Variable A : Type.

Lemma star_greedy_complete (c : cclass) (u t : str) :
  forall prev (k : option ascii -> str -> option A),
    Forall (fun x => class_match F c x = true) u ->
    k (advance prev u) t <> None ->
    star_greedy F c prev (u ++ t) k <> None.
Proof.
  induction u as [|x u IH]; intros prev k Hu Hk.
  - simpl in *. destruct t as [|y t]; simpl; [exact Hk|].
    destruct (class_match F c y); [now apply orelse_r | exact Hk].
  - inversion Hu as [|? ? Hx Hrest]; subst. simpl. rewrite Hx.
    apply orelse_l. now apply IH.
Qed.

Lemma star_lazy_complete (c : cclass) (u t : str) :
  forall prev (k : option ascii -> str -> option A),
    Forall (fun x => class_match F c x = true) u ->
    k (advance prev u) t <> None ->
    star_lazy F c prev (u ++ t) k <> None.
Proof.
  induction u as [|x u IH]; intros prev k Hu Hk.
  - simpl in *. destruct t as [|y t]; simpl; now destruct (k prev _).
  - inversion Hu as [|? ? Hx Hrest]; subst. simpl.
    destruct (k prev (x :: u ++ t)); [discriminate|].
    rewrite Hx. now apply IH.
Qed.

Lemma star_greedy_sound (c : cclass) (s : str) :
  forall prev (k : option ascii -> str -> option A) res,
    star_greedy F c prev s k = Some res ->
    exists u t,
      s = u ++ t
      /\ Forall (fun x => class_match F c x = true) u
      /\ k (advance prev u) t = Some res.
Proof.
  induction s as [|x s IH]; intros prev k res H.
  - exists [], []. simpl in *. auto.
  - simpl in H. destruct (class_match F c x) eqn:Hx.
    + apply orelse_some in H as [H|H].
      * destruct (IH _ _ _ H) as [u [t [-> [Hu Hk]]]].
        exists (x :: u), t. simpl. auto.
      * exists [], (x :: s). simpl. auto.
    + exists [], (x :: s). simpl. auto.
Qed.

Lemma star_lazy_sound (c : cclass) (s : str) :
  forall prev (k : option ascii -> str -> option A) res,
    star_lazy F c prev s k = Some res ->
    exists u t,
      s = u ++ t
      /\ Forall (fun x => class_match F c x = true) u
      /\ k (advance prev u) t = Some res.
Proof.
  induction s as [|x s IH]; intros prev k res H.
  - simpl in H. destruct (k prev []) eqn:Hk; [|discriminate].
    injection H as <-. exists [], []. simpl. auto.
  - simpl in H. destruct (k prev (x :: s)) eqn:Hk.
    + injection H as <-. exists [], (x :: s). simpl. auto.
    + destruct (class_match F c x) eqn:Hx; [|discriminate].
      destruct (IH _ _ _ H) as [u [t [-> [Hu Hk']]]].
      exists (x :: u), t. simpl. auto.
Qed.

(** Whatever the matcher finds is a match of the relation. *)
Lemma m_sound (r : re) :
  forall prev s (k : option ascii -> str -> option A) res,
    m F r prev s k = Some res ->
    exists u t,
      s = u ++ t /\ matches F r prev u t /\ k (advance prev u) t = Some res.
Proof.
  induction r as [| c | | | a IHa b IHb | a IHa b IHb | a IHa | c | c | c];
    intros prev s k res H; simpl in H.
  - exists [], s. simpl. auto.
  - destruct s as [|x s]; [discriminate|].
    destruct (class_match F c x) eqn:Hx; [|discriminate].
    exists [x], s. simpl. split; [reflexivity|]. split; [now exists x | exact H].
  - destruct (at_bol F prev) eqn:Hb; [|discriminate].
    exists [], s. simpl. auto.
  - destruct (at_eol F s) eqn:He; [|discriminate].
    exists [], s. simpl. auto.
  - destruct (IHa _ _ _ _ H) as [u1 [t1 [-> [Ha H1]]]].
    destruct (IHb _ _ _ _ H1) as [u2 [t [-> [Hb H2]]]].
    exists (u1 ++ u2), t. rewrite app_assoc. split; [reflexivity|].
    split; [now exists u1, u2 | now rewrite advance_app].
  - apply orelse_some in H as [H|H].
    + destruct (IHa _ _ _ _ H) as [u [t [-> [Ha Hk]]]]. exists u, t. simpl. auto.
    + destruct (IHb _ _ _ _ H) as [u [t [-> [Hb Hk]]]]. exists u, t. simpl. auto.
  - apply orelse_some in H as [H|H].
    + destruct (IHa _ _ _ _ H) as [u [t [-> [Ha Hk]]]]. exists u, t. simpl. auto.
    + exists [], s. simpl. auto.
  - apply star_greedy_sound in H as [u [t [-> [Hu Hk]]]]. now exists u, t.
  - apply star_lazy_sound in H as [u [t [-> [Hu Hk]]]]. now exists u, t.
  - destruct s as [|x s]; [discriminate|].
    destruct (class_match F c x) eqn:Hx; [|discriminate].
    apply star_greedy_sound in H as [u [t [-> [Hu Hk]]]].
    exists (x :: u), t. simpl. split; [reflexivity|]. split; [|exact Hk].
    split; [discriminate | now constructor].
Qed.

(** Whatever the relation allows, the matcher finds some match. *)
Lemma m_complete (r : re) :
  forall prev u t (k : option ascii -> str -> option A),
    matches F r prev u t ->
    k (advance prev u) t <> None ->
    m F r prev (u ++ t) k <> None.
Proof.
  induction r as [| c | | | a IHa b IHb | a IHa b IHb | a IHa | c | c | c];
    intros prev u t k Hm Hk; simpl in Hm |- *.
  - now subst.
  - destruct Hm as [x [-> Hx]]. simpl. now rewrite Hx.
  - destruct Hm as [-> Hb]. simpl. now rewrite Hb.
  - destruct Hm as [-> He]. simpl. now rewrite He.
  - destruct Hm as [u1 [u2 [-> [Ha Hb]]]]. rewrite <- app_assoc.
    apply IHa; [exact Ha|]. apply IHb; [exact Hb|]. now rewrite <- advance_app.
  - destruct Hm as [Ha|Hb]; [apply orelse_l | apply orelse_r]; auto.
  - destruct Hm as [Ha| ->]; [apply orelse_l | apply orelse_r]; auto.
  - now apply star_greedy_complete.
  - now apply star_lazy_complete.
  - destruct Hm as [Hne Hu]. destruct u as [|x u]; [congruence|].
    inversion Hu as [|? ? Hx Hrest]; subst. simpl. rewrite Hx.
    now apply star_greedy_complete.
Qed.

End Continuation.

Lemma match_at_sound (r : re) (prev : option ascii) (s : str) p t :
  match_at F r prev s = Some (p, t) ->
  exists u, s = u ++ t /\ matches F r prev u t /\ p = advance prev u.
Proof.
  intros H. apply m_sound in H as [u [t' [-> [Hm Hk]]]].
  injection Hk as <- <-. now exists u.
Qed.

Lemma match_at_complete (r : re) (prev : option ascii) (u t : str) :
  matches F r prev u t -> match_at F r prev (u ++ t) <> None.
Proof. intros H. apply m_complete; [exact H | discriminate]. Qed.

Lemma search_from_complete (r : re) (a b : str) :
  forall prev,
    match_at F r (advance prev a) b <> None ->
    search_from F r prev (a ++ b) = true.
Proof.
  induction a as [|x a IH]; intros prev H; simpl in *.
  - destruct b; simpl; now destruct (match_at F r prev _).
  - destruct (match_at F r prev (x :: a ++ b)); [reflexivity|]. now apply IH.
Qed.

Lemma search_from_sound (r : re) (s : str) :
  forall prev,
    search_from F r prev s = true ->
    exists a b, s = a ++ b /\ match_at F r (advance prev a) b <> None.
Proof.
  induction s as [|x s IH]; intros prev H; simpl in H.
  - destruct (match_at F r prev []) eqn:Hm; [|discriminate].
    exists [], []. simpl. split; [reflexivity | congruence].
  - destruct (match_at F r prev (x :: s)) eqn:Hm.
    + exists [], (x :: s). simpl. split; [reflexivity | congruence].
    + destruct (IH _ H) as [a [b [-> Hb]]]. exists (x :: a), b. simpl. auto.
Qed.

Lemma matches_Lit (w : str) :
  forall prev u t, spells F w u -> matches F (Lit w) prev u t.
Proof.
  induction w as [|c w IH]; intros prev u t H.
  - inversion H. reflexivity.
  - inversion H as [|? x ? u' Hx Hrest]; subst.
    destruct w as [|c' w].
    + inversion Hrest; subst. simpl. now exists x.
    + change (Lit (c :: c' :: w)) with (Cat (Chr (CAtom (AChar c))) (Lit (c' :: w))).
      simpl. exists [x], u'. split; [reflexivity|]. split; [now exists x|].
      now apply IH.
Qed.

Lemma Lit_matches (w : str) :
  forall prev u t, matches F (Lit w) prev u t -> spells F w u.
Proof.
  induction w as [|c w IH]; intros prev u t H.
  - simpl in H. subst. constructor.
  - destruct w as [|c' w].
    + simpl in H. destruct H as [x [-> Hx]]. repeat constructor. exact Hx.
    + change (Lit (c :: c' :: w)) with (Cat (Chr (CAtom (AChar c))) (Lit (c' :: w))) in H.
      simpl in H. destruct H as [u1 [u2 [-> [[x [-> Hx]] H2]]]].
      simpl. constructor; [exact Hx|]. now apply (IH _ _ _ H2).
Qed.

End MatcherFacts.

Lemma matches_Cat (F : flags) (a b : re) (prev : option ascii) (u1 u2 t : str) :
  matches F a prev u1 (u2 ++ t) ->
  matches F b (advance prev u1) u2 t ->
  matches F (Cat a b) prev (u1 ++ u2) t.
Proof. intros Ha Hb. simpl. now exists u1, u2. Qed.

Lemma matches_dots (F : flags) (prev : option ascii) (u t : str) :
  dotall F = true -> matches F dots prev u t.
Proof.
  intros Hd. unfold dots. simpl. apply Forall_forall. intros x _.
  simpl. now rewrite Hd.
Qed.

(** ** Occurrences *)

Lemma startswith_app (p b : str) : startswith p (p ++ b) = true.
Proof.
  induction p as [|x p IH]; simpl; [reflexivity|].
  unfold char_eqb. now rewrite Ascii.eqb_refl.
Qed.

Lemma startswith_inv (p s : str) :
  startswith p s = true -> exists b, s = p ++ b.
Proof.
  revert s. induction p as [|x p IH]; intros s H; simpl in H.
  - now exists s.
  - destruct s as [|y s]; [discriminate|].
    apply andb_true_iff in H as [Hx Hs]. apply char_eqb_eq in Hx. subst y.
    destruct (IH s Hs) as [b ->]. now exists b.
Qed.

Lemma startswith_length (p s : str) :
  startswith p s = true -> length p <= length s.
Proof.
  intros H. apply startswith_inv in H as [b ->]. rewrite length_app. lia.
Qed.

Lemma startswith_app_long (p u t : str) :
  length p <= length u -> startswith p (u ++ t) = startswith p u.
Proof.
  revert u. induction p as [|x p IH]; intros u H; simpl; [reflexivity|].
  destruct u as [|y u]; simpl in *; [lia|].
  rewrite IH by lia. reflexivity.
Qed.

Lemma startswith_straddle (p u t : str) :
  startswith p (u ++ t) = true -> length u <= length p ->
  startswith (skipn (length u) p) t = true.
Proof.
  revert p. induction u as [|y u IH]; intros p H Hlen; simpl in *; [exact H|].
  destruct p as [|x p]; simpl in *; [lia|].
  apply andb_true_iff in H as [_ H]. apply IH; [exact H | lia].
Qed.

Lemma count_occ_occurs (p s : str) : count_occ p s <> 0 -> occurs p s.
Proof.
  induction s as [|x s IH]; simpl; intros H.
  - destruct (startswith p []) eqn:Hs; [|congruence].
    apply startswith_inv in Hs as [b Hb]. exists [], b. exact Hb.
  - destruct (startswith p (x :: s)) eqn:Hs.
    + apply startswith_inv in Hs as [b Hb]. exists [], b. exact Hb.
    + destruct (IH H) as [a [b ->]]. now exists (x :: a), b.
Qed.

(** Occurrences in a text followed by [t], when no occurrence can begin
    in the text and end in [t]. *)
Lemma count_occ_app (p c t : str) :
  p <> [] ->
  (forall k, 0 < k < length p -> startswith (skipn k p) t = false) ->
  count_occ p (c ++ t) = count_occ p c + count_occ p t.
Proof.
  intros Hp Hno. induction c as [|x c IH].
  - simpl. destruct p; [congruence | reflexivity].
  - cbn [app count_occ]. rewrite IH.
    assert (Heq : startswith p (x :: c ++ t) = startswith p (x :: c)).
    { destruct (Nat.le_gt_cases (length p) (length (x :: c))) as [Hle|Hgt].
      - apply (startswith_app_long p (x :: c) t Hle).
      - destruct (startswith p (x :: c)) eqn:Hs1.
        + apply startswith_length in Hs1. lia.
        + destruct (startswith p (x :: c ++ t)) eqn:Hs2; [|reflexivity].
          apply (startswith_straddle p (x :: c) t) in Hs2; [|lia].
          rewrite Hno in Hs2; [discriminate|]. simpl. simpl in Hgt. lia. }
    rewrite Heq. lia.
Qed.

Lemma endswith_app (p c : str) : endswith p (c ++ p) = true.
Proof. unfold endswith. rewrite rev_app_distr. apply startswith_app. Qed.

(** ** [_clean_response] *)

Lemma spells_signature_words :
  spells IS (py "best regards") (py "Best regards")
  /\ spells IS (py "techcorp") (py "TechCorp")
  /\ spells IS (py "service") (py "Service").
Proof. repeat split; repeat constructor. Qed.

(** The guard of the last step recognises the signature wherever it
    stands. *)
Lemma has_signature_of_occurrence (c : str) :
  occurs signature c -> has_signature c = true.
Proof.
  intros [a [b ->]]. unfold has_signature, re_search.
  apply search_from_complete. apply match_at_complete.
  destruct spells_signature_words as [H1 [H2 H3]].
  change signature
    with (py "Best regards" ++ ([","%char; nl] ++ (py "TechCorp"
          ++ (py " Solutions Customer " ++ py "Service")))).
  change has_signature_pattern
    with (Cat (Lit (py "best regards"))
              (Cat dots (Cat (Lit (py "techcorp"))
                             (Cat dots (Lit (py "service")))))).
  apply matches_Cat; [now apply matches_Lit|].
  apply matches_Cat; [now apply matches_dots|].
  apply matches_Cat; [now apply matches_Lit|].
  apply matches_Cat; [now apply matches_dots|].
  now apply matches_Lit.
Qed.

Lemma signature_not_straddling :
  forall k, 0 < k < length signature ->
            startswith (skipn k signature) ([nl; nl] ++ signature) = false.
Proof.
  assert (H : forallb (fun k => negb (startswith (skipn k signature)
                                                 ([nl; nl] ++ signature)))
                      (seq 1 (length signature - 1)) = true)
    by (vm_compute; reflexivity).
  intros k Hk. rewrite forallb_forall in H.
  apply negb_true_iff. apply H. apply in_seq. lia.
Qed.

(** Appending the signature to a text the guard rejected gives a text
    with the signature once, at the end. *)
Lemma signed_once (c : str) :
  has_signature c = false ->
  endswith signature (c ++ [nl; nl] ++ signature) = true
  /\ count_occ signature (c ++ [nl; nl] ++ signature) = 1.
Proof.
  intros Hno. split.
  - rewrite app_assoc. apply endswith_app.
  - rewrite count_occ_app.
    + assert (Hc : count_occ signature c = 0).
      { destruct (count_occ signature c) eqn:Hcount; [reflexivity|].
        assert (Hocc : occurs signature c)
          by (apply count_occ_occurs; rewrite Hcount; discriminate).
        apply has_signature_of_occurrence in Hocc. congruence. }
      rewrite Hc. vm_compute. reflexivity.
    + discriminate.
    + apply signature_not_straddling.
Qed.

Lemma fallback_signed_once :
  endswith signature (_fallback_response [] []) = true
  /\ count_occ signature (_fallback_response [] []) = 1.
Proof. split; vm_compute; reflexivity. Qed.

(** ** [re.sub] *)

Lemma sub_loop_Subst (F : flags) (r : re) (repl : str) (fuel : nat) :
  forall prev s,
    length s < fuel ->
    Subst F r repl prev s (sub_loop fuel F r repl prev s).
Proof.
  induction fuel as [|fuel IH]; intros prev s Hlen; [lia|].
  cbn [sub_loop].
  destruct (match_at F r prev s) as [[p t]|] eqn:Hm.
  - destruct (length t <? length s) eqn:Hlt.
    + apply Nat.ltb_lt in Hlt.
      apply Subst_match with (p := p) (t := t); [exact Hm | exact Hlt|].
      apply IH. lia.
    + apply Nat.ltb_ge in Hlt. destruct s as [|x s]; [constructor|].
      apply Subst_skip.
      * intros p' t' Hm'. rewrite Hm in Hm'. injection Hm' as <- <-. exact Hlt.
      * apply IH. simpl in Hlen. lia.
  - destruct s as [|x s]; [constructor|].
    apply Subst_skip.
    + intros p' t' Hm'. congruence.
    + apply IH. simpl in Hlen. lia.
Qed.

Lemma re_sub_Subst (F : flags) (r : re) (repl s : str) :
  Subst F r repl None s (re_sub F r repl s).
Proof. unfold re_sub. apply sub_loop_Subst. apply Nat.lt_succ_diag_r. Qed.

(** A deletion is always a contiguous rewrite when it keeps a suffix or a
    prefix; both are infixes. *)
Lemma infix_refl (s : str) : infix s s.
Proof. exists [], []. now rewrite app_nil_r. Qed.

Lemma infix_trans (a b c : str) : infix a b -> infix b c -> infix a c.
Proof.
  intros [u [v ->]] [u' [v' ->]]. exists (u' ++ u), (v ++ v').
  now rewrite <- !app_assoc.
Qed.

Lemma infix_suffix (a s : str) : infix s (a ++ s).
Proof. exists a, []. now rewrite app_nil_r. Qed.

Lemma infix_prefix (s b : str) : infix s (s ++ b).
Proof. now exists [], b. Qed.

Lemma lstrip_suffix (s : str) : exists a, s = a ++ lstrip s.
Proof.
  induction s as [|c s [a IH]]; simpl.
  - now exists [].
  - destruct (is_space c).
    + exists (c :: a). simpl. now f_equal.
    + now exists [].
Qed.

Lemma strip_infix (s : str) : infix (strip s) s.
Proof.
  unfold strip, rstrip.
  destruct (lstrip_suffix s) as [a Ha].
  destruct (lstrip_suffix (rev (lstrip s))) as [b Hb].
  exists a, (rev b).
  assert (HL : lstrip s = rev (lstrip (rev (lstrip s))) ++ rev b).
  { rewrite <- rev_app_distr, <- Hb. now rewrite rev_involutive. }
  rewrite <- HL. exact Ha.
Qed.

(** ** Literal tokens under substitution *)

Section Literals.
Variable F : flags.

Lemma spells_length (w u : str) : spells F w u -> length u = length w.
Proof. intros H. symmetry. exact (Forall2_length H). Qed.

Lemma begins_cons (c : ascii) (v b : str) :
  begins F (c :: v) b
  <-> exists x b', b = x :: b' /\ atom_match F (AChar c) x = true /\ begins F v b'.
Proof.
  split.
  - intros [u [t [-> H]]]. inversion H as [|? x ? u' Hx Hrest]; subst.
    exists x, (u' ++ t). split; [reflexivity|]. split; [exact Hx|]. now exists u', t.
  - intros [x [b' [-> [Hx [u [t [-> H]]]]]]].
    exists (x :: u), t. split; [reflexivity | now constructor].
Qed.

Lemma begins_nil_text (w : str) : w <> [] -> ~ begins F w [].
Proof.
  intros Hw [u [t [Hb H]]]. symmetry in Hb. apply app_eq_nil in Hb as [-> _].
  inversion H. congruence.
Qed.

Lemma begins_app (w b v : str) : begins F w b -> begins F w (b ++ v).
Proof.
  intros [u [t [-> H]]]. exists u, (t ++ v). now rewrite app_assoc.
Qed.

Lemma found_infix (w a s : str) : found F w a -> infix a s -> found F w s.
Proof.
  intros [a1 [b [-> Hb]]] [u [v ->]].
  exists (u ++ a1), (b ++ v). split; [now rewrite <- !app_assoc|].
  now apply begins_app.
Qed.

Lemma match_at_Lit (w : str) (prev : option ascii) (s : str) :
  match_at F (Lit w) prev s <> None <-> begins F w s.
Proof.
  split.
  - intros H. destruct (match_at F (Lit w) prev s) as [[p t]|] eqn:Hm; [|congruence].
    apply match_at_sound in Hm as [u [-> [Hu _]]].
    exists u, t. split; [reflexivity|]. exact (Lit_matches F w _ _ _ Hu).
  - intros [u [t [-> H]]]. apply match_at_complete. now apply matches_Lit.
Qed.

Lemma match_at_Lit_consumes (w : str) (prev : option ascii) (s : str) p t :
  w <> [] -> match_at F (Lit w) prev s = Some (p, t) -> length t < length s.
Proof.
  intros Hw Hm. apply match_at_sound in Hm as [u [-> [Hu _]]].
  apply Lit_matches, spells_length in Hu. rewrite length_app.
  destruct w; [congruence|]. simpl in Hu. lia.
Qed.

Lemma search_from_Lit (w s : str) (prev : option ascii) :
  search_from F (Lit w) prev s = true <-> found F w s.
Proof.
  split.
  - intros H. apply search_from_sound in H as [a [b [-> Hb]]].
    exists a, b. split; [reflexivity|]. now apply match_at_Lit in Hb.
  - intros [a [b [-> Hb]]]. apply search_from_complete.
    now apply match_at_Lit.
Qed.

Lemma re_search_Lit (w s : str) : re_search F (Lit w) s = true <-> found F w s.
Proof. apply search_from_Lit. Qed.

Variable R : str.

Local Abbreviation closing := (Spec.closing F R).
Local Abbreviation token := (Spec.token F R).

Lemma foreign_spec (c x : ascii) :
  foreign F R c = true -> In x R -> atom_match F (AChar c) x = false.
Proof.
  unfold foreign. rewrite forallb_forall. intros H Hx.
  apply negb_true_iff. now apply H.
Qed.

Lemma closing_tail (c : ascii) (v : str) : v <> [] -> closing (c :: v) -> closing v.
Proof.
  intros Hv [[v0 [z [Hz Hf]]] Hlen]. split; [|simpl in Hlen; lia].
  destruct v0 as [|c0 v0]; simpl in Hz.
  - injection Hz as _ Hz. congruence.
  - injection Hz as _ Hz. now exists v0, z.
Qed.

(** A spelling of a closing literal cannot lie inside a run of [R]. *)
Lemma closing_not_in_R (v u l : str) :
  closing v -> spells F v u -> R <> u ++ l.
Proof.
  intros [[v0 [z [-> Hf]]] _] Hs.
  apply Forall2_app_inv_l in Hs as [u0 [u1 [_ [H1 ->]]]].
  inversion H1 as [|? x ? ? Hx Hnil]; subst. inversion Hnil; subst.
  intros HR.
  rewrite (foreign_spec z x Hf) in Hx; [discriminate|].
  rewrite HR. apply in_or_app. left. apply in_or_app. right. now left.
Qed.

Lemma begins_R_run (v o : str) :
  v <> [] -> closing v -> ~ begins F v (R ++ o).
Proof.
  intros Hv Hc [u [t [Heq Hs]]].
  pose proof (spells_length _ _ Hs) as Hlen.
  destruct Hc as [Hz HvR].
  apply app_eq_app in Heq as [l [[HR _]|[Hu _]]].
  - exact (closing_not_in_R v u l (conj Hz HvR) Hs HR).
  - assert (Hl : l = []).
    { apply (f_equal (@length ascii)) in Hu. rewrite length_app in Hu.
      destruct l; [reflexivity|]. simpl in Hu. lia. }
    subst l. rewrite app_nil_r in Hu. subst u.
    apply (closing_not_in_R v R [] (conj Hz HvR) Hs). now rewrite app_nil_r.
Qed.

(** What a closing literal spells at the head of the output, it spelled
    at the head of the input. *)
Lemma begins_transfer (r : re) prev s o :
  Subst F r R prev s o ->
  forall v, v <> [] -> closing v -> begins F v o -> begins F v s.
Proof.
  induction 1 as [prev | prev s p t o Hm Hlt Hsub IH | prev x s o Hno Hsub IH];
    intros v Hv Hc Hb.
  - now apply begins_nil_text in Hb.
  - now apply begins_R_run in Hb.
  - destruct v as [|c v]; [congruence|].
    apply begins_cons in Hb as [x' [b' [Heq [Hx Hb']]]]. injection Heq as <- <-.
    apply begins_cons. exists x, s. split; [reflexivity|]. split; [exact Hx|].
    destruct v as [|c' v]; [exists [], s; split; [reflexivity | constructor]|].
    apply IH; [discriminate | now apply (closing_tail c) | exact Hb'].
Qed.

Lemma bracketed_token (tok : str) : bracketed F R tok = true -> token tok.
Proof.
  unfold bracketed. destruct tok as [|c v]; [discriminate|].
  intros H. apply andb_true_iff in H as [H Hlen].
  apply andb_true_iff in H as [Hc Hz].
  apply Nat.leb_le in Hlen.
  destruct (rev v) as [|z w] eqn:Hrev; [discriminate|].
  exists c, v. split; [reflexivity|]. split; [exact Hc|].
  assert (Hv : v = rev w ++ [z]).
  { rewrite <- (rev_involutive v), Hrev. reflexivity. }
  split; [rewrite Hv; now destruct (rev w)|].
  split; [now exists (rev w), z | exact Hlen].
Qed.

Lemma token_not_in_R (tok : str) (x : ascii) (b : str) :
  token tok -> In x R -> ~ begins F tok (x :: b).
Proof.
  intros [c [v [-> [Hc _]]]] Hx Hb.
  apply begins_cons in Hb as [x' [b' [Heq [Hm _]]]]. injection Heq as <- <-.
  now rewrite (foreign_spec c x Hc Hx) in Hm.
Qed.

(** Substituting [R] creates no token. *)
Lemma found_transfer (r : re) (tok : str) prev s o :
  token tok ->
  Subst F r R prev s o ->
  found F tok o -> found F tok s.
Proof.
  intros Htok Hsub. pose proof Htok as [c [v [Heq [Hc [Hv Hcl]]]]].
  induction Hsub as [prev | prev s p t o Hm Hlt Hsub IH | prev x s o Hno Hsub IH];
    intros [a [b [Hab Hb]]].
  - symmetry in Hab. apply app_eq_nil in Hab as [_ ->].
    exfalso. subst tok. now apply (begins_nil_text (c :: v)) in Hb.
  - apply match_at_sound in Hm as [u [-> _]].
    assert (Ho : found F tok o).
    { apply app_eq_app in Hab as [l [[HR Hbl]|[Ha Ho]]].
      - destruct l as [|x l]; [exists [], o; simpl in Hbl; now subst b|].
        exfalso. apply (token_not_in_R tok x (l ++ o) Htok).
        + rewrite HR. apply in_or_app. right. now left.
        + now rewrite Hbl in Hb.
      - now exists l, b. }
    apply (found_infix tok t (u ++ t) (IH Ho)). apply infix_suffix.
  - destruct a as [|x' a]; simpl in Hab.
    + subst b tok. apply begins_cons in Hb as [x' [b' [Heq' [Hx Hb']]]].
      injection Heq' as <- <-.
      exists [], (x :: s). split; [reflexivity|]. apply begins_cons.
      exists x, s. split; [reflexivity|]. split; [exact Hx|].
      exact (begins_transfer r _ _ _ Hsub v Hv Hcl Hb').
    + injection Hab as <- ->.
      destruct (IH (ex_intro _ a (ex_intro _ b (conj eq_refl Hb)))) as [a' [b' [-> Hb']]].
      now exists (x :: a'), b'.
Qed.

(** Substituting [R] for a token leaves no such token. *)
Lemma found_cleared (tok : str) prev s o :
  token tok ->
  Subst F (Lit tok) R prev s o ->
  ~ found F tok o.
Proof.
  intros Htok Hsub. pose proof Htok as [c [v [Heq [Hc [Hv Hcl]]]]].
  induction Hsub as [prev | prev s p t o Hm Hlt Hsub IH | prev x s o Hno Hsub IH];
    intros [a [b [Hab Hb]]].
  - symmetry in Hab. apply app_eq_nil in Hab as [_ ->].
    subst tok. now apply (begins_nil_text (c :: v)) in Hb.
  - apply IH.
    apply app_eq_app in Hab as [l [[HR Hbl]|[Ha Ho]]].
    + destruct l as [|x l]; [exists [], o; simpl in Hbl; now subst b|].
      exfalso. apply (token_not_in_R tok x (l ++ o) Htok).
      * rewrite HR. apply in_or_app. right. now left.
      * now rewrite Hbl in Hb.
    + now exists l, b.
  - destruct a as [|x' a]; simpl in Hab.
    + subst b. assert (Hs : begins F tok (x :: s)).
      { rewrite Heq in Hb |- *.
        apply begins_cons in Hb as [x' [b' [Heq' [Hx Hb']]]].
        injection Heq' as <- <-. apply begins_cons.
        exists x, s. split; [reflexivity|]. split; [exact Hx|].
        exact (begins_transfer (Lit tok) _ _ _ Hsub v Hv Hcl Hb'). }
      apply (match_at_Lit tok prev) in Hs.
      destruct (match_at F (Lit tok) prev (x :: s)) as [[p t]|] eqn:Hm; [|congruence].
      pose proof (Hno p t eq_refl) as Hge.
      apply match_at_Lit_consumes in Hm; [lia | subst tok; discriminate].
    + injection Hab as <- ->. apply IH. now exists a, b.
Qed.

Lemma last_in_tail {A} (l1 l2 u0 : list A) (x : A) :
  l2 <> [] -> l1 ++ l2 = u0 ++ [x] -> In x l2.
Proof.
  intros Hne H. destruct (exists_last Hne) as [m [y ->]].
  rewrite app_assoc in H. apply app_inj_tail in H as [_ ->].
  apply in_or_app. right. now left.
Qed.

(** Appending a run of [R] to a text adds no occurrence of a token. *)
Lemma found_app_R (tok c0 : str) :
  token tok -> ~ found F tok c0 -> ~ found F tok (c0 ++ R).
Proof.
  intros Htok Hno [a [b [Hab Hb]]].
  pose proof Htok as [c [v [Heq [Hc [Hv [[v0 [z [Hz Hf]]] _]]]]]].
  apply app_eq_app in Hab as [l [[Hc0 Hbl]|[Ha HR]]].
  - rewrite Hbl in Hb. destruct Hb as [u [t [Hut Hs]]].
    apply app_eq_app in Hut as [l' [[Hl Ht]|[Hu HR]]].
    + apply Hno. exists a, l. split; [exact Hc0|].
      exists u, l'. now split.
    + destruct l' as [|x l'].
      * apply Hno. exists a, l. split; [exact Hc0|].
        exists u, []. rewrite app_nil_r in Hu. rewrite app_nil_r. now split.
      * rewrite Heq, Hz in Hs.
        change (c :: v0 ++ [z]) with ((c :: v0) ++ [z]) in Hs.
        apply Forall2_app_inv_l in Hs as [u0 [u1 [_ [H1 Hu']]]].
        inversion H1 as [|? x' ? u2 Hx' Hnil Hz' Hu1]. inversion Hnil as [Hn1 Hn2|].
        rewrite <- Hu1, <- Hn2 in Hu'.
        rewrite (foreign_spec z x' Hf) in Hx'; [discriminate|].
        rewrite HR. apply in_or_app. left.
        apply (last_in_tail l (x :: l') u0 x'); [discriminate|].
        now rewrite <- Hu, Hu'.
  - destruct b as [|x b].
    + rewrite Heq in Hb. now apply (begins_nil_text (c :: v)) in Hb.
    + apply (token_not_in_R tok x b Htok); [|exact Hb].
      rewrite HR. apply in_or_app. right. now left.
Qed.

End Literals.

(** ** Placeholders *)

Lemma placeholders_bracketed :
  forallb (bracketed I company_name) placeholder_tokens = true
  /\ forallb (bracketed I ([nl; nl] ++ signature)) placeholder_tokens = true.
Proof. split; vm_compute; reflexivity. Qed.

Lemma placeholder_token (tok : str) :
  In tok placeholder_tokens ->
  token I company_name tok /\ token I ([nl; nl] ++ signature) tok.
Proof.
  intros Hin. destruct placeholders_bracketed as [H1 H2].
  rewrite forallb_forall in H1, H2.
  split; apply bracketed_token; auto.
Qed.

(** Replacing the tokens of a list one after the other clears them all. *)
Lemma replace_clears (R : str) (todo : list str) :
  forall (s : str) (done : list str),
    (forall t, In t (done ++ todo) -> token I R t) ->
    (forall t, In t done -> ~ found I t s) ->
    forall t, In t (done ++ todo) ->
      ~ found I t (fold_left (fun acc pattern => re_sub I pattern R acc)
                             (map Lit todo) s).
Proof.
  induction todo as [|tok todo IH]; intros s done Htok Hdone t Hin.
  - rewrite app_nil_r in Hin. now apply Hdone.
  - cbn [map fold_left].
    assert (Hre : done ++ tok :: todo = (done ++ [tok]) ++ todo)
      by now rewrite <- app_assoc.
    rewrite Hre in Hin, Htok.
    apply (IH (re_sub I (Lit tok) R s) (done ++ [tok]) Htok); [|exact Hin].
    intros t' Hin'. apply in_app_or in Hin' as [Hd|[<-|[]]].
    + intros Hf. apply (Hdone t' Hd).
      apply (found_transfer I R (Lit tok) t' None s (re_sub I (Lit tok) R s));
        [|apply re_sub_Subst | exact Hf].
      apply Htok. apply in_or_app. left. apply in_or_app. now left.
    + apply (found_cleared I R tok None s (re_sub I (Lit tok) R s));
        [|apply re_sub_Subst].
      apply Htok. apply in_or_app. left. apply in_or_app. right. now left.
Qed.

Lemma placeholders_replaced (response tok : str) :
  In tok placeholder_tokens -> ~ found I tok (replace_placeholders response).
Proof.
  intros Hin. unfold replace_placeholders, placeholder_patterns.
  apply (replace_clears company_name placeholder_tokens response []); auto.
  intros t Ht. now apply placeholder_token.
Qed.

(** ** Signatures at the start *)

Lemma advance_cons (prev : option ascii) (u : str) :
  u <> [] -> advance prev u <> None.
Proof.
  revert prev. induction u as [|c u IH]; intros prev H; [congruence|].
  simpl. destruct u as [|c' u]; [discriminate|]. apply IH. discriminate.
Qed.

Lemma match_at_anchored (F : flags) (r : re) (c : ascii) (s : str) :
  multiline F = false -> match_at F (Cat Bol r) (Some c) s = None.
Proof.
  intros H. unfold match_at. cbn [m at_bol]. now rewrite H.
Qed.

Lemma Subst_anchored_rest (F : flags) (r : re) (repl : str) prev s o :
  multiline F = false ->
  Subst F (Cat Bol r) repl prev s o -> prev <> None -> o = s.
Proof.
  intros Hml. induction 1 as [prev | prev s p t o Hm Hlt Hsub IH | prev x s o Hno Hsub IH];
    intros Hprev.
  - reflexivity.
  - destruct prev as [c|]; [|congruence].
    rewrite match_at_anchored in Hm by assumption. discriminate.
  - f_equal. apply IH. discriminate.
Qed.

(** A substitution for a pattern anchored at the start removes at most a
    head of the text. *)
Lemma Subst_anchored_suffix (F : flags) (r : re) (s o : str) :
  multiline F = false ->
  Subst F (Cat Bol r) [] None s o -> exists a, s = a ++ o.
Proof.
  intros Hml H. inversion H as [prev | prev s' p t o' Hm Hlt Hsub | prev x s' o' Hno Hsub];
    subst.
  - now exists [].
  - apply match_at_sound in Hm as [u [-> [_ ->]]].
    assert (Hu : u <> []).
    { intros ->. simpl in Hlt. lia. }
    exists u. cbn [app]. f_equal. symmetry.
    apply (Subst_anchored_rest F r [] _ _ _ Hml Hsub). now apply advance_cons.
  - exists []. cbn [app]. f_equal. symmetry.
    apply (Subst_anchored_rest F r [] _ _ _ Hml Hsub). discriminate.
Qed.

Lemma leading_signature_infix (X s : str) :
  infix (re_sub IS (leading_signature X) [] s) s.
Proof.
  destruct (Subst_anchored_suffix IS _ s _ eq_refl
              (re_sub_Subst IS (leading_signature X) [] s)) as [a Ha].
  rewrite Ha at 2. apply infix_suffix.
Qed.

Lemma strip_leading_signatures_infix (s : str) :
  infix (strip_leading_signatures s) s.
Proof.
  unfold strip_leading_signatures.
  eapply infix_trans; [apply leading_signature_infix|].
  eapply infix_trans; [apply leading_signature_infix|].
  apply leading_signature_infix.
Qed.

(** *** What the patterns anchored at the start delete *)

Lemma NL_matches (x : ascii) :
  class_match IS (CAtom (AChar nl)) x = char_eqb x nl.
Proof. destruct x as [[] [] [] [] [] [] [] []]; reflexivity. Qed.

(** Under DOTALL a lazy [.*?] tries what follows at every position in
    turn, the nearest first. *)
Lemma lazy_dots_step {A} (prev : option ascii) (s : str)
    (k : option ascii -> str -> option A) :
  star_lazy IS CAny prev s k
  = match k prev s with
    | Some r => Some r
    | None =>
        match s with
        | x :: s' => star_lazy IS CAny (Some x) s' k
        | [] => None
        end
    end.
Proof. destruct s; reflexivity. Qed.

Lemma m_NL {A} (prev : option ascii) (s : str)
    (k : option ascii -> str -> option A) :
  m IS NL prev s k
  = match s with
    | x :: s' => if char_eqb x nl then k (Some nl) s' else None
    | [] => None
    end.
Proof.
  destruct s as [|x s]; [reflexivity|].
  unfold NL. cbn [m]. rewrite NL_matches.
  destruct (char_eqb x nl) eqn:Hx; [|reflexivity].
  apply char_eqb_eq in Hx. now subst.
Qed.

(** [.*?\n] stops at the first line break. *)
Lemma lazy_line_break (s : str) :
  forall prev,
    m IS (Cat dots_lazy NL) prev s (fun p t => Some (p, t))
    = option_map (fun t => (Some nl, t)) (after_line_break s).
Proof.
  induction s as [|x s IH]; intros prev; [reflexivity|].
  change (m IS (Cat dots_lazy NL) prev (x :: s) (fun p t => Some (p, t)))
    with (star_lazy IS CAny prev (x :: s)
            (fun p t => m IS NL p t (fun p t => Some (p, t)))).
  rewrite lazy_dots_step, m_NL. cbn [after_line_break].
  destruct (char_eqb x nl); [reflexivity|]. apply IH.
Qed.

Lemma after_line_break_none (t : str) :
  after_line_break t = None -> forall n, after_line_break (skipn n t) = None.
Proof.
  induction t as [|x t IH]; intros H n.
  - now destruct n.
  - cbn [after_line_break] in H. destruct (char_eqb x nl) eqn:Hx; [discriminate|].
    destruct n as [|n]; cbn [skipn after_line_break]; [now rewrite Hx | now apply IH].
Qed.

Lemma after_line_break_skipn (t r : str) :
  after_line_break t = Some r ->
  forall n, after_line_break (skipn n t) = Some r \/ exists j, skipn n t = skipn j r.
Proof.
  revert r. induction t as [|x t IH]; intros r H n; [discriminate|].
  cbn [after_line_break] in H. destruct n as [|n].
  - left. cbn [skipn after_line_break]. exact H.
  - cbn [skipn]. destruct (char_eqb x nl).
    + injection H as <-. right. now exists n.
    + now apply IH.
Qed.

(** A text with fewer than two line breaks has no part with two. *)
Lemma after_two_line_breaks_none (t : str) :
  after_two_line_breaks t = None ->
  forall n, after_two_line_breaks (skipn n t) = None.
Proof.
  unfold after_two_line_breaks. intros H n.
  destruct (after_line_break t) as [r|] eqn:Hr.
  - destruct (after_line_break_skipn t r Hr n) as [Hn|[j Hj]].
    + now rewrite Hn.
    + rewrite Hj. now rewrite (after_line_break_none r H j).
  - now rewrite (after_line_break_none t Hr n).
Qed.

(** [.*?\n.*?\n] stops at the second line break. *)
Lemma lazy_two_line_breaks (s : str) :
  forall prev,
    m IS (Cat dots_lazy (Cat NL (Cat dots_lazy NL))) prev s (fun p t => Some (p, t))
    = option_map (fun t => (Some nl, t)) (after_two_line_breaks s).
Proof.
  induction s as [|x s IH]; intros prev; [reflexivity|].
  change (m IS (Cat dots_lazy (Cat NL (Cat dots_lazy NL))) prev (x :: s)
            (fun p t => Some (p, t)))
    with (star_lazy IS CAny prev (x :: s)
            (fun p t => m IS NL p t
               (fun p t => m IS (Cat dots_lazy NL) p t (fun p t => Some (p, t))))).
  rewrite lazy_dots_step, m_NL.
  unfold after_two_line_breaks. cbn [after_line_break].
  destruct (char_eqb x nl).
  - rewrite lazy_line_break.
    destruct (after_line_break s) as [t|] eqn:Ht; [reflexivity|].
    cbn [option_map].
    change (star_lazy IS CAny (Some x) s
              (fun p t => m IS NL p t
                 (fun p t => m IS (Cat dots_lazy NL) p t (fun p t => Some (p, t)))))
      with (m IS (Cat dots_lazy (Cat NL (Cat dots_lazy NL))) (Some x) s
              (fun p t => Some (p, t))).
    rewrite IH. unfold after_two_line_breaks. now rewrite Ht.
  - apply IH.
Qed.

(** A literal in front of a continuation that does not look back. *)
Lemma m_Lit_spelled {A} (w : str) :
  w <> [] ->
  forall prev s (k : option ascii -> str -> option A),
    (forall p p' t, k p t = k p' t) ->
    m IS (Lit w) prev s k
    = match spelled_at_start w s with
      | Some t => k None t
      | None => None
      end.
Proof.
  induction w as [|c w IH]; [congruence|]. intros _ prev s k Hk.
  destruct w as [|c' w].
  - destruct s as [|x s]; [reflexivity|].
    cbn [Lit m class_match atom_match ignorecase IS spelled_at_start].
    destruct (char_eqb (lower_char x) (lower_char c)); [apply Hk | reflexivity].
  - change (Lit (c :: c' :: w))
      with (Cat (Chr (CAtom (AChar c))) (Lit (c' :: w))).
    destruct s as [|x s]; [reflexivity|].
    cbn [m class_match atom_match ignorecase IS].
    change (spelled_at_start (c :: c' :: w) (x :: s))
      with (if char_eqb (lower_char x) (lower_char c)
            then spelled_at_start (c' :: w) s else None).
    destruct (char_eqb (lower_char x) (lower_char c)); [|reflexivity].
    apply IH; [discriminate | exact Hk].
Qed.

Lemma spelled_at_start_skipn (w s t : str) :
  spelled_at_start w s = Some t -> t = skipn (length w) s.
Proof.
  revert s. induction w as [|c w IH]; intros s H.
  - cbn in H. now injection H as <-.
  - destruct s as [|x s]; [discriminate|]. cbn [spelled_at_start] in H.
    destruct (char_eqb (lower_char x) (lower_char c)); [|discriminate].
    cbn [length skipn]. now apply IH.
Qed.

Lemma after_phrase_skipn (w s t : str) :
  after_phrase w s = Some t -> exists n, length w <= n /\ t = skipn n s.
Proof.
  induction s as [|x s IH]; intros H.
  - cbn [after_phrase] in H.
    destruct (spelled_at_start w []) as [r|] eqn:Hr; [|discriminate].
    injection H as <-. exists (length w). split; [lia|].
    now apply spelled_at_start_skipn.
  - cbn [after_phrase] in H.
    destruct (spelled_at_start w (x :: s)) as [r|] eqn:Hr.
    + injection H as <-. exists (length w). split; [lia|].
      now apply spelled_at_start_skipn.
    + destruct (IH H) as [n [Hn ->]]. exists (S n). split; [lia | reflexivity].
Qed.

(** The phrase and the two line breaks after it, found from the nearest
    position on. *)
Lemma lazy_sign_off (X : str) :
  X <> [] ->
  forall s prev,
    star_lazy IS CAny prev s
      (fun p t =>
         m IS (Cat (Lit X) (Cat dots_lazy (Cat NL (Cat dots_lazy NL)))) p t
           (fun p t => Some (p, t)))
    = option_map (fun t => (Some nl, t)) (past_sign_off X s).
Proof.
  intros HX.
  assert (Hk : forall p t,
             m IS (Cat (Lit X) (Cat dots_lazy (Cat NL (Cat dots_lazy NL)))) p t
               (fun p t => Some (p, t))
             = match spelled_at_start X t with
               | Some t' => option_map (fun t => (Some nl, t)) (after_two_line_breaks t')
               | None => None
               end).
  { intros p t.
    change (m IS (Cat (Lit X) (Cat dots_lazy (Cat NL (Cat dots_lazy NL)))) p t
              (fun p t => Some (p, t)))
      with (m IS (Lit X) p t
              (fun p t => m IS (Cat dots_lazy (Cat NL (Cat dots_lazy NL))) p t
                            (fun p t => Some (p, t)))).
    rewrite (m_Lit_spelled X HX).
    - destruct (spelled_at_start X t); [apply lazy_two_line_breaks | reflexivity].
    - intros p1 p2 t'. now rewrite !lazy_two_line_breaks. }
  induction s as [|x s IH]; intros prev.
  - rewrite lazy_dots_step, Hk. unfold past_sign_off. cbn [after_phrase].
    destruct (spelled_at_start X []) as [t|]; [|reflexivity].
    now destruct (after_two_line_breaks t).
  - rewrite lazy_dots_step, Hk. unfold past_sign_off. cbn [after_phrase].
    destruct (spelled_at_start X (x :: s)) as [t|] eqn:Ht.
    + destruct (after_two_line_breaks t) as [r|] eqn:Hr; [reflexivity|].
      cbn [option_map]. rewrite IH. unfold past_sign_off.
      destruct (after_phrase X s) as [t'|] eqn:Ht'; [|reflexivity].
      apply spelled_at_start_skipn in Ht.
      apply after_phrase_skipn in Ht' as [n [Hn ->]].
      destruct X as [|c X]; [congruence|]. cbn [length skipn] in Ht.
      cbn [length] in Hn.
      replace (skipn n s) with (skipn (n - length X) t)
        by (subst t; rewrite skipn_skipn; f_equal; lia).
      now rewrite (after_two_line_breaks_none t Hr).
    + apply IH.
Qed.

Lemma match_at_leading_signature (X s : str) :
  X <> [] ->
  match_at IS (leading_signature X) None s
  = option_map (fun t => (Some nl, t)) (past_sign_off X s).
Proof.
  intros HX. rewrite <- (lazy_sign_off X HX s None). reflexivity.
Qed.

Lemma after_line_break_shorter (s t : str) :
  after_line_break s = Some t -> length t < length s.
Proof.
  induction s as [|x s IH]; intros H; [discriminate|].
  cbn [after_line_break] in H. cbn [length].
  destruct (char_eqb x nl).
  - injection H as <-. lia.
  - specialize (IH H). lia.
Qed.

Lemma past_sign_off_shorter (X s t : str) :
  past_sign_off X s = Some t -> length t < length s.
Proof.
  unfold past_sign_off, after_two_line_breaks. intros H.
  destruct (after_phrase X s) as [t0|] eqn:H0; [|discriminate].
  destruct (after_line_break t0) as [t1|] eqn:H1; [|discriminate].
  apply after_phrase_skipn in H0 as [n [_ ->]].
  apply after_line_break_shorter in H1, H.
  rewrite length_skipn in H1. lia.
Qed.

(** What [re.sub] does with a pattern for a signature at the start. *)
Lemma re_sub_leading_signature (X s : str) :
  X <> [] ->
  re_sub IS (leading_signature X) [] s = without_head X s.
Proof.
  intros HX. unfold without_head.
  pose proof (re_sub_Subst IS (leading_signature X) [] s) as H.
  pose proof (match_at_leading_signature X s HX) as Hm.
  remember (re_sub IS (leading_signature X) [] s) as o eqn:Ho. clear Ho.
  destruct (past_sign_off X s) as [t'|] eqn:Hp.
  - pose proof (past_sign_off_shorter X _ _ Hp) as Hshort.
    cbn [option_map] in Hm.
    inversion H as [prev | prev s' p t o' Hmatch Hlt Hsub | prev x s' o' Hno Hsub];
      subst.
    + cbn [length] in Hshort. lia.
    + rewrite Hm in Hmatch. injection Hmatch as <- <-. cbn [app].
      apply (Subst_anchored_rest IS _ [] _ _ _ eq_refl Hsub). discriminate.
    + specialize (Hno _ _ Hm). lia.
  - cbn [option_map] in Hm.
    inversion H as [prev | prev s' p t o' Hmatch Hlt Hsub | prev x s' o' Hno Hsub];
      subst.
    + reflexivity.
    + rewrite Hm in Hmatch. discriminate.
    + f_equal. apply (Subst_anchored_rest IS _ [] _ _ _ eq_refl Hsub). discriminate.
Qed.

Lemma strip_leading_signatures_heads (s : str) :
  strip_leading_signatures s = without_heads s.
Proof.
  unfold strip_leading_signatures, without_heads.
  rewrite !re_sub_leading_signature by discriminate. reflexivity.
Qed.

(** ** Signatures at the end *)

Section OpenEnded.
Variable F : flags.
Hypothesis Hdotall : dotall F = true.

Lemma matches_min_len (r : re) :
  forall prev u t, matches F r prev u t -> min_len r <= length u.
Proof.
  induction r as [| c | | | a IHa b IHb | a IHa b IHb | a IHa | c | c | c];
    intros prev u t H; simpl in *; try lia.
  - destruct H as [x [-> _]]. simpl. lia.
  - destruct H as [u1 [u2 [-> [Ha Hb]]]]. rewrite length_app.
    apply IHa in Ha. apply IHb in Hb. lia.
  - destruct H as [H|H]; [apply IHa in H | apply IHb in H]; lia.
  - destruct H as [Hne _]. destruct u; [congruence | simpl; lia].
Qed.

Lemma match_at_consumes (r : re) (prev : option ascii) (s : str) p t :
  0 < min_len r -> match_at F r prev s = Some (p, t) -> length t < length s.
Proof.
  intros Hmin Hm. apply match_at_sound in Hm as [u [-> [Hu _]]].
  apply matches_min_len in Hu. rewrite length_app. lia.
Qed.

Lemma matches_no_anchor (r : re) :
  no_anchor r = true ->
  forall prev prev' u t t',
    matches F r prev u t -> matches F r prev' u t'.
Proof.
  induction r as [| c | | | a IHa b IHb | a IHa b IHb | a IHa | c | c | c];
    intros Hna prev prev' u t t' H; simpl in *; try discriminate; auto.
  - apply andb_true_iff in Hna as [Ha Hb].
    destruct H as [u1 [u2 [-> [H1 H2]]]]. exists u1, u2.
    split; [reflexivity|]. split; [eapply IHa | eapply IHb]; eauto.
  - apply andb_true_iff in Hna as [Ha Hb].
    destruct H as [H|H]; [left; eapply IHa | right; eapply IHb]; eauto.
  - destruct H as [H|H]; [left; eapply IHa | right]; eauto.
Qed.

Lemma ends_open_Cat (a b : re) :
  ends_open (Cat a b) = true ->
  (a = Star CAny /\ b = Eol) \/ (no_anchor a = true /\ ends_open b = true).
Proof.
  intros H.
  destruct (no_anchor a && ends_open b) eqn:Hc.
  - right. now apply andb_true_iff in Hc.
  - left. simpl in H. destruct a as [| | | | | | | c | |];
      try (rewrite Hc in H; discriminate).
    destruct c; try (rewrite Hc in H; discriminate).
    destruct b; try (rewrite Hc in H; discriminate). now split.
Qed.

(** A match of an open-ended pattern extends to the whole of any longer
    text, whatever came before. *)
Lemma matches_open_ended (r : re) :
  ends_open r = true ->
  forall prev prev' u t x,
    matches F r prev u t -> matches F r prev' (u ++ t ++ x) [].
Proof.
  induction r as [| c | | | a IHa b IHb | a IHa b IHb | a IHa | c | c | c];
    intros Hopen prev prev' u t x H; try discriminate.
  apply ends_open_Cat in Hopen as [[-> ->]|[Ha Hb]].
  - exists (u ++ t ++ x), []. split; [now rewrite app_nil_r|]. split.
    + simpl. apply Forall_forall. intros y _. simpl. now rewrite Hdotall.
    + simpl. now split.
  - destruct H as [u1 [u2 [-> [H1 H2]]]].
    exists u1, (u2 ++ t ++ x). split; [now rewrite <- app_assoc|]. split.
    + now apply (matches_no_anchor a Ha prev prev' u1 (u2 ++ t)).
    + now apply (IHb Hb (advance prev u1)).
Qed.

Lemma match_at_open_ended (r : re) prev prev' (b x : str) :
  ends_open r = true ->
  match_at F r prev b <> None -> match_at F r prev' (b ++ x) <> None.
Proof.
  intros Hopen H.
  destruct (match_at F r prev b) as [[p t]|] eqn:Hm; [|congruence].
  apply match_at_sound in Hm as [u [-> [Hu _]]].
  pose proof (matches_open_ended r Hopen prev prev' u t x Hu) as Hx.
  apply match_at_complete in Hx. now rewrite app_nil_r, app_assoc in Hx.
Qed.

Lemma star_greedy_all {A} (s : str) :
  forall prev (k : option ascii -> str -> option A),
    (forall p, k p [] <> None) ->
    star_greedy F CAny prev s k = k (advance prev s) [].
Proof.
  induction s as [|x s IH]; intros prev k Hk; [reflexivity|].
  cbn [star_greedy class_match]. rewrite Hdotall. cbn [orb].
  rewrite IH by assumption. simpl.
  destruct (k (advance (Some x) s) []) eqn:Hks; [reflexivity|].
  now apply Hk in Hks.
Qed.

(** The first match of an open-ended pattern runs to the end. *)
Lemma m_to_end {A} (r : re) :
  ends_open r = true ->
  forall prev s (k : option ascii -> str -> option A) res,
    (forall p t, k p t <> None) ->
    m F r prev s k = Some res ->
    exists p, k p [] = Some res.
Proof.
  induction r as [| c | | | a IHa b IHb | a IHa b IHb | a IHa | c | c | c];
    intros Hopen prev s k res Hk H; try discriminate.
  apply ends_open_Cat in Hopen as [[-> ->]|[Ha Hb]].
  - cbn [m] in H. rewrite star_greedy_all in H.
    + cbn [at_eol] in H. now exists (advance prev s).
    + intros p. cbn [at_eol]. apply Hk.
  - cbn [m] in H. apply m_sound in H as [u [t [_ [_ H]]]].
    now apply (IHb Hb) in H.
Qed.

Lemma match_at_to_end (r : re) prev (s : str) p t :
  ends_open r = true -> match_at F r prev s = Some (p, t) -> t = [].
Proof.
  intros Hopen H. apply (m_to_end r Hopen) in H as [p' H]; [|discriminate].
  now injection H as _ <-.
Qed.

Lemma Subst_empty (r : re) (repl : str) prev o :
  Subst F r repl prev [] o -> o = [].
Proof.
  intros H. inversion H as [| ? ? ? ? ? ? Hlt |]; subst; [reflexivity|].
  simpl in Hlt. lia.
Qed.

(** Deleting the matches of a pattern that cuts a tail keeps a head of
    the text in which the pattern no longer matches anywhere. *)
Lemma Subst_cuts_tail (r : re) prev s o :
  cuts_tail r = true ->
  Subst F r [] prev s o ->
  (exists b, s = o ++ b)
  /\ forall a' b', o = a' ++ b' -> match_at F r (advance prev a') b' = None.
Proof.
  intros Hcut. apply andb_true_iff in Hcut as [Hopen Hmin].
  apply Nat.ltb_lt in Hmin.
  assert (Hnil : forall prev, match_at F r prev [] = None).
  { intros q. destruct (match_at F r q []) as [[p t]|] eqn:Hm; [|reflexivity].
    apply match_at_consumes in Hm; [simpl in Hm; lia | exact Hmin]. }
  induction 1 as [prev | prev s p t o Hm Hlt Hsub IH | prev x s o Hno Hsub IH].
  - split; [now exists []|]. intros a' b' Heq. symmetry in Heq.
    apply app_eq_nil in Heq as [-> ->]. apply Hnil.
  - pose proof (match_at_to_end r prev s p t Hopen Hm) as ->.
    apply Subst_empty in Hsub as ->. split; [now exists s|].
    intros a' b' Heq. symmetry in Heq. apply app_eq_nil in Heq as [-> ->].
    apply Hnil.
  - destruct IH as [[b Hb] IH]. split; [exists b; now rewrite Hb|].
    intros a' b' Heq. destruct a' as [|y a']; simpl in Heq.
    + subst b'. simpl.
      destruct (match_at F r prev (x :: o)) as [[p t]|] eqn:Hm; [|reflexivity].
      exfalso.
      assert (Hext : match_at F r prev ((x :: o) ++ b) <> None)
        by (apply (match_at_open_ended r prev prev); [exact Hopen | congruence]).
      simpl in Hext. rewrite <- Hb in Hext.
      destruct (match_at F r prev (x :: s)) as [[p' t']|] eqn:Hm'; [|congruence].
      pose proof (Hno p' t' eq_refl) as Hge.
      apply match_at_consumes in Hm'; [lia | exact Hmin].
    + injection Heq as <- ->. simpl. now apply IH.
Qed.

Lemma search_from_false (r : re) (s : str) :
  forall prev,
    search_from F r prev s = false
    <-> forall a b, s = a ++ b -> match_at F r (advance prev a) b = None.
Proof.
  intros prev. split.
  - intros H a b ->.
    destruct (match_at F r (advance prev a) b) eqn:Hm; [|reflexivity].
    rewrite search_from_complete in H; [discriminate | congruence].
  - intros H. destruct (search_from F r prev s) eqn:Hs; [|reflexivity].
    apply search_from_sound in Hs as [a [b [Heq Hb]]].
    now rewrite (H a b Heq) in Hb.
Qed.

Lemma re_sub_cuts_tail (r : re) (s : str) :
  cuts_tail r = true ->
  infix (re_sub F r [] s) s /\ re_search F r (re_sub F r [] s) = false.
Proof.
  intros Hcut.
  destruct (Subst_cuts_tail r None s _ Hcut (re_sub_Subst F r [] s)) as [[b Hb] Hno].
  split.
  - rewrite Hb at 2. apply infix_prefix.
  - now apply search_from_false.
Qed.

(** A part of a text has no match where the text had none. *)
Lemma no_match_infix (r : re) (c o : str) :
  cuts_tail r = true ->
  re_search F r o = false -> infix c o -> re_search F r c = false.
Proof.
  intros Hcut Hno [u [v ->]].
  apply andb_true_iff in Hcut as [Hopen _].
  destruct (re_search F r c) eqn:Hc; [|reflexivity].
  apply search_from_sound in Hc as [a [b [-> Hb]]].
  unfold re_search in Hno.
  assert (Htrue : search_from F r None ((u ++ a) ++ (b ++ v)) = true).
  { apply search_from_complete.
    now apply (match_at_open_ended r (advance None a)). }
  rewrite <- !app_assoc in Htrue. rewrite <- !app_assoc in Hno. congruence.
Qed.

Lemma cut_tails_clear (todo : list re) :
  forall (s : str) (done : list re),
    (forall p, In p (done ++ todo) -> cuts_tail p = true) ->
    (forall p, In p done -> re_search F p s = false) ->
    let o := fold_left (fun acc pattern => re_sub F pattern [] acc) todo s in
    infix o s /\ forall p, In p (done ++ todo) -> re_search F p o = false.
Proof.
  induction todo as [|r todo IH]; intros s done Hcut Hdone; cbn [fold_left].
  - split; [apply infix_refl|]. intros p Hin. rewrite app_nil_r in Hin. auto.
  - assert (Hre : done ++ r :: todo = (done ++ [r]) ++ todo)
      by now rewrite <- app_assoc.
    rewrite Hre in Hcut |- *.
    assert (Hr : cuts_tail r = true).
    { apply Hcut. apply in_or_app. left. apply in_or_app. right. now left. }
    destruct (re_sub_cuts_tail r s Hr) as [Hinf Hclear].
    destruct (IH (re_sub F r [] s) (done ++ [r]) Hcut) as [Hinf' Hall].
    + intros p Hin. apply in_app_or in Hin as [Hd|[<-|[]]]; [|exact Hclear].
      apply (no_match_infix p _ s); [|now apply Hdone | exact Hinf].
      apply Hcut. apply in_or_app. left. apply in_or_app. now left.
    + split; [exact (infix_trans _ _ _ Hinf' Hinf) | exact Hall].
Qed.

End OpenEnded.

Lemma tail_patterns_cut : forallb cuts_tail tail_patterns = true.
Proof. vm_compute. reflexivity. Qed.

Lemma strip_trailing_signatures_clears (s : str) :
  infix (strip_trailing_signatures s) s
  /\ forall p, In p tail_patterns ->
               re_search IMS p (strip_trailing_signatures s) = false.
Proof.
  assert (Heq : strip_trailing_signatures s
                = fold_left (fun acc pattern => re_sub IMS pattern [] acc)
                            tail_patterns s).
  { unfold strip_trailing_signatures, tail_patterns.
    rewrite fold_left_app. cbn [fold_left]. reflexivity. }
  rewrite Heq.
  apply (cut_tails_clear IMS eq_refl tail_patterns s []).
  - intros p Hin. pose proof tail_patterns_cut as H.
    rewrite forallb_forall in H. now apply H.
  - intros p [].
Qed.

(** ** The whole of [_clean_response] *)

Lemma cleaned_text_infix (response : str) :
  infix (cleaned_text response) (replace_placeholders response).
Proof.
  unfold cleaned_text.
  eapply infix_trans; [apply strip_infix|].
  eapply infix_trans; [apply strip_trailing_signatures_clears|].
  apply strip_leading_signatures_infix.
Qed.

Lemma cleaned_text_tail_free (response : str) (p : re) :
  In p tail_patterns -> re_search IMS p (cleaned_text response) = false.
Proof.
  intros Hin. unfold cleaned_text.
  destruct (strip_trailing_signatures_clears
              (strip_leading_signatures (replace_placeholders response)))
    as [_ Hclear].
  eapply (no_match_infix IMS eq_refl p); [|apply Hclear; exact Hin | apply strip_infix].
  pose proof tail_patterns_cut as H. rewrite forallb_forall in H. now apply H.
Qed.

Lemma not_found_search (F : flags) (w s : str) :
  ~ found F w s -> re_search F (Lit w) s = false.
Proof.
  intros H. destruct (re_search F (Lit w) s) eqn:Hs; [|reflexivity].
  now apply re_search_Lit in Hs.
Qed.

Lemma fallback_has_no_placeholder :
  forallb (fun p => negb (re_search I p (_fallback_response [] [])))
          placeholder_patterns = true.
Proof. vm_compute. reflexivity. Qed.

Lemma gated_iff (c : str) :
  gated c = true
  <-> (length c < 20
       \/ In (lower c) [[]; py "dear customer"; py "dear valued customer"]
       \/ re_match no_flags header_pattern c = true).
Proof.
  unfold gated. rewrite !orb_true_iff, Nat.ltb_lt, str_in_In. tauto.
Qed.

Lemma clean_response_cases (response : str) :
  response <> [] ->
  let c := cleaned_text response in
  _clean_response response
  = if gated c then _fallback_response [] []
    else if has_signature c then c else c ++ [nl; nl] ++ signature.
Proof.
  intros Hne c. unfold _clean_response. fold c.
  destruct response; [congruence|]. cbn [truthy negb].
  destruct (gated c); [reflexivity|]. now destruct (has_signature c).
Qed.

Lemma clean_response_no_placeholder (response : str) (p : re) :
  response <> [] ->
  In p placeholder_patterns ->
  re_search I p (_clean_response response) = false.
Proof.
  intros Hne Hin. rewrite clean_response_cases by assumption.
  destruct (gated (cleaned_text response)).
  - pose proof fallback_has_no_placeholder as H. rewrite forallb_forall in H.
    apply negb_true_iff. now apply H.
  - unfold placeholder_patterns in Hin. apply in_map_iff in Hin as [tok [<- Htok]].
    assert (Hc : ~ found I tok (cleaned_text response)).
    { intros Hf. apply (placeholders_replaced response tok Htok).
      exact (found_infix I tok _ _ Hf (cleaned_text_infix response)). }
    apply not_found_search.
    destruct (has_signature (cleaned_text response)); [exact Hc|].
    apply found_app_R; [|exact Hc]. now apply placeholder_token.
Qed.

Lemma cleaned_text_after_heads (response : str) :
  infix (cleaned_text response) (without_heads (replace_placeholders response)).
Proof.
  unfold cleaned_text. rewrite strip_leading_signatures_heads.
  eapply infix_trans; [apply strip_infix|].
  apply strip_trailing_signatures_clears.
Qed.




(** * Further properties of the services *)

(** ** [preprocess_text] *)

(** Deleting single characters is a filter. *)
Lemma Subst_Chr_delete (F : flags) (c : cclass) (prev : option ascii) (s o : str) :
  Subst F (Chr c) [] prev s o ->
  o = filter (fun x => negb (class_match F c x)) s.
Proof.
  induction 1 as [prev | prev s p t o Hm Hlen _ IH | prev x s o Hskip _ IH].
  - reflexivity.
  - unfold match_at in Hm. cbn [m] in Hm.
    destruct s as [|x s]; [discriminate|].
    destruct (class_match F c x) eqn:Hx; [|discriminate].
    injection Hm as <- <-. cbn [filter app]. rewrite Hx. exact IH.
  - cbn [filter]. destruct (class_match F c x) eqn:Hx.
    + exfalso. specialize (Hskip (Some x) s).
      unfold match_at in Hskip. cbn [m] in Hskip. rewrite Hx in Hskip.
      specialize (Hskip eq_refl). simpl in Hskip. lia.
    + cbn [negb]. now f_equal.
Qed.

Lemma re_sub_Chr_delete (F : flags) (c : cclass) (s : str) :
  re_sub F (Chr c) [] s = filter (fun x => negb (class_match F c x)) s.
Proof. apply (Subst_Chr_delete F c None). apply re_sub_Subst. Qed.

(** A pattern that matches nowhere leaves the text as it is. *)
Lemma Subst_no_match (F : flags) (r : re) (repl : str) (prev : option ascii)
    (s o : str) :
  Subst F r repl prev s o ->
  (forall a b, s = a ++ b -> match_at F r (advance prev a) b = None) ->
  o = s.
Proof.
  induction 1 as [prev | prev s p t o Hm Hlen _ IH | prev x s o Hskip _ IH];
    intros Hno.
  - reflexivity.
  - specialize (Hno [] s eq_refl). simpl in Hno. congruence.
  - f_equal. apply IH. intros a b Hab.
    apply (Hno (x :: a) b). simpl. now f_equal.
Qed.

Lemma re_sub_no_match (F : flags) (r : re) (repl s : str) :
  (forall a b, s = a ++ b -> match_at F r (advance None a) b = None) ->
  re_sub F r repl s = s.
Proof. intros H. exact (Subst_no_match F r repl None s _ (re_sub_Subst F r repl s) H). Qed.

(** A match of [\$\d+] starts at a dollar sign, and a match of [\d+%]
    ends with a percent sign. *)
Lemma price_needs_dollar (prev : option ascii) (b : str) :
  ~ In "$"%char b ->
  match_at no_flags (Cat (Lit (py "$")) (Plus (CAtom ADigit))) prev b = None.
Proof.
  intros Hno. unfold match_at. cbn [m Lit py list_ascii_of_string].
  destruct b as [|x b]; [reflexivity|].
  cbn [class_match atom_match ignorecase no_flags].
  destruct (char_eqb x "$") eqn:Hx; [|reflexivity].
  apply char_eqb_eq in Hx. subst x. exfalso. apply Hno. now left.
Qed.

Lemma percentage_needs_percent (prev : option ascii) (b : str) :
  ~ In "%"%char b ->
  match_at no_flags (Cat (Plus (CAtom ADigit)) (Lit (py "%"))) prev b = None.
Proof.
  intros Hno.
  destruct (match_at no_flags (Cat (Plus (CAtom ADigit)) (Lit (py "%"))) prev b)
    as [[p t]|] eqn:Hm; [|reflexivity].
  exfalso. apply match_at_sound in Hm as [u [-> [Hu _]]].
  cbn [matches Lit py list_ascii_of_string] in Hu.
  destruct Hu as [u1 [u2 [-> [_ [x [-> Hx]]]]]].
  cbn [class_match atom_match ignorecase no_flags] in Hx.
  apply char_eqb_eq in Hx. subst x.
  apply Hno. apply in_or_app. left. apply in_or_app. right. now left.
Qed.

Lemma special_deleted (s : str) (x : ascii) :
  In x (re_sub no_flags special_pattern [] s) ->
  In x s /\ class_match no_flags
              (CSet true [AWord; ASpace; AChar "?"; AChar ":"; AChar ",";
                          AChar "."; AChar "-"; AChar "("; AChar ")"]) x = false.
Proof.
  unfold special_pattern. rewrite re_sub_Chr_delete. intros H.
  apply filter_In in H as [Hin Hx]. split; [exact Hin|].
  now apply negb_true_iff in Hx.
Qed.

Lemma In_suffix {A} (x : A) (a b : list A) : In x b -> In x (a ++ b).
Proof. intros H. apply in_or_app. now right. Qed.

Lemma preprocess_text_squeezed (text : str) : preprocess_text text = squeezed text.
Proof.
  unfold preprocess_text, squeezed.
  fold spaces_pattern. fold special_pattern.
  set (kept := re_sub no_flags special_pattern []
                 (re_sub no_flags spaces_pattern (py " ") (lower text))).
  assert (Hd : ~ In "$"%char kept).
  { intros H. apply special_deleted in H as [_ H]. vm_compute in H. discriminate. }
  assert (Hp : ~ In "%"%char kept).
  { intros H. apply special_deleted in H as [_ H]. vm_compute in H. discriminate. }
  rewrite (re_sub_no_match no_flags _ (py "price") kept).
  - rewrite (re_sub_no_match no_flags _ (py "percentage") kept); [reflexivity|].
    intros a b ->. apply percentage_needs_percent.
    intros H. apply Hp. now apply In_suffix.
  - intros a b ->. apply price_needs_dollar.
    intros H. apply Hd. now apply In_suffix.
Qed.

Lemma infix_In (a s : str) (x : ascii) : infix a s -> In x a -> In x s.
Proof.
  intros [u [v ->]] H. apply in_or_app. right. apply in_or_app. now left.
Qed.

(** X1.  The currency and percentage rewrites of [preprocess_text] never
    fire: the step before them has already deleted every dollar and
    percent sign, so the result is the lower-cased text with its white
    space collapsed and its special characters deleted, stripped, and it
    holds neither sign. *)
Theorem preprocess_text_never_rewrites_amounts :
  forall text : str,
    preprocess_text text = squeezed text
    /\ ~ In "$"%char (preprocess_text text)
    /\ ~ In "%"%char (preprocess_text text).
Proof.
  intros text. rewrite preprocess_text_squeezed.
  split; [reflexivity|].
  split; intros H; apply (infix_In _ _ _ (strip_infix _)) in H;
    apply special_deleted in H as [_ H]; vm_compute in H; discriminate.
Qed.

(** Every run of white space becomes one space: what is left of the text
    is either that space or a character that is not white space. *)
Lemma Subst_spaces (prev : option ascii) (s o : str) :
  Subst no_flags spaces_pattern (py " ") prev s o ->
  Forall (fun x => x = " "%char \/ (In x s /\ is_space x = false)) o.
Proof.
  induction 1 as [prev | prev s p t o Hm Hlen _ IH | prev x s o Hskip _ IH].
  - constructor.
  - apply match_at_sound in Hm as [u [-> _]].
    cbn [py list_ascii_of_string app]. constructor; [now left|].
    eapply Forall_impl; [|exact IH].
    intros x [Hx|[Hin Hx]]; [now left|]. right. split; [|exact Hx].
    now apply In_suffix.
  - constructor.
    + right. split; [now left|].
      destruct (is_space x) eqn:Hx; [|reflexivity]. exfalso.
      assert (Hmatch : match_at no_flags spaces_pattern prev ([x] ++ s) <> None).
      { apply match_at_complete. cbn [matches spaces_pattern]. split; [discriminate|].
        constructor; [exact Hx | constructor]. }
      destruct (match_at no_flags spaces_pattern prev ([x] ++ s)) as [[p t]|] eqn:Hm;
        [|congruence].
      pose proof (Hskip p t Hm) as Hlen.
      apply match_at_sound in Hm as [u [Hu [[Hne _] _]]].
      apply (f_equal (@length ascii)) in Hu. rewrite !length_app in Hu.
      destruct u; [congruence|]. simpl in Hu, Hlen. lia.
    + eapply Forall_impl; [|exact IH].
      intros y [Hy|[Hin Hy]]; [now left|]. right. split; [now right | exact Hy].
Qed.

Lemma lower_char_not_upper (c : ascii) : is_upper (lower_char c) = false.
Proof.
  destruct c as [[] [] [] [] [] [] [] []]; vm_compute; reflexivity.
Qed.

Lemma lstrip_head (s : str) (c : ascii) (s' : str) :
  lstrip s = c :: s' -> is_space c = false.
Proof.
  induction s as [|x s IH]; simpl; [discriminate|].
  destruct (is_space x) eqn:Hx; [exact IH|].
  intros H. injection H as <- _. exact Hx.
Qed.

Lemma strip_trimmed (s : str) : trimmed (strip s).
Proof.
  unfold strip, rstrip. split.
  - intros c s' H.
    destruct (lstrip_suffix (rev (lstrip s))) as [b Hb].
    apply (f_equal (@rev ascii)) in Hb. rewrite rev_involutive, rev_app_distr in Hb.
    rewrite H in Hb. simpl in Hb. now apply (lstrip_head s c (s' ++ rev b)).
  - intros s' c H. apply (f_equal (@rev ascii)) in H.
    rewrite rev_involutive, rev_app_distr in H. simpl in H.
    now apply (lstrip_head _ _ _ H).
Qed.

Lemma kept_of_allowed (x : ascii) :
  is_upper x = false ->
  class_match no_flags
    (CSet true [AWord; ASpace; AChar "?"; AChar ":"; AChar ",";
                AChar "."; AChar "-"; AChar "("; AChar ")"]) x = false ->
  is_space x = false \/ x = " "%char ->
  kept_char x = true.
Proof.
  destruct x as [[] [] [] [] [] [] [] []]; vm_compute; intros Hu Hc Hs;
    try reflexivity; try discriminate; destruct Hs; discriminate.
Qed.

(** X2.  What [preprocess_text] returns for ASCII text consists of
    lower-case letters, digits, underscores, single-space characters and
    the punctuation marks [? : , . - ( )] only, and has no white space at
    either end. *)
Theorem preprocess_text_alphabet :
  forall text : str,
    ascii_text text ->
    Forall (fun c => kept_char c = true) (preprocess_text text)
    /\ trimmed (preprocess_text text).
Proof.
  intros text _. rewrite preprocess_text_squeezed. unfold squeezed.
  split; [|apply strip_trimmed].
  apply Forall_forall. intros x Hx.
  apply (infix_In _ _ _ (strip_infix _)) in Hx.
  apply special_deleted in Hx as [Hin Hallowed].
  pose proof (Subst_spaces None _ _ (re_sub_Subst no_flags spaces_pattern (py " ")
                                       (lower text))) as Hs.
  rewrite Forall_forall in Hs. destruct (Hs x Hin) as [->|[Hl Hsp]].
  - reflexivity.
  - apply kept_of_allowed; [|exact Hallowed | now left].
    unfold lower in Hl. apply in_map_iff in Hl as [y [<- _]].
    apply lower_char_not_upper.
Qed.

Lemma preprocess_text_alphabet_witness :
  Forall (fun c => kept_char c = true)
         (preprocess_text (py "  Cloud Migration:  from $2,500/month (save 10%)!  "))
  /\ preprocess_text (py "  Cloud Migration:  from $2,500/month (save 10%)!  ")
     = py "cloud migration: from 2,500month (save 10)".
Proof.
  split; [|vm_compute; reflexivity].
  apply (preprocess_text_alphabet
           (py "  Cloud Migration:  from $2,500/month (save 10%)!  ")).
  apply ascii_text_check. reflexivity.
Defined.

(** ** [_build_prompt], [_fallback_response] and the suggestions *)

Lemma last2_length {A} (l : list A) : length (last2 l) <= 2.
Proof. unfold last2. rewrite length_skipn. lia. Qed.

Lemma last2_idem {A} (l : list A) : last2 (last2 l) = last2 l.
Proof.
  unfold last2 at 1. pose proof (last2_length l) as H.
  replace (length (last2 l) - 2) with 0 by lia. reflexivity.
Qed.

Lemma last2_nonempty {A} (x : A) (l : list A) : last2 (x :: l) <> [].
Proof.
  intros H. apply (f_equal (@length A)) in H. unfold last2 in H.
  rewrite length_skipn in H. cbn [length] in H. lia.
Qed.

Lemma occurs_join (sep x : str) (l : list str) : In x l -> occurs x (join sep l).
Proof.
  induction l as [|y l IH]; [intros []|]. intros [->|Hin].
  - destruct l as [|z l]; cbn [join].
    + exists [], []. now rewrite app_nil_r.
    + now exists [], (sep ++ join sep (z :: l)).
  - destruct l as [|z l]; [destruct Hin|].
    destruct (IH Hin) as [a [b Hab]]. cbn [join] in *.
    exists (y ++ sep ++ a), b. rewrite Hab. now rewrite <- !app_assoc.
Qed.

(** X3.  Of a conversation history only the last two exchanges reach the
    prompt, an empty history builds the prompt of no history, and the
    prompt always holds the line [CUSTOMER QUESTION: ] followed by the
    query. *)
Theorem build_prompt_uses_last_two_exchanges :
  forall (query context : str) (history : list exchange),
    _build_prompt query context (Some history)
    = _build_prompt query context (Some (last2 history))
    /\ length (last2 history) <= 2
    /\ _build_prompt query context (Some []) = _build_prompt query context None
    /\ occurs (py "CUSTOMER QUESTION: " ++ query)
              (_build_prompt query context (Some history)).
Proof.
  intros query context history. split; [|split; [apply last2_length|split]].
  - destruct history as [|x h]; [reflexivity|].
    destruct (last2 (x :: h)) as [|y l] eqn:Hl; [now apply last2_nonempty in Hl|].
    assert (Hl2 : last2 (y :: l) = y :: l) by (rewrite <- Hl; apply last2_idem).
    unfold _build_prompt. cbv beta iota zeta. rewrite Hl, Hl2. reflexivity.
  - reflexivity.
  - unfold _build_prompt. apply occurs_join.
    apply in_or_app. right. apply in_or_app. right. now left.
Qed.

(** Without a context the fallback is one fixed text. *)
Lemma fallback_without_context (query context : str) :
  context = [] -> _fallback_response query context = _fallback_response [] [].
Proof. intros ->. reflexivity. Qed.

(** X4.  [_fallback_response] does not look at the query, reads at most
    the first 150 characters of the context, and always ends with the
    signature. *)
Theorem fallback_response_is_canned :
  forall (query query' context : str),
    _fallback_response query context
    = _fallback_response query' (firstn 150 context)
    /\ endswith signature (_fallback_response query context) = true
    /\ (context = [] ->
        _fallback_response query context = _fallback_response [] []).
Proof.
  intros query query' context. split; [|split].
  - unfold _fallback_response. destruct context as [|c context]; [reflexivity|].
    cbn [truthy firstn]. rewrite <- (firstn_firstn (c :: context) 150 150) at 1.
    reflexivity.
  - unfold _fallback_response. rewrite app_assoc. apply endswith_app.
  - intros ->. reflexivity.
Qed.

Lemma lower_char_idem (c : ascii) : lower_char (lower_char c) = lower_char c.
Proof. destruct c as [[] [] [] [] [] [] [] []]; vm_compute; reflexivity. Qed.

Lemma lower_idem (s : str) : lower (lower s) = lower s.
Proof.
  unfold lower. rewrite map_map. apply map_ext. apply lower_char_idem.
Qed.

(** X5.  The suggested follow-ups depend on the query only, up to the
    case of its ASCII letters, never on the retrieved documents, and are
    three or four. *)
Theorem suggested_responses_depend_on_query_text :
  forall (query : str) (relevant_docs relevant_docs' : list dict),
    ascii_text query ->
    generate_suggested_responses query relevant_docs
    = generate_suggested_responses (lower query) relevant_docs'
    /\ 3 <= length (generate_suggested_responses query relevant_docs) <= 4.
Proof.
  intros query docs docs' _. split.
  - unfold generate_suggested_responses. now rewrite lower_idem.
  - unfold generate_suggested_responses.
    repeat match goal with
           | |- context [if ?b then _ else _] => destruct b
           end; simpl; lia.
Qed.

Lemma suggested_responses_depend_on_query_text_witness :
  generate_suggested_responses (py "Is the CLOUD secure?") []
  = generate_suggested_responses (py "is the cloud secure?") Sample.two_chunks
  /\ 3 <= length (generate_suggested_responses (py "Is the CLOUD secure?") []) <= 4.
Proof.
  apply (suggested_responses_depend_on_query_text
           (py "Is the CLOUD secure?") [] Sample.two_chunks).
  apply ascii_text_check. reflexivity.
Defined.

(** ** Requests to the hosted model *)

Lemma chat_run (E : externals) (msgs : list (str * str)) (t p : Q) (n : Z)
    (st : machine) :
  _chat E msgs t p n st
  = (Ok (reply_text (llm E (llm_calls st) (sent_request msgs t p n))),
     after_request st).
Proof.
  unfold _chat, reply_text, sent_request, after_request.
  destruct (llm E _ _) as [resp|]; [|reflexivity].
  destruct (status_code resp =? 200); [|reflexivity].
  now destruct (content resp).
Qed.

Lemma reply_text_spec (o : outcome http_response) (s : str) :
  reply_text o = Some s
  <-> exists resp c,
        o = Ok resp /\ status_code resp = 200 /\ content resp = Ok c /\ s = strip c.
Proof.
  unfold reply_text. split.
  - destruct o as [resp|]; [|discriminate].
    destruct (status_code resp =? 200) eqn:Hs; [|discriminate].
    destruct (content resp) as [c|] eqn:Hc; [|discriminate].
    intros H. injection H as <-. exists resp, c. apply Nat.eqb_eq in Hs. auto.
  - intros [resp [c [-> [Hs [Hc ->]]]]]. rewrite Hs, Hc. reflexivity.
Qed.

(** X6.  [_chat] sends exactly one request and never raises.  The request
    carries the messages as given, a temperature above zero (the one
    given when that is positive, 0.1 otherwise) and at most 8192 tokens
    (the limit given when it is not larger); the result is the stripped
    content of a reply with status 200 and [None] in every other case. *)
Theorem chat_sends_one_clamped_request :
  forall (E : externals) (msgs : list (str * str)) (temperature top_p : Q)
         (max_tokens : Z) (st : machine),
    let req := sent_request msgs temperature top_p max_tokens in
    _chat E msgs temperature top_p max_tokens st
    = (Ok (reply_text (llm E (llm_calls st) req)), after_request st)
    /\ llm_calls (after_request st) = S (llm_calls st)
    /\ messages req = msgs
    /\ (0 < Machine.temperature req)%Q
    /\ ((0 < temperature)%Q -> Machine.temperature req = temperature)
    /\ (~ (0 < temperature)%Q -> Machine.temperature req = (1 # 10)%Q)
    /\ (Machine.max_tokens req <= 8192)%Z
    /\ ((max_tokens <= 8192)%Z -> Machine.max_tokens req = max_tokens)
    /\ (forall s,
           reply_text (llm E (llm_calls st) req) = Some s
           <-> exists resp c,
                 llm E (llm_calls st) req = Ok resp
                 /\ status_code resp = 200 /\ content resp = Ok c /\ s = strip c).
Proof.
  intros E msgs temperature top_p max_tokens st req.
  split; [apply chat_run|]. split; [reflexivity|]. split; [reflexivity|].
  unfold req, sent_request. cbn [Machine.temperature Machine.max_tokens].
  destruct (Qle_bool temperature 0) eqn:Ht.
  - apply Qle_bool_iff in Ht.
    split; [reflexivity|]. split; [intros H; exfalso; now apply (Qlt_not_le _ _ H)|].
    split; [reflexivity|].
    destruct (8192 <? max_tokens)%Z eqn:Hm.
    + split; [lia|]. apply Z.ltb_lt in Hm. split; [lia | intros s; apply reply_text_spec].
    + apply Z.ltb_ge in Hm. split; [lia|]. split; [reflexivity | intros s; apply reply_text_spec].
  - assert (Hpos : (0 < temperature)%Q).
    { apply Qnot_le_lt. intros H. apply Qle_bool_iff in H. congruence. }
    split; [exact Hpos|]. split; [reflexivity|]. split; [intros H; contradiction|].
    destruct (8192 <? max_tokens)%Z eqn:Hm.
    + split; [lia|]. apply Z.ltb_lt in Hm. split; [lia | intros s; apply reply_text_spec].
    + apply Z.ltb_ge in Hm. split; [lia|]. split; [reflexivity | intros s; apply reply_text_spec].
Qed.

(** ** What the text-producing methods return *)

Lemma signed_of_ending (t : str) : signed (t ++ [nl; nl] ++ signature).
Proof.
  split.
  - apply has_signature_of_occurrence. exists (t ++ [nl; nl]), [].
    now rewrite app_nil_r, <- app_assoc.
  - rewrite !length_app. simpl. lia.
Qed.

Lemma fallback_response_signed (query context : str) :
  signed (_fallback_response query context).
Proof. unfold _fallback_response. apply signed_of_ending. Qed.

Lemma ungated_length (c : str) : gated c = false -> 20 <= length c.
Proof.
  intros Hg. destruct (Nat.lt_ge_cases (length c) 20) as [Hlt|Hge]; [|exact Hge].
  assert (Ht : gated c = true) by (apply gated_iff; now left). congruence.
Qed.

Lemma clean_response_nil : _clean_response [] = _fallback_response [] [].
Proof. reflexivity. Qed.

Lemma clean_response_signed (response : str) : signed (_clean_response response).
Proof.
  destruct response as [|x response].
  - rewrite clean_response_nil. apply fallback_response_signed.
  - rewrite clean_response_cases by discriminate.
    destruct (gated (cleaned_text (x :: response))) eqn:Hg;
      [apply fallback_response_signed|].
    destruct (has_signature (cleaned_text (x :: response))) eqn:Hs.
    + split; [exact Hs|]. now apply ungated_length.
    + apply signed_of_ending.
Qed.


Lemma generate_response_run (E : externals) (query context : str)
    (history : option (list exchange)) (st : machine) :
  let msgs := [(py "system", system_prompt);
               (py "user", _build_prompt query context history)] in
  let result :=
    reply_text (llm E (llm_calls st)
                    (sent_request msgs (3 # 10)%Q (9 # 10)%Q 800%Z)) in
  generate_response E query context history st
  = (Ok (match result with
         | Some r => if truthy r then _clean_response r
                     else _fallback_response query context
         | None => _fallback_response query context
         end),
     after_request st).
Proof.
  intros msgs result. unfold generate_response.
  rewrite (bind_ok _ (chat_run E msgs (3 # 10)%Q (9 # 10)%Q 800%Z st)).
  fold result. destruct result as [r|]; [|reflexivity].
  now destruct (truthy r).
Qed.

Lemma generate_response_returns_signed (E : externals) (query context : str)
    (history : option (list exchange)) (st : machine) :
  exists text,
    generate_response E query context history st = (Ok text, after_request st)
    /\ signed text.
Proof.
  pose proof (generate_response_run E query context history st) as Hrun.
  cbv zeta in Hrun. eexists. split; [exact Hrun|].
  destruct (reply_text _) as [[|c r]|]; cbn [truthy].
  - apply fallback_response_signed.
  - apply clean_response_signed.
  - apply fallback_response_signed.
Qed.

(** X7.  [generate_response] never raises and costs exactly one request.
    What it returns is the cleaned reply when the hosted model gave one
    that is not blank, and [_fallback_response query context] otherwise;
    either way the text matches [best regards.*techcorp.*service] and has
    at least 20 characters. *)
Theorem generate_response_always_answers :
  forall (E : externals) (query context : str)
         (history : option (list exchange)) (st : machine),
  exists (result : option str) (text : str),
    _chat E [(py "system", system_prompt);
             (py "user", _build_prompt query context history)]
          (3 # 10)%Q (9 # 10)%Q 800%Z st
    = (Ok result, after_request st)
    /\ generate_response E query context history st = (Ok text, after_request st)
    /\ (text_of result <> [] -> text = _clean_response (text_of result))
    /\ (text_of result = [] -> text = _fallback_response query context)
    /\ signed text.
Proof.
  intros E query context history st.
  pose proof (generate_response_run E query context history st) as Hrun.
  cbv zeta in Hrun. eexists. eexists.
  split; [apply chat_run|]. split; [exact Hrun|].
  destruct (reply_text _) as [[|c r]|]; cbn [text_of truthy].
  - split; [congruence|]. split; [reflexivity | apply fallback_response_signed].
  - split; [reflexivity|]. split; [discriminate | apply clean_response_signed].
  - split; [congruence|]. split; [reflexivity | apply fallback_response_signed].
Qed.

Lemma generate_response_from_prompt_run (E : externals) (prompt : str)
    (temperature : Q) (max_tokens : Z) (st : machine) :
  let msgs := [(py "system", system_prompt); (py "user", prompt)] in
  let result :=
    reply_text (llm E (llm_calls st)
                    (sent_request msgs temperature (9 # 10)%Q max_tokens)) in
  generate_response_from_prompt E prompt temperature max_tokens st
  = (Ok (_clean_response (text_of result)), after_request st).
Proof.
  intros msgs result. unfold generate_response_from_prompt.
  rewrite (bind_ok _ (chat_run E msgs temperature (9 # 10)%Q max_tokens st)).
  fold result. destruct result as [[|c r]|]; cbn [text_of truthy].
  - rewrite clean_response_nil.
    now rewrite (fallback_without_context (fallback_query prompt) [] eq_refl).
  - reflexivity.
  - rewrite clean_response_nil.
    now rewrite (fallback_without_context (fallback_query prompt) [] eq_refl).
Qed.

(** X8.  [generate_response_from_prompt] never raises and costs one
    request; what it returns is [_clean_response] of the reply, a missing
    or blank reply counting as the empty string.  Without a usable reply
    the text is therefore the one canned fallback, whatever the prompt,
    and in every case it matches [best regards.*techcorp.*service]. *)
Theorem generate_response_from_prompt_cleans_reply :
  forall (E : externals) (prompt : str) (temperature : Q) (max_tokens : Z)
         (st : machine),
  exists result : option str,
    _chat E [(py "system", system_prompt); (py "user", prompt)]
          temperature (9 # 10)%Q max_tokens st
    = (Ok result, after_request st)
    /\ generate_response_from_prompt E prompt temperature max_tokens st
       = (Ok (_clean_response (text_of result)), after_request st)
    /\ (text_of result = [] ->
        _clean_response (text_of result) = _fallback_response [] [])
    /\ signed (_clean_response (text_of result)).
Proof.
  intros E prompt temperature max_tokens st. eexists.
  split; [apply chat_run|].
  split; [apply generate_response_from_prompt_run|].
  split; [intros ->; apply clean_response_nil | apply clean_response_signed].
Qed.

Lemma canned_texts_signed :
  (signed canned_greeting /\ endswith signature canned_greeting = true
   /\ count_occ signature canned_greeting = 1)
  /\ (signed canned_farewell /\ endswith signature canned_farewell = true
      /\ count_occ signature canned_farewell = 1).
Proof.
  repeat split; try (vm_compute; reflexivity);
    apply Nat.leb_le; vm_compute; reflexivity.
Qed.

(** X9.  The greeting and the farewell of [GroqService] never raise and
    cost one request each, sent with temperature 0.5 and a limit of 150
    tokens.  Each returns the cleaned reply when the hosted model gave
    one that is not blank and its canned text otherwise; the canned texts
    end with the signature and hold it once, and whatever is returned
    matches [best regards.*techcorp.*service]. *)
Theorem greeting_and_farewell_fall_back_to_canned_text :
  forall (E : externals) (st : machine),
    (exists (result : option str) (text : str),
        _chat E greeting_messages (5 # 10)%Q (9 # 10)%Q 150%Z st
        = (Ok result, after_request st)
        /\ Groq.generate_greeting_response E st = (Ok text, after_request st)
        /\ (text_of result <> [] -> text = _clean_response (text_of result))
        /\ (text_of result = [] -> text = canned_greeting)
        /\ signed text)
    /\ (exists (result : option str) (text : str),
           _chat E farewell_messages (5 # 10)%Q (9 # 10)%Q 150%Z st
           = (Ok result, after_request st)
           /\ Groq.generate_farewell_response E st = (Ok text, after_request st)
           /\ (text_of result <> [] -> text = _clean_response (text_of result))
           /\ (text_of result = [] -> text = canned_farewell)
           /\ signed text)
    /\ endswith signature canned_greeting = true
    /\ count_occ signature canned_greeting = 1
    /\ endswith signature canned_farewell = true
    /\ count_occ signature canned_farewell = 1.
Proof.
  intros E st. destruct canned_texts_signed as [[Hg [Hge Hgc]] [Hf [Hfe Hfc]]].
  split; [|split; [|repeat split; assumption]].
  - pose proof (chat_run E greeting_messages (5 # 10)%Q (9 # 10)%Q 150%Z st) as Hc.
    unfold Groq.generate_greeting_response. rewrite (bind_ok _ Hc).
    destruct (reply_text _) as [[|c r]|]; cbn [text_of truthy]; eexists; eexists;
      (split; [exact Hc|]); (split; [reflexivity|]); cbn [text_of].
    + split; [congruence|]. split; [reflexivity | exact Hg].
    + split; [reflexivity|]. split; [discriminate | apply clean_response_signed].
    + split; [congruence|]. split; [reflexivity | exact Hg].
  - pose proof (chat_run E farewell_messages (5 # 10)%Q (9 # 10)%Q 150%Z st) as Hc.
    unfold Groq.generate_farewell_response. rewrite (bind_ok _ Hc).
    destruct (reply_text _) as [[|c r]|]; cbn [text_of truthy]; eexists; eexists;
      (split; [exact Hc|]); (split; [reflexivity|]); cbn [text_of].
    + split; [congruence|]. split; [reflexivity | exact Hf].
    + split; [reflexivity|]. split; [discriminate | apply clean_response_signed].
    + split; [congruence|]. split; [reflexivity | exact Hf].
Qed.

(** ** [generate_rag_response] *)

Lemma all_ok_raise {A} (l : list (outcome A)) :
  all_ok l = Raise <-> In Raise l.
Proof.
  induction l as [|[a|] l IH]; simpl.
  - split; [discriminate | intros []].
  - destruct (all_ok l) eqn:Hl.
    + split; [discriminate|]. intros [H|H]; [discriminate|].
      apply IH in H. discriminate.
    + split; [intros _; right; now apply IH | reflexivity].
  - split; [intros _; now left | reflexivity].
Qed.

Lemma firstn_nonempty {A} (n : nat) (x : A) (l : list A) :
  firstn (S n) (x :: l) = x :: firstn n l.
Proof. reflexivity. Qed.

(** The two ways through [generate_rag_response] for documents whose
    contents can be joined. *)
Lemma generate_rag_response_run (E : externals) (query : str) (doc : dict)
    (docs : list dict) (contents : list str) (st : machine) :
  all_ok (map (fun d => str_item d "content") (firstn 3 (doc :: docs))) = Ok contents ->
  exists response,
    generate_response E (rag_prompt (join [nl; nl] contents) query) [] None st
    = (Ok response, after_request st)
    /\ signed response
    /\ generate_rag_response E query (doc :: docs) st
       = (Ok (if negb (truthy response)
                 || (length (strip response) <? 30)
                 || re_match no_flags bold_header_pattern (strip response)
              then generate_fallback_response query
              else response),
          after_request st).
Proof.
  intros Hc.
  destruct (generate_response_returns_signed E
              (rag_prompt (join [nl; nl] contents) query) [] None st)
    as [response [Hrun Hsigned]].
  exists response. split; [exact Hrun|]. split; [exact Hsigned|].
  unfold generate_rag_response. rewrite Hc.
  unfold bind at 1. unfold lift at 1.
  unfold try_except. rewrite (bind_ok _ Hrun).
  destruct (negb (truthy response) || (length (strip response) <? 30)
            || re_match no_flags bold_header_pattern (strip response));
    reflexivity.
Qed.

(** X10.  [generate_rag_response] answers from the first three documents
    only, and without documents it returns the fallback text without a
    request to the hosted model. *)
Theorem generate_rag_response_reads_three_documents :
  forall (E : externals) (query : str) (context_docs : list dict) (st : machine),
    generate_rag_response E query context_docs st
    = generate_rag_response E query (firstn 3 context_docs) st
    /\ generate_rag_response E query [] st
       = (Ok (generate_fallback_response query), st).
Proof.
  intros E query docs st. split; [|reflexivity].
  destruct docs as [|doc docs]; [reflexivity|].
  assert (H : firstn 3 (doc :: docs) = doc :: firstn 2 docs) by reflexivity.
  rewrite H. unfold generate_rag_response. cbv beta iota zeta.
  rewrite <- H. rewrite (firstn_firstn (doc :: docs) 3 3). reflexivity.
Qed.

(** X11.  With documents, [generate_rag_response] raises exactly when one
    of the first three has no string under ["content"], and then before
    any request.  Otherwise it makes one request and returns either the
    fallback text or a reply of at least 30 characters after stripping
    that is no bare bold header. *)
Theorem generate_rag_response_outcomes :
  forall (E : externals) (query : str) (doc : dict) (docs : list dict)
         (st : machine),
    let context_docs := doc :: docs in
    ((exists d, In d (firstn 3 context_docs) /\ str_item d "content" = Raise)
     -> generate_rag_response E query context_docs st = (Raise, st))
    /\ ((forall d, In d (firstn 3 context_docs) -> str_item d "content" <> Raise)
        -> exists text,
             generate_rag_response E query context_docs st
             = (Ok text, after_request st)
             /\ (text = generate_fallback_response query
                 \/ (30 <= length (strip text)
                     /\ re_match no_flags bold_header_pattern (strip text) = false
                     /\ signed text))).
Proof.
  intros E query doc docs st context_docs. split.
  - intros [d [Hin Hd]].
    assert (Hr : all_ok (map (fun d => str_item d "content") (firstn 3 context_docs))
                 = Raise).
    { apply all_ok_raise. rewrite <- Hd.
      exact (in_map (fun d => str_item d "content") _ d Hin). }
    unfold context_docs in *. unfold generate_rag_response. now rewrite Hr.
  - intros Hall.
    destruct (all_ok (map (fun d => str_item d "content") (firstn 3 context_docs)))
      as [contents|] eqn:Hc.
    + destruct (generate_rag_response_run E query doc docs contents st Hc)
        as [response [_ [Hsigned Hrun]]].
      eexists. split; [exact Hrun|].
      destruct (negb (truthy response)) eqn:Ht; [now left|].
      destruct (length (strip response) <? 30) eqn:Hl; [now left|].
      destruct (re_match no_flags bold_header_pattern (strip response)) eqn:Hh;
        [now left|].
      right. apply Nat.ltb_ge in Hl. auto.
    + exfalso. apply all_ok_raise in Hc. apply in_map_iff in Hc as [d [Hd Hin]].
      exact (Hall d Hin Hd).
Qed.

Lemma generate_rag_response_outcomes_witness :
  exists text,
    generate_rag_response (Sample.externals_ok (Sample.constant_llm
        (py "Cloud migration starts at $2,500 per month.")))
      (py "How much is cloud migration?") Sample.two_chunks
      (Sample.machine_of Sample.indexed_service Sample.empty_fs)
    = (Ok text, after_request (Sample.machine_of Sample.indexed_service Sample.empty_fs))
    /\ (text = generate_fallback_response (py "How much is cloud migration?")
        \/ (30 <= length (strip text)
            /\ re_match no_flags bold_header_pattern (strip text) = false
            /\ signed text)).
Proof.
  apply (proj2 (generate_rag_response_outcomes
                  (Sample.externals_ok (Sample.constant_llm
                     (py "Cloud migration starts at $2,500 per month.")))
                  (py "How much is cloud migration?")
                  (Sample.chunk "Chunk 1" "Cloud migration starts at $2,500 per month.")
                  [Sample.chunk "Chunk 2" "Support is available 24/7."]
                  (Sample.machine_of Sample.indexed_service Sample.empty_fs))).
  intros d [<-|[<-|[]]]; discriminate.
Defined.

(** ** What a message costs *)

(** The vector search leaves the service, the files and the request
    counter alone. *)
Lemma search_documents_faiss_quiet (E : externals) (query : str) (top_k : Z)
    (st : machine) :
  exists results evs,
    search_documents_faiss E query top_k st
    = (Ok results, Mach (self st) (fs st) (llm_calls st) (trace st ++ evs)).
Proof.
  destruct (faiss_index (self st)) as [| |index] eqn:Hidx.
  1,2: destruct (search_documents_faiss_delegates E query top_k st) as [r Hr];
    [left; now rewrite Hidx | eauto].
  destruct (documents (self st)) as [|d ds] eqn:Hdocs.
  - destruct (search_documents_faiss_delegates E query top_k st) as [r Hr];
      [now right | eauto].
  - assert (Hne : documents (self st) <> []) by (rewrite Hdocs; discriminate).
    destruct (retrieve E index query top_k) as [docs|] eqn:Hret.
    + rewrite (search_documents_faiss_answers E query top_k st index docs Hidx Hne Hret).
      eauto.
    + destruct (search_documents_faiss_recovers E query top_k st index Hidx Hne Hret)
        as [r Hr]. eauto.
Qed.

Lemma generate_rag_response_quiet (E : externals) (query : str)
    (docs : list dict) (st : machine) :
  exists o st',
    generate_rag_response E query docs st = (o, st')
    /\ self st' = self st /\ fs st' = fs st /\ trace st' = trace st
    /\ llm_calls st <= llm_calls st' <= S (llm_calls st)
    /\ (docs <> [] -> o <> Raise -> llm_calls st' = S (llm_calls st)).
Proof.
  destruct docs as [|doc docs].
  - exists (Ok (generate_fallback_response query)), st.
    repeat split; try reflexivity; try lia. congruence.
  - destruct (all_ok (map (fun d => str_item d "content") (firstn 3 (doc :: docs))))
      as [contents|] eqn:Hc.
    + destruct (generate_rag_response_run E query doc docs contents st Hc)
        as [response [_ [_ Hrun]]].
      eexists. eexists. split; [exact Hrun|]. cbn. repeat split; lia.
    + exists Raise, st. split.
      * unfold generate_rag_response. now rewrite Hc.
      * repeat split; try reflexivity; try lia. congruence.
Qed.

Lemma answer_from_documents_quiet (E : externals) (message : str) (pdf : value)
    (st : machine) :
  exists o st',
    answer_from_documents E message pdf st = (o, st')
    /\ self st' = self st /\ fs st' = fs st
    /\ llm_calls st <= llm_calls st' <= S (llm_calls st)
    /\ (forall d, o = Ok d ->
                  shaped d
                  /\ (dict_get d "context_used" = Some (VBool true) ->
                      llm_calls st' = S (llm_calls st))).
Proof.
  unfold answer_from_documents.
  destruct (search_documents_faiss_quiet E message 3 st) as [docs [evs Hs]].
  rewrite (bind_ok _ Hs).
  destruct docs as [|doc docs].
  - eexists. eexists. split; [reflexivity|]. cbn [self fs llm_calls].
    repeat split; try lia.
    + intros k. injection H as <-. apply reply_has_keys.
    + injection H as <-. apply shaped_without_context. split; vm_compute; discriminate.
    + injection H as <-. cbn. discriminate.
  - destruct (generate_rag_response_quiet E message (doc :: docs)
                (Mach (self st) (fs st) (llm_calls st) (trace st ++ evs)))
      as [o [st2 [Hg [Hself [Hfs [_ [Hcalls Hone]]]]]]].
    cbn [self fs llm_calls] in Hself, Hfs, Hcalls, Hone.
    destruct o as [response|].
    + rewrite (bind_ok _ Hg).
      destruct (all_ok (map (fun d => num_of (similarity_of d)) (doc :: docs)))
        as [sims|] eqn:Hsims.
      * eexists. eexists. unfold bind, lift, ret. split; [reflexivity|].
        split; [exact Hself|]. split; [exact Hfs|]. split; [exact Hcalls|].
        intros d Hd. injection Hd as <-. split.
        -- apply shaped_with_context. discriminate.
        -- intros _. apply Hone; discriminate.
      * eexists. eexists. unfold bind, lift. split; [reflexivity|].
        split; [exact Hself|]. split; [exact Hfs|]. split; [exact Hcalls|].
        intros d Hd. discriminate.
    + rewrite (bind_raise _ Hg). eexists. eexists. split; [reflexivity|].
      split; [exact Hself|]. split; [exact Hfs|]. split; [exact Hcalls|].
      intros d Hd. discriminate.
Qed.

(** X12.  Answering a message never changes the service or the files.
    When a directory listing of [get_pdf_info] raises, [process_message]
    raises before any request is made.  Otherwise it returns, and has
    cost between one and four requests to the hosted model: two
    classifications, one relevance check and one generation at most.  A
    reply that used context took all four. *)
Theorem process_message_costs_at_most_four_requests :
  forall (E : externals) (message conversation_id : str) (st : machine),
    (listing_raises (fs st) = true ->
     process_message E message conversation_id st = (Raise, st))
    /\
    (listing_raises (fs st) = false ->
     exists d st',
       process_message E message conversation_id st = (Ok d, st')
       /\ self st' = self st
       /\ fs st' = fs st
       /\ llm_calls st < llm_calls st' <= llm_calls st + 4
       /\ (dict_get d "context_used" = Some (VBool true) ->
           llm_calls st' = llm_calls st + 4)).
Proof.
  intros E message conversation_id st.
  split; [apply process_message_raises|]. intros Hlist.
  unfold process_message.
  destruct (get_pdf_info_run st Hlist) as [info [Hinfo _]].
  rewrite (bind_ok _ Hinfo). cbv beta.
  destruct (is_greeting_run E message st) as [g Hg]. rewrite (bind_ok _ Hg).
  destruct g.
  { eexists. eexists. split; [reflexivity|]. cbn. repeat split; try lia. discriminate. }
  destruct (is_farewell_run E message
              (Mach (self st) (fs st) (S (llm_calls st)) (trace st))) as [f Hf].
  rewrite (bind_ok _ Hf). cbn [self fs llm_calls trace] in *.
  destruct f.
  { eexists. eexists. split; [reflexivity|]. cbn. repeat split; try lia. discriminate. }
  destruct (is_relevant_run E message
              (Mach (self st) (fs st) (S (S (llm_calls st))) (trace st))) as [v Hv].
  cbn [self fs llm_calls trace] in Hv.
  rewrite (bind_ok _ Hv). cbn [self fs llm_calls trace] in *.
  destruct (value_truthy v); cbn [negb].
  - destruct (answer_from_documents_quiet E message (pdf_available_of info)
                (Mach (self st) (fs st) (S (S (S (llm_calls st)))) (trace st)))
      as [o [st' [Ha [Hself [Hfs [Hcalls Hctx]]]]]].
    cbn [self fs llm_calls trace] in *.
    destruct o as [d|].
    + rewrite (try_except_ok _ Ha). exists d, st'.
      split; [reflexivity|]. split; [exact Hself|]. split; [exact Hfs|].
      split; [lia|]. intros Hc. destruct (Hctx d eq_refl) as [_ H]. specialize (H Hc). lia.
    + rewrite (try_except_raise _ Ha). eexists. eexists.
      split; [reflexivity|]. split; [exact Hself|]. split; [exact Hfs|].
      split; [lia|]. cbn. discriminate.
  - eexists. eexists. split; [reflexivity|]. cbn. repeat split; try lia. discriminate.
Qed.

Lemma process_message_costs_at_most_four_requests_witness :
  let E := Sample.externals_ok Sample.relevant_question_llm in
  let st := Sample.machine_of Sample.indexed_service Sample.empty_fs in
  exists d st',
    process_message E (py "What does it cost?") (py "c-1") st = (Ok d, st')
    /\ llm_calls st' <= 4.
Proof.
  intros E st.
  destruct (proj2 (process_message_costs_at_most_four_requests E
                     (py "What does it cost?") (py "c-1") st) eq_refl)
    as [d [st' [H [_ [_ [Hcalls _]]]]]].
  exists d, st'. split; [exact H|]. exact (proj2 Hcalls).
Defined.

(** ** Confidence on the vector path *)

Lemma numbered_results_cons (i : nat) (doc : Document) (docs : list Document) :
  numbered_results i (doc :: docs)
  = faiss_result i doc :: numbered_results (S i) docs.
Proof. reflexivity. Qed.

Lemma numbered_results_content (docs : list Document) :
  forall i,
    all_ok (map (fun d => str_item d "content") (numbered_results i docs))
    = Ok (map page_content docs).
Proof.
  induction docs as [|doc docs IH]; intros i; [reflexivity|].
  rewrite numbered_results_cons. cbn [map].
  change (str_item (faiss_result i doc) "content") with (Ok (page_content doc)).
  cbn [all_ok]. now rewrite IH.
Qed.

Lemma numbered_results_sims (docs : list Document) :
  forall i,
    all_ok (map (fun d => num_of (similarity_of d)) (numbered_results i docs))
    = Ok (map rank_similarity (seq i (length docs))).
Proof.
  induction docs as [|doc docs IH]; intros i; [reflexivity|].
  rewrite numbered_results_cons. cbn [map length seq].
  change (num_of (similarity_of (faiss_result i doc))) with (Ok (rank_similarity i)).
  cbn [all_ok]. now rewrite IH.
Qed.

Lemma firstn_numbered (n : nat) (docs : list Document) :
  forall i, firstn n (numbered_results i docs) = numbered_results i (firstn n docs).
Proof.
  revert docs. induction n as [|n IH]; intros docs i; [reflexivity|].
  destruct docs as [|doc docs]; [reflexivity|].
  rewrite numbered_results_cons. cbn [firstn]. rewrite numbered_results_cons.
  now rewrite IH.
Qed.

(** [min(0.95, max(0.7, mean))] of the scores of the first [n] ranks. *)
Lemma rank_confidence (n : nat) :
  1 <= n <= 6 ->
  (pymin (95 # 100) (pymax (7 # 10) (mean (map rank_similarity (seq 0 n))))
   == match n with 1%nat => 8 # 10 | 2%nat => 75 # 100 | _ => 7 # 10 end)%Q.
Proof.
  intros [Hlo Hhi].
  do 7 (destruct n as [|n]; [try lia; vm_compute; reflexivity|]). lia.
Qed.

(** The [try] body when the search has found documents whose contents
    and similarities can be read. *)
Lemma answer_from_documents_with_context (E : externals) (message : str)
    (pdf : value) (st st1 : machine) (result : dict) (results : list dict)
    (contents : list str) (sims : list Q) :
  search_documents_faiss E message 3 st = (Ok (result :: results), st1) ->
  all_ok (map (fun d => str_item d "content") (firstn 3 (result :: results)))
  = Ok contents ->
  all_ok (map (fun d => num_of (similarity_of d)) (result :: results)) = Ok sims ->
  exists response,
    answer_from_documents E message pdf st
    = (Ok (reply response (pymin (95 # 100) (pymax (7 # 10) (mean sims))) true
                 (map source_of (result :: results))
                 (generate_suggested_responses message (result :: results)) pdf),
       after_request st1).
Proof.
  intros Hs Hc Hsims.
  destruct (generate_rag_response_run E message result results contents st1 Hc)
    as [response [_ [_ Hrun]]].
  eexists. unfold answer_from_documents.
  rewrite (bind_ok _ Hs). rewrite (bind_ok _ Hrun). rewrite Hsims.
  reflexivity.
Qed.

(** X13.  For a message that is neither greeting nor farewell and is
    judged relevant, when the listings of [get_pdf_info] answer, the index
    is in place and the retriever returns documents, the reply uses
    context, and its confidence is a function of the number of retrieved
    documents alone, whatever the message, the documents and the model's
    reply are; it lies between 0.7 and 0.8.  The sources are those of the
    ranked documents, and four requests were made. *)
Theorem vector_answers_have_count_based_confidence :
  exists by_count : nat -> Q,
    (forall n, (7 # 10 <= by_count n <= 8 # 10)%Q)
    /\
    forall (E : externals) (message conversation_id : str)
           (st st1 st2 st3 : machine) (relevant : value) (index : vectorstore)
           (docs : list Document),
      listing_raises (fs st) = false ->
      is_greeting E message st = (Ok false, st1) ->
      is_farewell E message st1 = (Ok false, st2) ->
      is_relevant_to_company E message st2 = (Ok relevant, st3) ->
      value_truthy relevant = true ->
      faiss_index (self st) = Present index ->
      documents (self st) <> [] ->
      retrieve E index message 3 = Ok docs ->
      docs <> [] ->
      exists d st' confidence,
        process_message E message conversation_id st = (Ok d, st')
        /\ dict_get d "context_used" = Some (VBool true)
        /\ dict_get d "confidence" = Some (VNum confidence)
        /\ (confidence == by_count (length docs))%Q
        /\ dict_get d "sources" = Some (VList (map source_of (rank_retrieved docs)))
        /\ llm_calls st' = llm_calls st + 4.
Proof.
  exists (fun n => match n with
                   | 1%nat => 8 # 10 | 2%nat => 75 # 100 | _ => 7 # 10
                   end)%Q.
  split.
  { intros [|[|[|n]]]; split; vm_compute; discriminate. }
  intros E message conversation_id st st1 st2 st3 relevant index docs
         Hlist Hg Hf Hv Ht Hidx Hdocs Hret Hne.
  destruct (get_pdf_info_run st Hlist) as [info [Hinfo _]].
  destruct (is_greeting_run E message st) as [g Hg']. rewrite Hg in Hg'.
  injection Hg' as _ ->.
  destruct (is_farewell_run E message
              (Mach (self st) (fs st) (S (llm_calls st)) (trace st))) as [f Hf'].
  rewrite Hf in Hf'. injection Hf' as _ ->. cbn [self fs llm_calls trace] in *.
  destruct (is_relevant_run E message
              (Mach (self st) (fs st) (S (S (llm_calls st))) (trace st))) as [v Hv'].
  rewrite Hv in Hv'. injection Hv' as _ ->. cbn [self fs llm_calls trace] in *.
  set (st3 := Mach (self st) (fs st) (S (S (S (llm_calls st)))) (trace st)) in *.
  pose proof (search_documents_faiss_answers E message 3 st3 index docs Hidx Hdocs Hret)
    as Hs.
  rewrite rank_retrieved_spec in Hs |- *.
  destruct docs as [|doc docs]; [congruence|].
  change (firstn 6 (doc :: docs)) with (doc :: firstn 5 docs) in Hs |- *.
  rewrite numbered_results_cons in Hs.
  destruct (answer_from_documents_with_context E message (pdf_available_of info)
              st3 _ _ _
              (map page_content (firstn 3 (doc :: firstn 5 docs)))
              (map rank_similarity (seq 0 (length (doc :: firstn 5 docs)))) Hs)
    as [response Ha].
  { rewrite <- numbered_results_cons, firstn_numbered.
    apply numbered_results_content. }
  { rewrite <- numbered_results_cons. apply numbered_results_sims. }
  eexists. eexists. eexists. split.
  - unfold process_message.
    rewrite (bind_ok _ Hinfo), (bind_ok _ Hg), (bind_ok _ Hf), (bind_ok _ Hv).
    rewrite Ht. cbn [negb]. rewrite (try_except_ok _ Ha). reflexivity.
  - split; [reflexivity|]. split; [reflexivity|]. split; [|split].
    + assert (Hlen : length (doc :: firstn 5 docs) = Nat.min (length (doc :: docs)) 6).
      { cbn [length]. rewrite length_firstn. lia. }
      rewrite Hlen.
      rewrite (rank_confidence (Nat.min (length (doc :: docs)) 6))
        by (cbn [length]; lia).
      cbn [length].
      destruct (length docs) as [|[|[|[|[|[|n]]]]]]; reflexivity.
    + rewrite numbered_results_cons. reflexivity.
    + cbn. lia.
Qed.

Lemma vector_answers_have_count_based_confidence_witness :
  let E := Sample.externals_ok Sample.relevant_question_llm in
  let st := Sample.machine_of Sample.indexed_service Sample.empty_fs in
  exists d st' confidence,
    process_message E (py "What does it cost?") (py "c-1") st = (Ok d, st')
    /\ dict_get d "confidence" = Some (VNum confidence)
    /\ (7 # 10 <= confidence <= 8 # 10)%Q.
Proof.
  intros E st.
  destruct vector_answers_have_count_based_confidence as [by_count [Hbounds Hruns]].
  destruct (Hruns E (py "What does it cost?") (py "c-1") st
              (Mach Sample.indexed_service Sample.empty_fs 1 [])
              (Mach Sample.indexed_service Sample.empty_fs 2 [])
              (Mach Sample.indexed_service Sample.empty_fs 3 [])
              (VBool true) Sample.store [Sample.doc_a; Sample.doc_b])
    as [d [st' [c [H [_ [Hc [Hq _]]]]]]];
    try (vm_compute; reflexivity); try discriminate.
  exists d, st', c. split; [exact H|]. split; [exact Hc|].
  rewrite Hq. apply Hbounds.
Defined.

(** ** [get_pdf_info] *)

Lemma files_of_strs (l : list str) :
  flat_map (fun v => match v with VStr s => [s] | _ => [] end) (map VStr l) = l.
Proof. induction l as [|x l IH]; simpl; [reflexivity | now rewrite IH]. Qed.

Lemma filter_all {A} (f : A -> bool) (l : list A) :
  Forall (fun x => f x = true) (filter f l).
Proof. apply Forall_forall. intros x H. now apply filter_In in H. Qed.

(** X14.  [get_pdf_info] leaves the state alone.  It raises exactly
    when [os.listdir] raises: on the project root, or, with no PDF in the
    root, on a [company_documents] that exists.  Otherwise it lists, in
    directory order, the files whose names end in [.pdf]: those of the
    project root when there are any, otherwise those of
    [company_documents].  ["available"] is true exactly when the list is
    not empty, and without PDFs the dictionary has neither ["files"] nor
    ["directory"]. *)
Theorem get_pdf_info_lists_pdf_files :
  forall st : machine,
    snd (get_pdf_info st) = st
    /\ (fst (get_pdf_info st) = Raise <-> listing_raises (fs st) = true)
    /\ forall listing : list str,
         root_files (fs st) = Ok listing ->
         listing_raises (fs st) = false ->
         let in_root := filter is_pdf listing in
         let in_subdirectory :=
           match company_documents (fs st) with
           | Some (Ok listing') => filter is_pdf listing'
           | _ => []
           end in
         exists info,
           get_pdf_info st = (Ok info, st)
           /\ files_of info
              = match in_root with [] => in_subdirectory | _ :: _ => in_root end
           /\ Forall (fun f => endswith (py ".pdf") f = true) (files_of info)
           /\ pdf_available_of info
              = VBool (match files_of info with [] => false | _ :: _ => true end)
           /\ (files_of info <> [] ->
               str_item info "directory"
               = Ok (match in_root with
                     | [] => path_join project_root (py "company_documents")
                     | _ :: _ => project_root
                     end)
               /\ dict_get info "message"
                  = Some (VStr (pdf_message (length (files_of info)))))
           /\ (files_of info = [] ->
               dict_has info "files" = false /\ dict_has info "directory" = false).
Proof.
  intros st.
  assert (Hnone : files_of
                    [kv "available" (VBool false);
                     kv "message" (VStr (py "No PDF documents found. Run generate_company_pdf.py to create one."))]
                  = []) by reflexivity.
  assert (Hsome : forall l directory,
             files_of [kv "available" (VBool true); kv "files" (strs l);
                       kv "directory" (VStr directory);
                       kv "message" (VStr (pdf_message (length l)))]
             = l).
  { intros l directory. unfold files_of. cbn. apply files_of_strs. }
  split; [|split].
  - destruct (listing_raises (fs st)) eqn:Hlist.
    + now rewrite (get_pdf_info_raises st Hlist).
    + destruct (get_pdf_info_run st Hlist) as [info [Hinfo _]]. now rewrite Hinfo.
  - destruct (listing_raises (fs st)) eqn:Hlist.
    + rewrite (get_pdf_info_raises st Hlist). split; reflexivity.
    + destruct (get_pdf_info_run st Hlist) as [info [Hinfo _]]. rewrite Hinfo.
      split; discriminate.
  - intros listing Hroot Hlist in_root in_subdirectory.
    unfold listing_raises in Hlist. rewrite Hroot in Hlist.
    unfold get_pdf_info, bind, get_fs, lift, ret. cbn [fs]. rewrite Hroot.
    fold in_root in Hlist |- *. destruct in_root as [|f rest] eqn:Hin.
    + unfold in_subdirectory.
      destruct (company_documents (fs st)) as [[listing'|]|]; [| discriminate |].
      * destruct (filter is_pdf listing') as [|g more] eqn:Hsub.
        -- eexists. split; [reflexivity|]. rewrite Hnone.
           split; [reflexivity|]. split; [constructor|]. split; [reflexivity|].
           split; [congruence | intros _; split; reflexivity].
        -- eexists. split; [reflexivity|]. rewrite Hsome.
           split; [reflexivity|]. split; [rewrite <- Hsub; apply filter_all|].
           split; [reflexivity|]. split; [intros _; split; reflexivity | discriminate].
      * eexists. split; [reflexivity|]. rewrite Hnone.
        split; [reflexivity|]. split; [constructor|]. split; [reflexivity|].
        split; [congruence | intros _; split; reflexivity].
    + eexists. split; [reflexivity|]. rewrite Hsome. split; [reflexivity|].
      split; [rewrite <- Hin; apply filter_all|].
      split; [reflexivity|]. split; [intros _; split; reflexivity | discriminate].
Qed.

Lemma get_pdf_info_lists_pdf_files_witness :
  exists info,
    get_pdf_info (Sample.machine_of Sample.indexed_service Sample.brochure_fs)
    = (Ok info, Sample.machine_of Sample.indexed_service Sample.brochure_fs)
    /\ files_of info = [py "company.pdf"].
Proof.
  destruct (proj2 (proj2 (get_pdf_info_lists_pdf_files
                     (Sample.machine_of Sample.indexed_service Sample.brochure_fs)))
              [py "README.md"; py "company.pdf"] eq_refl eq_refl)
    as [info [Hrun [Hfiles _]]].
  exists info. split; [exact Hrun | exact Hfiles].
Defined.

(** ** Rebuilding the index *)

Lemma classic_indexable (E : externals) (st : machine) (pdf_path : str) :
  (exists v, indexable E st pdf_path v) \/ ~ (exists v, indexable E st pdf_path v).
Proof.
  unfold indexable.
  destruct (pdf_pages (fs st) pdf_path) as [pages|] eqn:Hpages;
    [|right; intros [v [pages [dim [H _]]]]; discriminate].
  destruct (from_texts E (split_text E (join [nl; nl] (kept_texts pages))))
    as [v|] eqn:Hstore.
  - destruct (save_local E v (index_path_of (self st))) eqn:Hsave.
    + destruct (embed_dim E) as [dim|] eqn:Hdim.
      * left. exists v, pages, dim. auto.
      * right. intros [v' [pages' [dim [_ [_ [_ H]]]]]]. discriminate.
    + right. intros [v' [pages' [dim [Hp [Hs [Hsv _]]]]]].
      injection Hp as <-. rewrite Hstore in Hs. injection Hs as <-. congruence.
  - right. intros [v' [pages' [dim [Hp [Hs _]]]]].
    injection Hp as <-. congruence.
Qed.

(** [process_pdf_and_index] returns exactly when the PDF is indexable. *)
Lemma process_pdf_and_index_raises (E : externals) (pdf_path : str) (st : machine) :
  (~ exists v, indexable E st pdf_path v) ->
  exists st', process_pdf_and_index E pdf_path st = (Raise, st').
Proof.
  intros Hno. unfold process_pdf_and_index.
  unfold bind at 1. cbn [emit].
  unfold bind at 1. cbn [get_fs fs].
  unfold bind at 1. unfold lift at 1.
  destruct (pdf_pages (fs st) pdf_path) as [pages|] eqn:Hpages; [|eauto].
  unfold bind at 1. unfold lift at 1. rewrite page_contents.
  unfold bind at 1. cbn [emit].
  unfold bind at 1. unfold lift at 1.
  destruct (from_texts E (split_text E (join [nl; nl] (kept_texts pages))))
    as [v|] eqn:Hstore; [|eauto].
  unfold bind at 1. cbn [get_self self].
  destruct (save_local E v (index_path_of (self st))) eqn:Hsave;
    [|unfold bind, raise; eauto].
  destruct (embed_dim E) as [dim|] eqn:Hdim.
  - exfalso. apply Hno. exists v, pages, dim. auto.
  - unfold bind, emit, modify_fs, modify_self, lift. cbn. eauto.
Qed.

Lemma first_pdf_unlisted (f : filesystem) :
  listing_raises f = true -> first_pdf f = None.
Proof.
  unfold listing_raises, first_pdf.
  destruct (root_files f) as [in_root|]; [|reflexivity].
  destruct (filter is_pdf in_root); [|discriminate].
  destruct (company_documents f) as [[listing|]|]; try discriminate.
  reflexivity.
Qed.

Lemma get_pdf_info_first_pdf (st : machine) :
  listing_raises (fs st) = false ->
  exists info,
    get_pdf_info st = (Ok info, st)
    /\ match first_pdf (fs st) with
       | Some pdf_path =>
           value_truthy (pdf_available_of info) = true
           /\ exists pdf_file rest directory,
                files_of info = pdf_file :: rest
                /\ str_item info "directory" = Ok directory
                /\ pdf_path = path_join directory pdf_file
       | None =>
           value_truthy (pdf_available_of info) = false /\ files_of info = []
       end.
Proof.
  assert (Hsome : forall l directory,
             files_of [kv "available" (VBool true); kv "files" (strs l);
                       kv "directory" (VStr directory);
                       kv "message" (VStr (pdf_message (length l)))]
             = l).
  { intros l directory. unfold files_of. cbn. apply files_of_strs. }
  unfold listing_raises, get_pdf_info, first_pdf, bind, get_fs, lift, ret.
  cbn [fs].
  destruct (root_files (fs st)) as [in_root|]; [|discriminate].
  destruct (filter is_pdf in_root) as [|f rest].
  - destruct (company_documents (fs st)) as [[listing|]|]; intros Hlist;
      try discriminate.
    + destruct (filter is_pdf listing) as [|g more].
      * eexists. split; [reflexivity|]. split; reflexivity.
      * eexists. split; [reflexivity|]. split; [reflexivity|].
        exists g, more. eexists. rewrite Hsome. repeat split; reflexivity.
    + eexists. split; [reflexivity|]. split; reflexivity.
  - intros _. eexists. split; [reflexivity|]. split; [reflexivity|].
    exists f, rest. eexists. rewrite Hsome. repeat split; reflexivity.
Qed.

Lemma rebuild_faiss_index_run (E : externals) (st : machine) :
  rebuild_faiss_index E st
  = match first_pdf (fs st) with
    | Some pdf_path =>
        try_except (process_pdf_and_index E pdf_path ;;; ret true)%M (ret false) st
    | None => (Ok false, st)
    end.
Proof.
  destruct (listing_raises (fs st)) eqn:Hlist.
  { rewrite (first_pdf_unlisted _ Hlist). unfold rebuild_faiss_index, try_except.
    now rewrite (bind_raise _ (get_pdf_info_raises st Hlist)). }
  destruct (get_pdf_info_first_pdf st Hlist) as [info [Hinfo Hfirst]].
  unfold rebuild_faiss_index.
  destruct (first_pdf (fs st)) as [pdf_path|].
  - destruct Hfirst as [Hav [pdf_file [rest [directory [Hfiles [Hdir ->]]]]]].
    unfold try_except. rewrite (bind_ok _ Hinfo). rewrite Hav, Hfiles.
    unfold bind at 1. unfold lift at 1. rewrite Hdir. reflexivity.
  - destruct Hfirst as [Hav Hfiles].
    unfold try_except. rewrite (bind_ok _ Hinfo). now rewrite Hav.
Qed.

(** X15.  [rebuild_faiss_index] never raises.  It returns [True] exactly
    when [get_pdf_info] lists a PDF and the first one listed can be
    read, indexed and saved; the service then holds the new vector store
    and one entry per chunk, and the store is on disk under
    [knowledge_base_path/faiss_index].  Without a PDF it returns [False]
    and changes nothing. *)
Theorem rebuild_faiss_index_reports_success :
  forall (E : externals) (st : machine),
  exists (b : bool) (st' : machine),
    rebuild_faiss_index E st = (Ok b, st')
    /\ (b = true
        <-> exists pdf_path v, first_pdf (fs st) = Some pdf_path
                               /\ indexable E st pdf_path v)
    /\ (forall pdf_path v,
           first_pdf (fs st) = Some pdf_path -> indexable E st pdf_path v ->
           faiss_index (self st') = Present v
           /\ documents (self st') = chunk_dicts 0 (pdf_chunks E st pdf_path)
           /\ index_at (fs st') (index_path_of (self st)) = Some (Readable v))
    /\ (first_pdf (fs st) = None -> b = false /\ st' = st).
Proof.
  intros E st. rewrite rebuild_faiss_index_run.
  destruct (first_pdf (fs st)) as [pdf_path|] eqn:Hfirst.
  - destruct (process_pdf_and_index E pdf_path st) as [[[]|] st1] eqn:Hp.
    + exists true, st1. unfold try_except. rewrite (bind_ok _ Hp).
      split; [reflexivity|].
      destruct (classic_indexable E st pdf_path) as [[v Hv]|Hno].
      * pose proof Hv as [pages [dim [Hpages [Hstore [Hsave Hdim]]]]].
        pose proof (process_pdf_and_index_run E pdf_path st pages v dim
                      Hpages Hstore Hsave Hdim) as Hrun.
        cbv zeta in Hrun. rewrite Hp in Hrun. injection Hrun as ->.
        split; [split; [intros _; exists pdf_path, v; auto | reflexivity]|].
        split; [|discriminate].
        intros p v' Hp' Hv'. injection Hp' as <-.
        destruct Hv' as [pages' [dim' [Hpages' [Hstore' _]]]].
        rewrite Hpages in Hpages'. injection Hpages' as <-.
        rewrite Hstore in Hstore'. injection Hstore' as <-.
        cbn [self fs faiss_index documents].
        split; [reflexivity|]. split; [|apply write_index_read].
        unfold pdf_chunks. now rewrite Hpages.
      * destruct (process_pdf_and_index_raises E pdf_path st Hno) as [st2 Hr].
        congruence.
    + exists false, st1. unfold try_except. rewrite (bind_raise _ Hp).
      split; [reflexivity|].
      assert (Hno : ~ exists v, indexable E st pdf_path v).
      { intros [v [pages [dim [Hpages [Hstore [Hsave Hdim]]]]]].
        pose proof (process_pdf_and_index_run E pdf_path st pages v dim
                      Hpages Hstore Hsave Hdim) as Hrun.
        cbv zeta in Hrun. congruence. }
      split; [split; [discriminate|]|].
      * intros [p [v [Hp' Hv]]]. injection Hp' as <-. exfalso. apply Hno. now exists v.
      * split; [|discriminate]. intros p v Hp' Hv. injection Hp' as <-.
        exfalso. apply Hno. now exists v.
  - exists false, st. split; [reflexivity|].
    split; [split; [discriminate | intros [p [v [H _]]]; discriminate]|].
    split; [intros p v H; discriminate | auto].
Qed.

(** ** Uploaded documents *)

Lemma build_vectors_run (E : externals) (st : machine) :
  build_vectors E st
  = match documents (self st) with
    | [] => (Ok tt, st)
    | _ :: _ =>
        match processed_contents (documents (self st)) with
        | Ok texts =>
            match fit_transform E texts with
            | Ok v => (Ok tt, Mach (set_document_vectors (Some v) (self st))
                                   (fs st) (llm_calls st) (trace st))
            | Raise => (Raise, st)
            end
        | Raise => (Raise, st)
        end
    end.
Proof.
  unfold build_vectors, processed_contents, bind, get_self, lift, modify_self.
  destruct (documents (self st)) as [|d ds]; [reflexivity|].
  destruct (all_ok _) as [texts|]; [|reflexivity].
  now destruct (fit_transform E texts).
Qed.

Lemma part_dicts_nth (title : str) (chunks : list str) :
  forall i n chunk,
    nth_error chunks n = Some chunk ->
    nth_error (part_dicts title i chunks) n = Some (part_entry title (i + n) chunk).
Proof.
  induction chunks as [|c chunks IH]; intros i n chunk H.
  - now destruct n.
  - destruct n as [|n]; cbn [part_dicts nth_error] in *.
    + injection H as ->. now rewrite Nat.add_0_r.
    + rewrite (IH (S i) n chunk H). now rewrite Nat.add_succ_r.
Qed.

Lemma part_dicts_length (title : str) (chunks : list str) :
  forall i, length (part_dicts title i chunks) = length chunks.
Proof. induction chunks; intros i; simpl; [reflexivity | now rewrite IHchunks]. Qed.

Lemma add_document_content_run (E : externals) (title content : str) (st : machine) :
  let docs := documents (self st) ++ part_dicts title 0 (split_text E content) in
  let st1 := Mach (set_documents docs (self st)) (fs st) (llm_calls st) (trace st) in
  add_document_content E title content st
  = match docs with
    | [] => (Ok tt, st1)
    | _ :: _ =>
        match processed_contents docs with
        | Ok texts =>
            match fit_transform E texts with
            | Ok v => (Ok tt, Mach (set_document_vectors (Some v) (self st1))
                                   (fs st) (llm_calls st) (trace st))
            | Raise => (Raise, st1)
            end
        | Raise => (Raise, st1)
        end
    end.
Proof.
  intros docs st1. unfold add_document_content.
  unfold bind, modify_self. fold docs. fold st1.
  rewrite build_vectors_run. reflexivity.
Qed.

Lemma add_document_content_documents (E : externals) (title content : str)
    (st : machine) :
  exists o st',
    add_document_content E title content st = (o, st')
    /\ documents (self st')
       = documents (self st) ++ part_dicts title 0 (split_text E content).
Proof.
  pose proof (add_document_content_run E title content st) as Hrun.
  cbv zeta in Hrun. rewrite Hrun.
  destruct (documents (self st) ++ part_dicts title 0 (split_text E content))
    as [|d ds] eqn:Hdocs.
  - eexists. eexists. split; [reflexivity|]. reflexivity.
  - destruct (processed_contents (d :: ds)) as [texts|].
    + destruct (fit_transform E texts); eexists; eexists; (split; [reflexivity|]);
        reflexivity.
    + eexists. eexists. split; [reflexivity|]. reflexivity.
Qed.

(** X16.  [add_document_content] appends one entry per chunk to the
    documents, titled [<title> - Part i], with the pre-processed chunk
    beside the chunk, and keeps what was there; it does so also when it
    then raises, which it does exactly when the TF-IDF vectors cannot be
    built over the whole list: a document without a string under
    ["processed_content"], or a failing vectoriser.  When it returns and
    the list is not empty the vectors are those of the whole list.  The
    vector index and the files are never touched. *)
Theorem add_document_content_appends_chunks :
  forall (E : externals) (title content : str) (st : machine),
    let chunks := split_text E content in
    exists (o : outcome unit) (st' : machine),
      add_document_content E title content st = (o, st')
      /\ documents (self st') = documents (self st) ++ part_dicts title 0 chunks
      /\ (forall i chunk,
             nth_error chunks i = Some chunk ->
             nth_error (documents (self st')) (length (documents (self st)) + i)
             = Some (part_entry title i chunk))
      /\ faiss_index (self st') = faiss_index (self st)
      /\ fs st' = fs st
      /\ (o = Raise
          <-> documents (self st') <> []
              /\ ~ exists v, vectorisable E (documents (self st')) v)
      /\ (o = Ok tt -> documents (self st') <> [] ->
          exists v, vectorisable E (documents (self st')) v
                    /\ document_vectors (self st') = Some v).
Proof.
  intros E title content st chunks.
  pose proof (add_document_content_run E title content st) as Hrun.
  cbv zeta in Hrun. fold chunks in Hrun.
  assert (Hnth : forall i chunk,
             nth_error chunks i = Some chunk ->
             nth_error (documents (self st) ++ part_dicts title 0 chunks)
                       (length (documents (self st)) + i)
             = Some (part_entry title i chunk)).
  { intros i chunk Hi. rewrite nth_error_app2 by lia.
    replace (length (documents (self st)) + i - length (documents (self st))) with i
      by lia.
    exact (part_dicts_nth title chunks 0 i chunk Hi). }
  destruct (documents (self st) ++ part_dicts title 0 chunks) as [|d ds] eqn:Hdocs.
  - eexists. eexists. split; [exact Hrun|]. cbn [self fs documents faiss_index set_documents].
    split; [reflexivity|]. split; [exact Hnth|]. split; [reflexivity|].
    split; [reflexivity|]. split; [split; [discriminate | intros [H _]; congruence]|].
    congruence.
  - destruct (processed_contents (d :: ds)) as [texts|] eqn:Htexts.
    + destruct (fit_transform E texts) as [v|] eqn:Hfit.
      * eexists. eexists. split; [exact Hrun|].
        cbn [self fs documents faiss_index set_documents set_document_vectors
             document_vectors].
        split; [reflexivity|]. split; [exact Hnth|]. split; [reflexivity|].
        split; [reflexivity|]. split.
        -- split; [discriminate|]. intros [_ Hno]. exfalso. apply Hno.
           exists v, texts. auto.
        -- intros _ _. exists v. split; [exists texts; auto | reflexivity].
      * eexists. eexists. split; [exact Hrun|].
        cbn [self fs documents faiss_index set_documents].
        split; [reflexivity|]. split; [exact Hnth|]. split; [reflexivity|].
        split; [reflexivity|]. split; [|discriminate].
        split; [|reflexivity]. intros _. split; [discriminate|].
        intros [v [texts' [Ht Hf]]]. congruence.
    + eexists. eexists. split; [exact Hrun|].
      cbn [self fs documents faiss_index set_documents].
      split; [reflexivity|]. split; [exact Hnth|]. split; [reflexivity|].
      split; [reflexivity|]. split; [|discriminate].
      split; [|reflexivity]. intros _. split; [discriminate|].
      intros [v [texts' [Ht Hf]]]. congruence.
Qed.

Lemma add_document_run (E : externals) (error_text : str) (file : upload)
    (st : machine) :
  add_document E error_text file st
  = match decoded file with
    | Ok content =>
        match add_document_content E (filename file) content st with
        | (Ok _, st') => (Ok (upload_succeeded file content), st')
        | (Raise, st') => (Ok (upload_failed file error_text), st')
        end
    | Raise => (Ok (upload_failed file error_text), st)
    end.
Proof.
  unfold add_document, try_except, bind, lift, ret.
  destruct (decoded file) as [content|]; [|reflexivity].
  now destruct (add_document_content E (filename file) content st) as [[[]|] st'].
Qed.

(** X17.  [add_document] never raises.  When the upload cannot be decoded
    it reports an error and changes nothing.  Otherwise the chunks are
    appended whatever the status; the status is ["success"], with the
    number of characters as size, exactly when [add_document_content]
    returned, and ["error"] with the text of the exception otherwise. *)
Theorem add_document_reports_status :
  forall (E : externals) (error_text : str) (file : upload) (st : machine),
  exists (d : dict) (st' : machine),
    add_document E error_text file st = (Ok d, st')
    /\ dict_get d "filename" = Some (VStr (filename file))
    /\ (decoded file = Raise -> st' = st /\ d = upload_failed file error_text)
    /\ (forall content,
           decoded file = Ok content ->
           documents (self st')
           = documents (self st)
             ++ part_dicts (filename file) 0 (split_text E content)
           /\ (fst (add_document_content E (filename file) content st) = Ok tt ->
               d = upload_succeeded file content
               /\ dict_get d "status" = Some (VStr (py "success"))
               /\ dict_get d "size" = Some (num (length content)))
           /\ (fst (add_document_content E (filename file) content st) = Raise ->
               d = upload_failed file error_text
               /\ dict_get d "status" = Some (VStr (py "error"))
               /\ dict_get d "error" = Some (VStr error_text))).
Proof.
  intros E error_text file st. rewrite add_document_run.
  destruct (decoded file) as [content|] eqn:Hdec.
  - destruct (add_document_content_documents E (filename file) content st)
      as [o [st' [Hrun Hdocs]]].
    rewrite Hrun. destruct o as [[]|].
    + eexists. eexists. split; [reflexivity|]. split; [reflexivity|].
      split; [discriminate|]. intros c Hc. injection Hc as <-.
      split; [exact Hdocs|]. rewrite Hrun. cbn [fst].
      split; [intros _; repeat split | discriminate].
    + eexists. eexists. split; [reflexivity|]. split; [reflexivity|].
      split; [discriminate|]. intros c Hc. injection Hc as <-.
      split; [exact Hdocs|]. rewrite Hrun. cbn [fst].
      split; [discriminate | intros _; repeat split].
  - eexists. eexists. split; [reflexivity|]. split; [reflexivity|].
    split; [auto | discriminate].
Qed.

Lemma all_ok_head_raise {A} (l : list (outcome A)) : all_ok (Raise :: l) = Raise.
Proof. reflexivity. Qed.

Lemma vector_pipeline_not_vectorisable (E : externals) (docs more : list dict) :
  from_vector_pipeline docs -> docs <> [] ->
  processed_contents (docs ++ more) = Raise.
Proof.
  intros [[chunks ->]|[v ->]] Hne.
  - destruct chunks as [|c chunks]; [now contradiction Hne|]. reflexivity.
  - unfold docstore_dicts in *.
    induction (docstore v) as [|[i [d|]] l IH].
    + now contradiction Hne.
    + reflexivity.
    + cbn [flat_map app] in *. now apply IH.
Qed.

(** X18.  Once the documents of the service are those of the vector
    pipeline, every upload that can be decoded is reported as an error,
    although its chunks are appended: the TF-IDF vectors cannot be built
    over entries without ["processed_content"], so they stay as they
    were. *)
Theorem upload_after_indexing_reports_error :
  forall (E : externals) (error_text : str) (file : upload) (content : str)
         (st : machine),
    from_vector_pipeline (documents (self st)) ->
    documents (self st) <> [] ->
    decoded file = Ok content ->
    exists st',
      add_document E error_text file st = (Ok (upload_failed file error_text), st')
      /\ documents (self st')
         = documents (self st)
           ++ part_dicts (filename file) 0 (split_text E content)
      /\ document_vectors (self st') = document_vectors (self st)
      /\ faiss_index (self st') = faiss_index (self st).
Proof.
  intros E error_text file content st Hpipe Hne Hdec.
  rewrite add_document_run, Hdec.
  pose proof (add_document_content_run E (filename file) content st) as Hrun.
  cbv zeta in Hrun.
  rewrite (vector_pipeline_not_vectorisable E _ _ Hpipe Hne) in Hrun.
  destruct (documents (self st)) as [|d ds] eqn:Hdocs; [congruence|].
  cbn [app] in Hrun. rewrite Hrun.
  eexists. split; [reflexivity|]. cbn. auto.
Qed.

Lemma upload_after_indexing_reports_error_witness :
  let E := Sample.externals_ok (Sample.constant_llm []) in
  let st := Sample.machine_of
              (Rag (chunk_dicts 0 [py "Cloud migration starts at $2,500 per month."])
                   None initial_knowledge_base_path (Present Sample.store) (Present 384))
              Sample.empty_fs in
  let file := Upload (py "faq.txt") (Ok (py "Support is available 24/7.")) in
  exists st',
    add_document E (py "'processed_content'") file st
    = (Ok (upload_failed file (py "'processed_content'")), st')
    /\ length (documents (self st')) = 2.
Proof.
  intros E st file.
  destruct (upload_after_indexing_reports_error E (py "'processed_content'") file
              (py "Support is available 24/7.") st)
    as [st' [Hrun [Hdocs _]]].
  - left. now exists [py "Cloud migration starts at $2,500 per month."].
  - discriminate.
  - reflexivity.
  - exists st'. split; [exact Hrun|]. rewrite Hdocs. reflexivity.
Defined.

(** X19.  While an index is loaded and the retriever answers, what
    [add_document_content] appends does not reach the search: the vector
    search returns the same results after the upload as before. *)
Theorem uploads_do_not_reach_vector_search :
  forall (E : externals) (title content query : str) (top_k : Z) (st : machine)
         (index : vectorstore) (docs : list Document),
    faiss_index (self st) = Present index ->
    documents (self st) <> [] ->
    retrieve E index query top_k = Ok docs ->
    let st' := snd (add_document_content E title content st) in
    result_of (search_documents_faiss E query top_k) st'
    = result_of (search_documents_faiss E query top_k) st
    /\ result_of (search_documents_faiss E query top_k) st' = Ok (rank_retrieved docs).
Proof.
  intros E title content query top_k st index docs Hidx Hne Hret st'.
  destruct (add_document_content_documents E title content st)
    as [o [st1 [Hrun Hdocs]]].
  assert (Hidx' : faiss_index (self st') = Present index).
  { unfold st'. pose proof (add_document_content_run E title content st) as H.
    cbv zeta in H. rewrite H.
    destruct (documents (self st) ++ _); [exact Hidx|].
    destruct (processed_contents _); [|exact Hidx].
    destruct (fit_transform E _); exact Hidx. }
  assert (Hne' : documents (self st') <> []).
  { unfold st'. rewrite Hrun. cbn [snd]. rewrite Hdocs.
    destruct (documents (self st)); [congruence | discriminate]. }
  unfold result_of.
  rewrite (search_documents_faiss_answers E query top_k st' index docs Hidx' Hne' Hret).
  rewrite (search_documents_faiss_answers E query top_k st index docs Hidx Hne Hret).
  split; reflexivity.
Qed.

Lemma uploads_do_not_reach_vector_search_witness :
  let E := Sample.externals_ok (Sample.constant_llm []) in
  let st := Sample.machine_of Sample.indexed_service Sample.empty_fs in
  result_of (search_documents_faiss E (py "support") 3)
            (snd (add_document_content E (py "faq.txt") (py "Support by phone.") st))
  = result_of (search_documents_faiss E (py "support") 3) st.
Proof.
  intros E st.
  apply (uploads_do_not_reach_vector_search E (py "faq.txt") (py "Support by phone.")
           (py "support") 3 st Sample.store [Sample.doc_a; Sample.doc_b]).
  - reflexivity.
  - discriminate.
  - reflexivity.
Defined.

(** ** Saving and loading the legacy knowledge base *)

Lemma unpickled_dicts (docs : list dict) : unpickled (map PDict docs) = docs.
Proof.
  unfold unpickled. induction docs as [|d docs IH]; [reflexivity|].
  cbn [map flat_map app]. now rewrite IH.
Qed.

Lemma write_pickle_read (path : str) (file : outcome kb_data) (f : filesystem) :
  pickle_at (write_pickle path file f) path = Some file.
Proof. unfold write_pickle. cbn [pickle_at]. now rewrite str_eqb_refl. Qed.

(** Loading a readable pickle of dictionaries. *)
Lemma load_knowledge_base_reads (E : externals) (st : machine) (docs : list dict)
    (vectors : option tfidf_matrix) :
  pickle_at (fs st) (kb_path (self st)) = Some (Ok (KbData (map PDict docs) vectors)) ->
  let trace' := trace st ++ [Call_load_knowledge_base] in
  let loaded v := Mach (Rag docs v (knowledge_base_path (self st))
                            (faiss_index (self st)) (vector_dim (self st)))
                       (fs st) (llm_calls st) trace' in
  load_knowledge_base E st
  = (Ok tt,
     match docs, vectors with
     | _ :: _, None =>
         match processed_contents docs with
         | Ok texts =>
             match fit_transform E texts with
             | Ok v => loaded (Some v)
             | Raise =>
                 Mach (Rag [] None (knowledge_base_path (self st))
                           (faiss_index (self st)) (vector_dim (self st)))
                      (fs st) (llm_calls st) trace'
             end
         | Raise =>
             Mach (Rag [] None (knowledge_base_path (self st))
                       (faiss_index (self st)) (vector_dim (self st)))
                  (fs st) (llm_calls st) trace'
         end
     | _, _ => loaded vectors
     end).
Proof.
  intros Hp trace' loaded. unfold kb_path in Hp.
  unfold load_knowledge_base, try_except, bind, emit, get_self, get_fs, modify_self,
    lift, ret.
  cbn [self fs llm_calls trace]. rewrite Hp.
  cbn [kb_documents kb_document_vectors self fs llm_calls trace].
  rewrite unpickled_dicts. fold trace'.
  destruct docs as [|d ds]; [reflexivity|].
  destruct vectors as [v|]; [reflexivity|].
  rewrite build_vectors_run. cbn [self documents set_documents set_document_vectors
                                  document_vectors knowledge_base_path faiss_index
                                  vector_dim fs llm_calls trace].
  destruct (processed_contents (d :: ds)) as [texts|]; [|reflexivity].
  destruct (fit_transform E texts); reflexivity.
Qed.

Lemma load_knowledge_base_unreadable (E : externals) (st : machine) :
  pickle_at (fs st) (kb_path (self st)) = Some Raise ->
  load_knowledge_base E st
  = (Ok tt, Mach (Rag [] None (knowledge_base_path (self st))
                      (faiss_index (self st)) (vector_dim (self st)))
                 (fs st) (llm_calls st) (trace st ++ [Call_load_knowledge_base])).
Proof.
  intros Hp. unfold kb_path in Hp.
  unfold load_knowledge_base, try_except, bind, emit, get_self, get_fs, modify_self,
    lift, ret.
  cbn [self fs llm_calls trace]. rewrite Hp. reflexivity.
Qed.

Lemma save_knowledge_base_run (d : dump) (st : machine) :
  save_knowledge_base d st
  = (Ok tt,
     match d with
     | Dumped =>
         Mach (self st)
              (write_pickle (kb_path (self st))
                 (Ok (KbData (map PDict (documents (self st)))
                             (document_vectors (self st))))
                 (fs st))
              (llm_calls st) (trace st)
     | Open_fails => st
     | Dump_fails =>
         Mach (self st) (write_pickle (kb_path (self st)) Raise (fs st))
              (llm_calls st) (trace st)
     end).
Proof. destruct d; reflexivity. Qed.

(** X20.  A knowledge base saved with [save_knowledge_base] and loaded
    again gives back the documents and the vectors, when the vectors were
    built or there were no documents.  Saved without vectors, the
    documents come back with freshly built vectors if these can be
    built, and the knowledge base comes back empty if not.  A dump that
    fails after the file was opened leaves a file from which loading
    gives an empty knowledge base.  Neither step raises or touches the
    vector index. *)
Theorem knowledge_base_round_trip :
  forall (E : externals) (st : machine),
    (exists saved st',
        save_knowledge_base Dumped st = (Ok tt, saved)
        /\ self saved = self st
        /\ load_knowledge_base E saved = (Ok tt, st')
        /\ faiss_index (self st') = faiss_index (self st)
        /\ ((documents (self st) = [] \/ document_vectors (self st) <> None) ->
            documents (self st') = documents (self st)
            /\ document_vectors (self st') = document_vectors (self st))
        /\ (forall v,
               documents (self st) <> [] -> document_vectors (self st) = None ->
               vectorisable E (documents (self st)) v ->
               documents (self st') = documents (self st)
               /\ document_vectors (self st') = Some v)
        /\ (documents (self st) <> [] -> document_vectors (self st) = None ->
            (~ exists v, vectorisable E (documents (self st)) v) ->
            documents (self st') = [] /\ document_vectors (self st') = None))
    /\ (exists saved st',
           save_knowledge_base Dump_fails st = (Ok tt, saved)
           /\ load_knowledge_base E saved = (Ok tt, st')
           /\ documents (self st') = []
           /\ document_vectors (self st') = None)
    /\ save_knowledge_base Open_fails st = (Ok tt, st).
Proof.
  intros E st. split; [|split; [|apply (save_knowledge_base_run Open_fails)]].
  - eexists. eexists. split; [apply (save_knowledge_base_run Dumped)|].
    split; [reflexivity|]. split.
    + apply (load_knowledge_base_reads E _ (documents (self st))
               (document_vectors (self st))).
      cbn [self fs]. apply write_pickle_read.
    + cbn [self fs llm_calls trace].
      destruct (documents (self st)) as [|d ds] eqn:Hdocs.
      * cbn. repeat split; auto; try congruence.
      * destruct (document_vectors (self st)) as [v0|] eqn:Hvec.
        -- cbn. repeat split; auto; try congruence; try discriminate.
        -- destruct (processed_contents (d :: ds)) as [texts|] eqn:Htexts.
           ++ destruct (fit_transform E texts) as [v|] eqn:Hfit.
              ** cbn. split; [reflexivity|]. split; [intros [H|H]; congruence|].
                 split.
                 --- intros v' _ _ [texts' [Ht Hf]].
                     rewrite Htexts in Ht. injection Ht as <-.
                     rewrite Hfit in Hf. injection Hf as <-. auto.
                 --- intros _ _ Hno. exfalso. apply Hno. exists v, texts. auto.
              ** cbn. split; [reflexivity|]. split; [intros [H|H]; congruence|].
                 split.
                 --- intros v' _ _ [texts' [Ht Hf]].
                     rewrite Htexts in Ht. injection Ht as <-. congruence.
                 --- auto.
           ++ cbn. split; [reflexivity|]. split; [intros [H|H]; congruence|].
              split.
              ** intros v' _ _ [texts' [Ht Hf]]. congruence.
              ** auto.
  - eexists. eexists. split; [apply (save_knowledge_base_run Dump_fails)|]. split.
    + apply load_knowledge_base_unreadable. cbn [self fs]. apply write_pickle_read.
    + split; reflexivity.
Qed.

(** ** The legacy search at its edges *)

Lemma rank_documents_none (docs : list dict) (sims : list Q) :
  rank_documents docs sims 0 = [].
Proof. reflexivity. Qed.

(** X21.  [search_documents] never raises and changes nothing.  It
    returns the empty list when there are no documents, when no vectors
    were built, when the vectoriser or the similarity computation
    raises, and when [top_k] is zero. *)
Theorem search_documents_degenerate_cases :
  forall (E : externals) (query : str) (top_k : Z) (st : machine),
    (exists results,
        search_documents E query top_k st
        = (Ok results,
           Mach (self st) (fs st) (llm_calls st)
                (trace st ++ [Call_search_documents])))
    /\ (documents (self st) = []
        \/ document_vectors (self st) = None
        \/ (exists vectors,
               document_vectors (self st) = Some vectors
               /\ similarities E vectors (preprocess_text query) = Raise)
        \/ top_k = 0%Z ->
        result_of (search_documents E query top_k) st = Ok []).
Proof.
  intros E query top_k st. split; [apply search_documents_run|].
  unfold result_of.
  destruct (documents (self st)) as [|d ds] eqn:Hdocs.
  - intros _. unfold search_documents, bind, emit, get_self. cbn [self].
    now rewrite Hdocs.
  - destruct (document_vectors (self st)) as [v|] eqn:Hvec.
    + assert (Hne : documents (self st) <> []) by (rewrite Hdocs; discriminate).
      rewrite (search_documents_ranks E query top_k st v Hne Hvec). cbn [fst].
      intros [H|[H|[[v' [Hv' Hs]]|H]]]; try discriminate.
      * injection Hv' as <-. now rewrite Hs.
      * subst top_k. destruct (similarities E v (preprocess_text query));
          [now rewrite rank_documents_none | reflexivity].
    + intros _. unfold search_documents, bind, emit, get_self. cbn [self].
      now rewrite Hdocs, Hvec.
Qed.

(** ** Loading the index *)

(** X22.  [load_faiss_index] never raises and leaves the files alone.
    Afterwards the index attribute is set, to a vector store or to
    [None], and so is the dimension, the one being [None] exactly when
    the other is.  With a vector store loaded the documents are those of
    its docstore, one entry per stored document with its text as content
    and its id in the title; without one, be it that no index was saved,
    that it could not be read, or that the embedding model failed, the
    documents are empty. *)
Theorem load_faiss_index_sets_or_clears :
  forall (E : externals) (st : machine),
  exists st',
    load_faiss_index E st = (Ok tt, st')
    /\ fs st' = fs st
    /\ document_vectors (self st') = document_vectors (self st)
    /\ faiss_index (self st') <> Absent
    /\ vector_dim (self st') <> Absent
    /\ available (vector_dim (self st')) = available (faiss_index (self st'))
    /\ (forall v,
           faiss_index (self st') = Present v
           <-> index_at (fs st) (index_path_of (self st)) = Some (Readable v)
               /\ embed_dim E <> Raise)
    /\ (forall v, faiss_index (self st') = Present v ->
                  documents (self st') = docstore_entries v)
    /\ (available (faiss_index (self st')) = false -> documents (self st') = []).
Proof.
  intros E st.
  destruct (index_at (fs st) (index_path_of (self st))) as [[v|]|] eqn:Hat.
  - destruct (embed_dim E) as [dim|] eqn:Hdim.
    + rewrite (load_faiss_index_loads E st v dim Hat Hdim).
      eexists. split; [reflexivity|].
      cbn [self fs faiss_index documents vector_dim document_vectors available].
      repeat split; try discriminate; try congruence;
        try (intros v0 H; injection H as <-; apply docstore_dicts_entries).
      intros [H _]. congruence.
    + rewrite (load_faiss_index_forgets E st) by auto.
      eexists. split; [reflexivity|]. cbn.
      repeat split; try discriminate; try congruence.
      intros [_ H]. congruence.
  - rewrite (load_faiss_index_forgets E st) by auto.
    eexists. split; [reflexivity|]. cbn.
    repeat split; try discriminate; try congruence.
    intros [H _]. congruence.
  - rewrite (load_faiss_index_forgets E st) by auto.
    eexists. split; [reflexivity|]. cbn.
    repeat split; try discriminate; try congruence.
    intros [H _]. congruence.
Qed.

(** ** The constructor without a saved index *)

Lemma load_knowledge_base_absent (E : externals) (st : machine) :
  pickle_at (fs st) (kb_path (self st)) = None ->
  load_knowledge_base E st
  = (Ok tt, Mach (self st) (fs st) (llm_calls st)
                 (trace st ++ [Call_load_knowledge_base])).
Proof.
  intros Hp. unfold kb_path in Hp.
  unfold load_knowledge_base, try_except, bind, emit, get_self, get_fs, ret.
  cbn [self fs llm_calls trace]. rewrite Hp. reflexivity.
Qed.

Lemma load_sample_documents_run (E : externals) (st : machine) :
  let st1 := Mach (self st) (fs st) (llm_calls st)
                  (trace st ++ [Call_load_sample_documents]) in
  load_sample_documents E st
  = match documents (self st) with
    | [] =>
        if listing_raises (fs st) then (Raise, st1)
        else
          match first_pdf (fs st) with
          | Some pdf_path => process_pdf_and_index E pdf_path st1
          | None => (Ok tt, st1)
          end
    | _ :: _ => (Ok tt, st1)
    end.
Proof.
  intros st1. unfold load_sample_documents.
  unfold bind at 1. cbn [emit]. fold st1.
  unfold bind at 1. cbn [get_self]. change (self st1) with (self st).
  destruct (documents (self st)) as [|d ds]; [|reflexivity].
  destruct (listing_raises (fs st)) eqn:Hlist.
  { now rewrite (bind_raise _ (get_pdf_info_raises st1 Hlist)). }
  destruct (get_pdf_info_first_pdf st1 Hlist) as [info [Hinfo Hfirst]].
  rewrite (bind_ok _ Hinfo). change (fs st1) with (fs st) in Hfirst.
  destruct (first_pdf (fs st)) as [pdf_path|].
  - destruct Hfirst as [Hav [pdf_file [rest [directory [Hfiles [Hdir ->]]]]]].
    rewrite Hav, Hfiles. unfold bind at 1. unfold lift at 1. now rewrite Hdir.
  - destruct Hfirst as [Hav Hfiles]. now rewrite Hav.
Qed.

Lemma force_process_pdf_run (E : externals) (st : machine) :
  let st1 := Mach (self st) (fs st) (llm_calls st)
                  (trace st ++ [Call_force_process_pdf]) in
  force_process_pdf E st
  = match first_pdf (fs st) with
    | Some pdf_path =>
        (Ok tt, snd (process_pdf_and_index E pdf_path st1))
    | None => (Ok tt, st1)
    end.
Proof.
  intros st1. unfold force_process_pdf.
  unfold bind at 1. cbn [emit]. fold st1.
  destruct (listing_raises (fs st)) eqn:Hlist.
  { rewrite (first_pdf_unlisted _ Hlist). unfold try_except.
    now rewrite (bind_raise _ (get_pdf_info_raises st1 Hlist)). }
  destruct (get_pdf_info_first_pdf st1 Hlist) as [info [Hinfo Hfirst]].
  unfold try_except. rewrite (bind_ok _ Hinfo). change (fs st1) with (fs st) in Hfirst.
  destruct (first_pdf (fs st)) as [pdf_path|].
  - destruct Hfirst as [Hav [pdf_file [rest [directory [Hfiles [Hdir ->]]]]]].
    rewrite Hav, Hfiles. unfold bind at 1. unfold lift at 1. rewrite Hdir.
    now destruct (process_pdf_and_index E (path_join directory pdf_file) st1)
      as [[[]|] st2].
  - destruct Hfirst as [Hav Hfiles]. now rewrite Hav.
Qed.

(** The constructor up to the point where it turns to the PDFs, when no
    index loads and no legacy knowledge base was saved. *)
Lemma init_without_index (E : externals) (st : machine) :
  (~ exists v dim, index_loads E st v dim) ->
  pickle_at (fs st) (kb_path unindexed_service) = None ->
  let st2 := Mach unindexed_service (fs st) (llm_calls st)
                  (trace st ++ [Call_load_faiss_index; Call_load_knowledge_base]) in
  __init__ E st
  = ((load_sample_documents E ;;;
      s <- get_self ;;
      match documents s with
      | [] => force_process_pdf E
      | _ :: _ => ret tt
      end)%M st2).
Proof.
  intros Hno Hp st2.
  assert (Hfail : index_at (fs st) startup_index_path = None
                  \/ index_at (fs st) startup_index_path = Some Unreadable
                  \/ embed_dim E = Raise).
  { destruct (index_at (fs st) startup_index_path) as [[v|]|] eqn:Hat; auto.
    destruct (embed_dim E) as [dim|] eqn:Hdim; auto.
    exfalso. apply Hno. exists v, dim. now split. }
  unfold __init__. unfold bind at 1. cbn [modify_self].
  rewrite (bind_ok _ (load_faiss_index_forgets E
             (Mach fresh_service (fs st) (llm_calls st) (trace st)) Hfail)).
  unfold bind at 1. cbn [get_self self faiss_index available fresh_service
                         document_vectors knowledge_base_path fs llm_calls trace].
  change (Rag [] None initial_knowledge_base_path IsNone IsNone)
    with unindexed_service.
  rewrite (bind_ok _ (load_knowledge_base_absent E
             (Mach unindexed_service (fs st) (llm_calls st)
                   (trace st ++ [Call_load_faiss_index])) Hp)).
  cbn [self fs llm_calls trace]. unfold st2. rewrite <- app_assoc. reflexivity.
Qed.

Lemma first_pdf_write_index (path : str) (v : vectorstore) (f : filesystem) :
  first_pdf (write_index path v f) = first_pdf f.
Proof. reflexivity. Qed.

(** X23.  A constructor that finds neither a loadable index nor a saved
    legacy knowledge base turns to the first PDF that [get_pdf_info]
    lists.  It raises exactly when a directory listing of [get_pdf_info]
    raises or that PDF cannot be read, indexed and saved:
    [load_sample_documents] catches neither.  When the listings answer
    and show no PDF the service starts empty and without an index; with
    an indexable PDF it starts with the new vector store, one document
    per chunk, and the store saved where the next constructor looks for
    it. *)
Theorem constructor_without_index :
  forall (E : externals) (st : machine),
    (~ exists v dim, index_loads E st v dim) ->
    pickle_at (fs st) (kb_path unindexed_service) = None ->
    (result_of (__init__ E) st = Raise
     <-> listing_raises (fs st) = true
         \/ exists pdf_path,
              first_pdf (fs st) = Some pdf_path
              /\ ~ exists v, indexable E (unindexed st) pdf_path v)
    /\ (listing_raises (fs st) = false ->
        first_pdf (fs st) = None ->
        exists st',
          __init__ E st = (Ok tt, st')
          /\ self st' = unindexed_service
          /\ fs st' = fs st
          /\ events_of (__init__ E) st
             = [Call_load_faiss_index; Call_load_knowledge_base;
                Call_load_sample_documents; Call_force_process_pdf])
    /\ (forall pdf_path v,
           first_pdf (fs st) = Some pdf_path ->
           indexable E (unindexed st) pdf_path v ->
           exists st',
             __init__ E st = (Ok tt, st')
             /\ faiss_index (self st') = Present v
             /\ documents (self st')
                = chunk_dicts 0 (pdf_chunks E (unindexed st) pdf_path)
             /\ index_at (fs st') startup_index_path = Some (Readable v)).
Proof.
  intros E st Hno Hp.
  pose proof (init_without_index E st Hno Hp) as Hinit. cbv zeta in Hinit.
  set (st2 := Mach unindexed_service (fs st) (llm_calls st)
                   (trace st ++ [Call_load_faiss_index; Call_load_knowledge_base]))
    in Hinit.
  set (st3 := Mach unindexed_service (fs st) (llm_calls st)
                   (trace st2 ++ [Call_load_sample_documents])).
  pose proof (load_sample_documents_run E st2) as Hload. cbv zeta in Hload.
  change (documents (self st2)) with (@nil dict) in Hload.
  change (fs st2) with (fs st) in Hload.
  change (Mach (self st2) (fs st) (llm_calls st2)
               (trace st2 ++ [Call_load_sample_documents]))
    with st3 in Hload.
  destruct (listing_raises (fs st)) eqn:Hlist.
  { assert (Hraise : __init__ E st = (Raise, st3)).
    { rewrite Hinit. now rewrite (bind_raise _ Hload). }
    rewrite (first_pdf_unlisted _ Hlist).
    split; [|split; [discriminate|]].
    - unfold result_of. rewrite Hraise. cbn [fst]. split; [now left | reflexivity].
    - intros p v H. discriminate. }
  destruct (first_pdf (fs st)) as [pdf_path|] eqn:Hfirst.
  - destruct (classic_indexable E st3 pdf_path) as [[v Hv]|Hnot].
    + pose proof Hv as [pages [dim [Hpages [Hstore [Hsave Hdim]]]]].
      pose proof (process_pdf_and_index_run E pdf_path st3 pages v dim
                    Hpages Hstore Hsave Hdim) as Hrun.
      cbv zeta in Hrun. rewrite <- Hload in Hrun.
      assert (Hchunks : pdf_chunks E (unindexed st) pdf_path
                        = split_text E (join [nl; nl] (kept_texts pages))).
      { unfold pdf_chunks. change (fs (unindexed st)) with (fs st3).
        now rewrite Hpages. }
      assert (Hfinal : exists st',
                 __init__ E st = (Ok tt, st')
                 /\ faiss_index (self st') = Present v
                 /\ documents (self st')
                    = chunk_dicts 0 (pdf_chunks E (unindexed st) pdf_path)
                 /\ index_at (fs st') startup_index_path = Some (Readable v)).
      { rewrite Hinit. rewrite (bind_ok _ Hrun).
        unfold bind at 1. cbn [get_self self documents].
        rewrite Hchunks.
        destruct (split_text E (join [nl; nl] (kept_texts pages))) as [|c cs] eqn:Hsplit.
        - cbn [chunk_dicts]. rewrite force_process_pdf_run. cbv zeta.
          cbn [self fs llm_calls trace]. rewrite first_pdf_write_index.
          change (first_pdf (fs st3)) with (first_pdf (fs st)). rewrite Hfirst.
          match goal with |- context [process_pdf_and_index E pdf_path ?s] =>
            pose proof (process_pdf_and_index_run E pdf_path s pages v dim) as Hagain
          end.
          cbv zeta in Hagain. rewrite Hsplit in Hagain.
          rewrite Hagain; [|exact Hpages | exact Hstore | exact Hsave | exact Hdim].
          eexists. split; [reflexivity|]. cbn [snd self fs faiss_index documents chunk_dicts].
          split; [reflexivity|]. split; [reflexivity|]. apply write_index_read.
        - cbn [chunk_dicts]. eexists. split; [reflexivity|].
          cbn [self fs faiss_index documents].
          split; [reflexivity|]. split; [reflexivity|]. apply write_index_read. }
      split; [|split; [discriminate|]].
      * destruct Hfinal as [st' [Hf _]]. unfold result_of. rewrite Hf. cbn [fst].
        split; [discriminate|]. intros [H|[p [Hp' Hn]]]; [discriminate|].
        injection Hp' as <-. exfalso. apply Hn. now exists v.
      * intros p v' Hp' Hv'. injection Hp' as <-.
        destruct Hv' as [pages' [dim' [Hpages' [Hstore' _]]]].
        change (fs (unindexed st)) with (fs st3) in Hpages'.
        rewrite Hpages in Hpages'. injection Hpages' as <-.
        rewrite Hstore in Hstore'. injection Hstore' as <-. exact Hfinal.
    + destruct (process_pdf_and_index_raises E pdf_path st3 Hnot) as [st4 Hr].
      rewrite <- Hload in Hr.
      assert (Hraise : __init__ E st = (Raise, st4)).
      { rewrite Hinit. now rewrite (bind_raise _ Hr). }
      split; [|split; [discriminate|]].
      * unfold result_of. rewrite Hraise. cbn [fst]. split; [|reflexivity].
        intros _. right. exists pdf_path. split; [reflexivity | exact Hnot].
      * intros p v Hp' Hv. injection Hp' as <-. exfalso. apply Hnot. now exists v.
  - assert (Hrun : __init__ E st
                   = (Ok tt, Mach unindexed_service (fs st) (llm_calls st)
                                  (trace st3 ++ [Call_force_process_pdf]))).
    { rewrite Hinit. rewrite (bind_ok _ Hload).
      unfold bind at 1. cbn [get_self self documents unindexed_service st3].
      rewrite force_process_pdf_run. cbv zeta. cbn [self fs llm_calls trace].
      change (first_pdf (fs st3)) with (first_pdf (fs st)). now rewrite Hfirst. }
    split; [|split].
    + unfold result_of. rewrite Hrun. cbn [fst].
      split; [discriminate | intros [H|[p [H _]]]; discriminate].
    + intros _ _. eexists. split; [exact Hrun|]. split; [reflexivity|].
      split; [reflexivity|].
      apply (@events_of_run _ _ _ _ _ _ Hrun). cbn [trace st3 st2].
      now rewrite <- !app_assoc.
    + intros p v H. discriminate.
Qed.

Lemma constructor_without_index_witness :
  let E := Sample.externals_ok (Sample.constant_llm []) in
  let st := Sample.machine_of fresh_service Sample.brochure_fs in
  exists st',
    __init__ E st = (Ok tt, st')
    /\ faiss_index (self st') = Present Sample.store
    /\ index_at (fs st') startup_index_path = Some (Readable Sample.store).
Proof.
  intros E st.
  assert (Hno : ~ exists v dim, index_loads E st v dim).
  { intros [v [dim [H _]]]. vm_compute in H. discriminate. }
  assert (Hp : pickle_at (fs st) (kb_path unindexed_service) = None) by reflexivity.
  destruct (proj2 (proj2 (constructor_without_index E st Hno Hp))
              Sample.brochure_path Sample.store)
    as [st' [Hrun [Hidx [_ Hat]]]].
  - reflexivity.
  - exists Sample.brochure_pages, 384. repeat split; reflexivity.
  - exists st'. auto.
Defined.

(** * The routes *)

Lemma service_ready_dec (E : externals) (s : Routes.app) :
  service_ready E s \/ ~ service_ready E s.
Proof.
  unfold service_ready. destruct (Routes.rag_service s); [now left; left|].
  destruct (__init__ E (Routes.world s)) as [[[]|] w]; cbn [fst].
  - left. now right.
  - right. intros [H|H]; discriminate.
Qed.

Lemma get_rag_service_ready (E : externals) (s : Routes.app) :
  service_ready E s ->
  Routes.get_rag_service E s = (Ok tt, with_service E s)
  /\ Routes.rag_service (with_service E s) = true.
Proof.
  unfold service_ready, Routes.get_rag_service, with_service.
  destruct s as [[] w]; cbn [Routes.rag_service Routes.world].
  - intros _. split; reflexivity.
  - intros [H|H]; [discriminate|].
    destruct (__init__ E w) as [[[]|] w']; cbn [fst snd] in *; [|discriminate].
    split; reflexivity.
Qed.

Lemma get_rag_service_fails (E : externals) (s : Routes.app) :
  ~ service_ready E s ->
  Routes.get_rag_service E s
  = (Raise, Routes.App false (snd (__init__ E (Routes.world s)))).
Proof.
  unfold service_ready, Routes.get_rag_service.
  destruct s as [[] w]; cbn [Routes.rag_service Routes.world].
  - intros H. exfalso. apply H. now left.
  - intros H. destruct (__init__ E w) as [[[]|] w']; cbn [fst snd] in *.
    + exfalso. apply H. now right.
    + reflexivity.
Qed.

Lemma with_service_idem (E : externals) (s : Routes.app) :
  service_ready E s ->
  service_ready E (with_service E s)
  /\ with_service E (with_service E s) = with_service E s.
Proof.
  intros H. destruct (get_rag_service_ready E s H) as [_ Hb].
  split; [now left|]. unfold with_service at 1. now rewrite Hb.
Qed.

(** X24.  [health_check] never raises.  It answers 200 exactly when the
    service is built already or the constructor returns, and then the
    service is kept, so that a further check answers 200 again and
    changes nothing; it answers 500 exactly when the constructor raises,
    and then no service is kept, so that the next request constructs
    again. *)
Theorem health_check_builds_the_service :
  forall (E : externals) (C : Routes.clock) (error_text : str) (s : Routes.app),
  exists body status s',
    Routes.health_check E C error_text s = (Ok (body, status), s')
    /\ (status = 200 \/ status = 500)
    /\ (status = 200 <-> service_ready E s)
    /\ (status = 200 ->
        s' = with_service E s
        /\ Routes.rag_service s' = true
        /\ dict_get body "status" = Some (VStr (py "healthy"))
        /\ Routes.health_check E C error_text s' = (Ok (body, 200), s'))
    /\ (status = 500 ->
        Routes.rag_service s' = false
        /\ Routes.world s' = snd (__init__ E (Routes.world s))
        /\ dict_get body "status" = Some (VStr (py "unhealthy"))
        /\ dict_get body "error" = Some (VStr error_text)).
Proof.
  intros E C error_text s.
  destruct (service_ready_dec E s) as [Hready|Hnot].
  - destruct (get_rag_service_ready E s Hready) as [Hget Hbuilt].
    destruct (with_service_idem E s Hready) as [Hready' Hidem].
    destruct (get_rag_service_ready E _ Hready') as [Hget' _].
    rewrite Hidem in Hget'.
    eexists. exists 200. eexists.
    unfold Routes.health_check, Routes.rtry, Routes.rbind.
    rewrite Hget. split; [reflexivity|]. split; [now left|].
    split; [tauto|]. split; [|discriminate].
    intros _. split; [reflexivity|]. split; [exact Hbuilt|]. split; [reflexivity|].
    now rewrite Hget'.
  - eexists. exists 500. eexists.
    unfold Routes.health_check, Routes.rtry, Routes.rbind.
    rewrite (get_rag_service_fails E s Hnot). split; [reflexivity|].
    split; [now right|]. split; [split; [discriminate | contradiction]|].
    split; [discriminate|]. intros _. repeat split.
Qed.

Lemma dict_get_set_same (d : dict) (k : string) (v : value) :
  dict_get (Routes.dict_set d k v) k = Some v.
Proof.
  induction d as [|[k' v'] d IH]; cbn [Routes.dict_set dict_get].
  - now rewrite String.eqb_refl.
  - destruct (String.eqb k k') eqn:Hk; cbn [dict_get].
    + now rewrite String.eqb_refl.
    + now rewrite Hk.
Qed.

Lemma dict_get_set_other (d : dict) (k k' : string) (v : value) :
  k <> k' -> dict_get (Routes.dict_set d k' v) k = dict_get d k.
Proof.
  intros Hne. induction d as [|[k0 v0] d IH]; cbn [Routes.dict_set dict_get].
  - destruct (String.eqb k k') eqn:Hk; [|reflexivity].
    apply String.eqb_eq in Hk. contradiction.
  - destruct (String.eqb k' k0) eqn:Hk0; cbn [dict_get].
    + apply String.eqb_eq in Hk0. subst k0.
      destruct (String.eqb k k') eqn:Hk; [|reflexivity].
      apply String.eqb_eq in Hk. contradiction.
    + now rewrite IH.
Qed.

Lemma get_index_status_run (st : machine) :
  exists status, Rag.get_index_status st = (Ok status, st).
Proof. eexists. reflexivity. Qed.

Lemma message_of_inv (v : value) (m : str) :
  Routes.message_of v = Ok m ->
  exists d message,
    v = VDict d /\ dict_get d "message" = Some (VStr message) /\ m = strip message.
Proof.
  destruct v as [| | | | |d]; try discriminate. cbn [Routes.message_of].
  destruct (dict_get d "message") as [[| | |message| |]|] eqn:Hd; try discriminate.
  intros H. injection H as <-. now exists d, message.
Qed.

(** The body [chat] answers with, from the reply of [process_message]
    with the debugging entry set. *)
Lemma chat_accepts (E : externals) (C : Routes.clock) (d : dict) (message : str)
    (s : Routes.app) :
  dict_get d "message" = Some (VStr message) ->
  strip message <> [] ->
  service_ready E s ->
  listing_raises (fs (Routes.world (with_service E s))) = false ->
  exists reply w' status,
    process_message E (strip message) (Routes.id_text (answered_id C d))
                    (Routes.world (with_service E s))
    = (Ok reply, w')
    /\ shaped reply
    /\ Routes.chat E C (Ok (VDict d)) s
       = (Ok ([ kv "message_id"
                   (VStr (Routes.uuid4 C
                            (if negb (value_truthy
                                        (dict_get_default d "conversation_id" VNone))
                             then 1 else 0)));
                kv "conversation_id" (answered_id C d);
                kv "response" (dict_get_default reply "response" VNone);
                kv "confidence" (dict_get_default reply "confidence" VNone);
                kv "sources" (dict_get_default reply "sources" (VList []));
                kv "context_used" (dict_get_default reply "context_used" (VBool false));
                kv "timestamp" (VStr (Routes.now C));
                kv "suggested_responses"
                   (dict_get_default reply "suggested_responses" (VList []));
                kv "pdf_available"
                   (dict_get_default reply "pdf_available" (VBool false));
                kv "debug"
                   (VDict [ kv "index_status" (VDict status);
                            kv "message_processed" (VStr (strip message)) ]) ],
              200),
          Routes.App true w').
Proof.
  intros Hmsg Hne Hready Hlist.
  destruct (get_rag_service_ready E s Hready) as [Hget Hbuilt].
  destruct (get_index_status_run (Routes.world (with_service E s))) as [status Hstatus].
  destruct (process_message_run E (strip message) (Routes.id_text (answered_id C d))
              (Routes.world (with_service E s)) Hlist) as [reply [w' [Hrun Hshaped]]].
  exists reply, w', status. split; [exact Hrun|]. split; [exact Hshaped|].
  assert (Htruthy : value_truthy (VDict d) = true).
  { destruct d; [discriminate | reflexivity]. }
  assert (Hkeys : forall k, In k response_keys -> exists v, dict_get reply k = Some v).
  { intros k Hk. destruct Hshaped as [Hhas _]. specialize (Hhas k Hk).
    unfold dict_has in Hhas. destruct (dict_get reply k); [eauto | discriminate]. }
  assert (Hother : forall k x, In k response_keys ->
             dict_get (Routes.dict_set reply "debug" x) k = dict_get reply k).
  { intros k x Hk. apply dict_get_set_other.
    cbn in Hk. intuition (subst; discriminate). }
  unfold Routes.chat, Routes.rtry, Routes.rbind, Routes.rlift, Routes.rret.
  rewrite Htruthy. cbn [negb Routes.lacks_message Routes.message_of
                        Routes.conversation_of].
  unfold dict_has. rewrite Hmsg. cbn [negb].
  destruct (strip message) as [|c m] eqn:Hstrip; [congruence|].
  cbn [truthy negb]. rewrite Hget.
  unfold Routes.call. rewrite Hstatus. rewrite Hbuilt.
  cbn [Routes.world Routes.rag_service].
  unfold answered_id in Hrun. cbv zeta in Hrun.
  destruct (Hkeys "response"%string) as [v1 H1]; [cbn; tauto|].
  destruct (Hkeys "confidence"%string) as [v2 H2]; [cbn; tauto|].
  destruct (value_truthy (dict_get_default d "conversation_id" VNone)) eqn:Hgiven;
    cbn [negb] in *; rewrite Hrun;
    unfold Routes.item, dict_get_default;
    rewrite !Hother by (cbn; tauto);
    rewrite dict_get_set_same;
    rewrite H1, H2; unfold answered_id, dict_get_default;
    unfold dict_get_default in Hgiven; rewrite ?Hgiven;
    reflexivity.
Qed.

(** With the service at hand and a listing that raises, the exception of
    [process_message] is caught by the view. *)
Lemma chat_unlisted (E : externals) (C : Routes.clock) (d : dict) (message : str)
    (s : Routes.app) :
  dict_get d "message" = Some (VStr message) ->
  strip message <> [] ->
  service_ready E s ->
  listing_raises (fs (Routes.world (with_service E s))) = true ->
  Routes.chat E C (Ok (VDict d)) s = (Ok Routes.internal_error, with_service E s).
Proof.
  intros Hmsg Hne Hready Hlist.
  destruct (get_rag_service_ready E s Hready) as [Hget Hbuilt].
  destruct (get_index_status_run (Routes.world (with_service E s))) as [status Hstatus].
  assert (Htruthy : value_truthy (VDict d) = true).
  { destruct d; [discriminate | reflexivity]. }
  unfold Routes.chat, Routes.rtry, Routes.rbind, Routes.rlift, Routes.rret.
  rewrite Htruthy. cbn [negb Routes.lacks_message Routes.message_of
                        Routes.conversation_of].
  unfold dict_has. rewrite Hmsg. cbn [negb].
  destruct (strip message) as [|c m] eqn:Hstrip; [congruence|].
  cbn [truthy negb]. rewrite Hget.
  unfold Routes.call. rewrite Hstatus. rewrite Hbuilt.
  cbn [Routes.world Routes.rag_service].
  rewrite (process_message_raises E _ _ _ Hlist).
  destruct (with_service E s) as [b w]. cbn in Hbuilt. now subst b.
Qed.

Lemma chat_unready (E : externals) (C : Routes.clock) (d : dict) (message : str)
    (s : Routes.app) :
  dict_get d "message" = Some (VStr message) ->
  strip message <> [] ->
  ~ service_ready E s ->
  Routes.chat E C (Ok (VDict d)) s
  = (Ok Routes.internal_error,
     Routes.App false (snd (__init__ E (Routes.world s)))).
Proof.
  intros Hmsg Hne Hnot.
  assert (Htruthy : value_truthy (VDict d) = true).
  { destruct d; [discriminate | reflexivity]. }
  unfold Routes.chat, Routes.rtry, Routes.rbind, Routes.rlift, Routes.rret.
  rewrite Htruthy. cbn [negb Routes.lacks_message Routes.message_of
                        Routes.conversation_of].
  unfold dict_has. rewrite Hmsg. cbn [negb].
  destruct (strip message) as [|c m] eqn:Hstrip; [congruence|].
  cbn [truthy negb]. now rewrite (get_rag_service_fails E s Hnot).
Qed.

(** X25.  [chat] never raises and answers 200, 400 or 500.  It answers
    400 exactly when the request has no JSON value or a falsy one, none
    with a ['message'] in it, or a message that is blank after
    stripping; the application is then left as it was: no service is
    constructed and no request goes to the hosted model.  A 200 means the
    service could be had and is kept; a 500 carries the fixed error
    body. *)
Theorem chat_validates_the_request :
  forall (E : externals) (C : Routes.clock) (data : outcome value) (s : Routes.app),
  exists body status s',
    Routes.chat E C data s = (Ok (body, status), s')
    /\ (status = 200 \/ status = 400 \/ status = 500)
    /\ (status = 400 <-> rejected data)
    /\ (status = 400 -> s' = s)
    /\ (status = 200 -> service_ready E s /\ Routes.rag_service s' = true)
    /\ (status = 500 -> (body, status) = Routes.internal_error).
Proof.
  intros E C data s.
  assert (H500 : forall s',
             Routes.chat E C data s = (Ok Routes.internal_error, s') ->
             ~ rejected data ->
             exists body status s',
               Routes.chat E C data s = (Ok (body, status), s')
               /\ (status = 200 \/ status = 400 \/ status = 500)
               /\ (status = 400 <-> rejected data)
               /\ (status = 400 -> s' = s)
               /\ (status = 200 -> service_ready E s /\ Routes.rag_service s' = true)
               /\ (status = 500 -> (body, status) = Routes.internal_error)).
  { intros s' Hrun Hnot. eexists. exists 500. exists s'. split; [exact Hrun|].
    split; [auto|]. split; [split; [discriminate | contradiction]|].
    split; [discriminate|]. split; [discriminate | reflexivity]. }
  assert (H400 : forall text,
             Routes.chat E C data s = (Ok (Routes.bad_request text), s) ->
             rejected data ->
             exists body status s',
               Routes.chat E C data s = (Ok (body, status), s')
               /\ (status = 200 \/ status = 400 \/ status = 500)
               /\ (status = 400 <-> rejected data)
               /\ (status = 400 -> s' = s)
               /\ (status = 200 -> service_ready E s /\ Routes.rag_service s' = true)
               /\ (status = 500 -> (body, status) = Routes.internal_error)).
  { intros text Hrun Hrej. eexists. exists 400. exists s. split; [exact Hrun|].
    split; [auto|]. split; [tauto|]. split; [reflexivity|].
    split; discriminate. }
  destruct data as [v|].
  2:{ apply (H500 s); [reflexivity|]. intros [v [H _]]. discriminate. }
  destruct (value_truthy v) eqn:Hv.
  2:{ apply (H400 "Message is required"%string).
      - unfold Routes.chat, Routes.rtry, Routes.rbind, Routes.rlift, Routes.rret.
        now rewrite Hv.
      - exists v. auto. }
  destruct (Routes.lacks_message v) as [[]|] eqn:Hl.
  - apply (H400 "Message is required"%string).
    + unfold Routes.chat, Routes.rtry, Routes.rbind, Routes.rlift, Routes.rret.
      now rewrite Hv, Hl.
    + exists v. auto.
  - destruct (Routes.message_of v) as [m|] eqn:Hm.
    + destruct (message_of_inv v m Hm) as [d [message [-> [Hmsg ->]]]].
      destruct (strip message) as [|c m] eqn:Hstrip.
      * apply (H400 "Message cannot be empty"%string).
        -- unfold Routes.chat, Routes.rtry, Routes.rbind, Routes.rlift, Routes.rret.
           rewrite Hv, Hl, Hm. reflexivity.
        -- exists (VDict d). auto.
      * assert (Hne : strip message <> []) by (rewrite Hstrip; discriminate).
        assert (Hnot : ~ rejected (Ok (VDict d))).
        { intros [v [Hv' [H|[H|[_ H]]]]]; injection Hv' as <-; congruence. }
        destruct (service_ready_dec E s) as [Hready|Hunready].
        -- destruct (listing_raises (fs (Routes.world (with_service E s))))
             eqn:Hlist.
           ++ apply (H500 _ (chat_unlisted E C d message s Hmsg Hne Hready Hlist)
                          Hnot).
           ++ destruct (chat_accepts E C d message s Hmsg Hne Hready Hlist)
                as [reply [w' [status [_ [_ Hrun]]]]].
              eexists. exists 200. eexists. split; [exact Hrun|].
              split; [auto|]. split; [split; [discriminate | contradiction]|].
              split; [discriminate|]. split; [auto | discriminate].
        -- apply (H500 _ (chat_unready E C d message s Hmsg Hne Hunready) Hnot).
    + apply (H500 s).
      * unfold Routes.chat, Routes.rtry, Routes.rbind, Routes.rlift, Routes.rret.
        now rewrite Hv, Hl, Hm.
      * intros [v' [Hv' [H|[H|[_ H]]]]]; injection Hv' as <-; congruence.
  - apply (H500 s).
    + unfold Routes.chat, Routes.rtry, Routes.rbind, Routes.rlift, Routes.rret.
      now rewrite Hv, Hl.
    + intros [v' [Hv' [H|[H|[H _]]]]]; injection Hv' as <-; congruence.
Qed.

(** X26.  Take a JSON object whose message is a string that is not
    blank, and a service that can be had.  When the directory listings of
    [get_pdf_info] answer, [chat] answers 200: the body has the ten keys;
    the reply text, confidence, sources, context flag, suggestions and PDF
    flag are those [process_message] returned for the stripped message;
    the conversation id is the one given when it is truthy and a fresh one
    otherwise; the service is kept.  When a listing raises,
    [process_message] raises and [chat] answers 500 with the fixed error
    body. *)
Theorem chat_answers_with_the_reply_of_process_message :
  forall (E : externals) (C : Routes.clock) (d : dict) (message : str)
         (s : Routes.app),
    dict_get d "message" = Some (VStr message) ->
    strip message <> [] ->
    service_ready E s ->
    (listing_raises (fs (Routes.world (with_service E s))) = false ->
     exists reply w' body,
       process_message E (strip message) (Routes.id_text (answered_id C d))
                       (Routes.world (with_service E s))
       = (Ok reply, w')
       /\ Routes.chat E C (Ok (VDict d)) s = (Ok (body, 200), Routes.App true w')
       /\ (forall k, In k chat_keys -> dict_has body k = true)
       /\ (forall k, In k response_keys -> dict_get body k = dict_get reply k)
       /\ dict_get body "conversation_id" = Some (answered_id C d)
       /\ dict_get body "timestamp" = Some (VStr (Routes.now C)))
    /\
    (listing_raises (fs (Routes.world (with_service E s))) = true ->
     Routes.chat E C (Ok (VDict d)) s
     = (Ok Routes.internal_error, with_service E s)).
Proof.
  intros E C d message s Hmsg Hne Hready.
  split; [|apply (chat_unlisted E C d message s Hmsg Hne Hready)].
  intros Hlist.
  destruct (chat_accepts E C d message s Hmsg Hne Hready Hlist)
    as [reply [w' [status [Hrun [Hshaped Hchat]]]]].
  exists reply, w'. eexists. split; [exact Hrun|]. split; [exact Hchat|].
  split; [|split; [|split; reflexivity]].
  - intros k Hk. cbn in Hk.
    repeat (destruct Hk as [<-|Hk]; [reflexivity|]). destruct Hk.
  - intros k Hk. destruct Hshaped as [Hhas _].
    pose proof (Hhas k Hk) as Hkey. unfold dict_has in Hkey.
    destruct (dict_get reply k) as [v|] eqn:Hv; [|discriminate].
    cbn in Hk.
    repeat (destruct Hk as [<-|Hk];
            [cbn [dict_get kv String.eqb Ascii.eqb Bool.eqb];
             unfold dict_get_default; rewrite Hv; reflexivity|]).
    destruct Hk.
Qed.

Lemma chat_answers_with_the_reply_of_process_message_witness :
  let E := Sample.externals_ok Sample.relevant_question_llm in
  let s := Routes.App true (Sample.machine_of Sample.indexed_service Sample.empty_fs) in
  let C := Routes.Clock (fun n => py "id-" ++ str_of_nat n) (py "2024-01-01T00:00:00") in
  let d := [kv "message" (VStr (py "  What does it cost?  "))] in
  exists reply w' body,
    Routes.chat E C (Ok (VDict d)) s = (Ok (body, 200), Routes.App true w')
    /\ dict_get body "response" = dict_get reply "response"
    /\ dict_get body "conversation_id" = Some (VStr (py "id-0")).
Proof.
  intros E s C d.
  destruct (chat_answers_with_the_reply_of_process_message E C d
              (py "  What does it cost?  ") s) as [Hanswers _].
  - reflexivity.
  - discriminate.
  - now left.
  - destruct (Hanswers eq_refl)
      as [reply [w' [body [_ [Hchat [_ [Hsame [Hid _]]]]]]]].
    exists reply, w', body. split; [exact Hchat|].
    split; [apply Hsame; cbn; tauto | exact Hid].
Defined.

(** ** Uploads and rebuilds over HTTP *)

Lemma add_document_returns (E : externals) (error_text : str) (file : upload)
    (st : machine) :
  exists d st',
    add_document E error_text file st = (Ok d, st')
    /\ dict_get d "filename" = Some (VStr (filename file)).
Proof.
  rewrite add_document_run.
  destruct (decoded file) as [content|].
  - destruct (add_document_content E (filename file) content st) as [[[]|] st'];
      eexists; eexists; split; reflexivity.
  - eexists. eexists. split; reflexivity.
Qed.

Lemma process_files_run (E : externals) (error_texts : nat -> str)
    (files : list upload) :
  forall i processed s,
  exists results w',
    Routes.process_files E error_texts i files processed s
    = (Ok (processed ++ results), Routes.App (Routes.rag_service s) w')
    /\ map (fun r => dict_get r "filename") results
       = map (fun f => Some (VStr (filename f))) (named files).
Proof.
  induction files as [|file rest IH]; intros i processed s.
  - exists [], (Routes.world s). cbn. rewrite app_nil_r.
    destruct s. split; reflexivity.
  - cbn [Routes.process_files named filter].
    destruct (str_eqb (filename file) []) eqn:Hname; cbn [negb].
    + apply IH.
    + destruct (add_document_returns E (error_texts i) file (Routes.world s))
        as [d [st' [Hadd Hd]]].
      destruct (IH (S i) (processed ++ [d]) (Routes.App (Routes.rag_service s) st'))
        as [results [w' [Hrest Hnames]]].
      exists (d :: results), w'.
      unfold Routes.rbind, Routes.call. rewrite Hadd. rewrite Hrest.
      cbn [Routes.rag_service]. rewrite <- app_assoc. split; [reflexivity|].
      cbn [map]. now rewrite Hd, Hnames.
Qed.

(** X27.  [upload_documents] never raises.  With a service to be had and
    a ['files'] part it answers 200 and hands every file with a name to
    [add_document], in order: the count in the message and the list of
    results cover all of them, whatever their status.  Without the part
    it answers 400, and without a service 500. *)
Theorem upload_documents_reports_every_named_file :
  forall (E : externals) (error_texts : nat -> str) (files : option (list upload))
         (s : Routes.app),
  exists body status s',
    Routes.upload_documents E error_texts files s = (Ok (body, status), s')
    /\ (~ service_ready E s -> status = 500)
    /\ (service_ready E s -> files = None ->
        status = 400 /\ s' = with_service E s)
    /\ (forall l,
           service_ready E s -> files = Some l ->
           status = 200
           /\ Routes.rag_service s' = true
           /\ dict_get body "message"
              = Some (VStr (py "Successfully processed "
                            ++ str_of_nat (length (named l)) ++ py " documents"))
           /\ exists results,
                dict_get body "files" = Some (VList (map VDict results))
                /\ map (fun r => dict_get r "filename") results
                   = map (fun f => Some (VStr (filename f))) (named l)).
Proof.
  intros E error_texts files s.
  unfold Routes.upload_documents, Routes.rtry, Routes.rbind.
  destruct (service_ready_dec E s) as [Hready|Hnot].
  - destruct (get_rag_service_ready E s Hready) as [Hget Hbuilt]. rewrite Hget.
    destruct files as [l|].
    + destruct (process_files_run E error_texts l 0 [] (with_service E s))
        as [results [w' [Hrun Hnames]]].
      rewrite Hrun. cbn [app Routes.rret].
      eexists. eexists. eexists. split; [reflexivity|].
      split; [contradiction|]. split; [discriminate|].
      intros l' _ Hl. injection Hl as <-.
      split; [reflexivity|]. split; [exact Hbuilt|].
      assert (Hlen : length results = length (named l)).
      { apply (f_equal (@length (option value))) in Hnames.
        now rewrite !length_map in Hnames. }
      split; [cbn [dict_get kv String.eqb]; cbn; now rewrite Hlen|].
      exists results. split; [reflexivity | exact Hnames].
    + eexists. eexists. eexists. split; [reflexivity|].
      split; [contradiction|]. split; [auto | discriminate].
  - rewrite (get_rag_service_fails E s Hnot).
    eexists. eexists. eexists. split; [reflexivity|].
    split; [reflexivity|]. split; [contradiction|]. intros l H. contradiction.
Qed.

Lemma rebuild_faiss_index_true (E : externals) (st st' : machine) :
  rebuild_faiss_index E st = (Ok true, st') ->
  exists v,
    faiss_index (self st') = Present v
    /\ index_at (fs st') (index_path_of (self st')) = Some (Readable v).
Proof.
  rewrite rebuild_faiss_index_run.
  destruct (first_pdf (fs st)) as [pdf_path|]; [|discriminate].
  unfold try_except, bind.
  destruct (classic_indexable E st pdf_path) as [[v Hv]|Hno].
  - destruct Hv as [pages [dim [Hpages [Hstore [Hsave Hdim]]]]].
    rewrite (process_pdf_and_index_run E pdf_path st pages v dim
               Hpages Hstore Hsave Hdim).
    intros H. injection H as <-. exists v. cbn [self fs faiss_index].
    split; [reflexivity|]. apply write_index_read.
  - destruct (process_pdf_and_index_raises E pdf_path st Hno) as [st2 Hr].
    rewrite Hr. discriminate.
Qed.

Lemma rebuild_faiss_index_returns (E : externals) (st : machine) :
  exists b st', rebuild_faiss_index E st = (Ok b, st').
Proof.
  rewrite rebuild_faiss_index_run.
  destruct (first_pdf (fs st)) as [pdf_path|]; [|eauto].
  unfold try_except, bind.
  destruct (process_pdf_and_index E pdf_path st) as [[[]|] st1];
    eexists; eexists; reflexivity.
Qed.

(** X28.  [rebuild_index] never raises.  It answers 200 exactly when the
    service can be had and [rebuild_faiss_index] returns [True] on it,
    and 500 otherwise.  After a 200 the service is kept with a vector
    store loaded, and the store is on disk at the index path. *)
Theorem rebuild_index_answers_by_the_rebuild :
  forall (E : externals) (error_text : str) (s : Routes.app),
  exists body status s',
    Routes.rebuild_index E error_text s = (Ok (body, status), s')
    /\ (status = 200 \/ status = 500)
    /\ (status = 200
        <-> service_ready E s
            /\ fst (rebuild_faiss_index E (Routes.world (with_service E s)))
               = Ok true)
    /\ (status = 200 ->
        Routes.rag_service s' = true
        /\ exists v,
             faiss_index (self (Routes.world s')) = Present v
             /\ index_at (fs (Routes.world s'))
                         (index_path_of (self (Routes.world s')))
                = Some (Readable v)).
Proof.
  intros E error_text s.
  unfold Routes.rebuild_index, Routes.rtry, Routes.rbind.
  destruct (service_ready_dec E s) as [Hready|Hnot].
  - destruct (get_rag_service_ready E s Hready) as [Hget Hbuilt]. rewrite Hget.
    unfold Routes.call.
    destruct (rebuild_faiss_index_returns E (Routes.world (with_service E s)))
      as [b [st' Hrun]].
    rewrite Hrun. destruct b.
    + destruct (rebuild_faiss_index_true E _ _ Hrun) as [v [Hidx Hat]].
      eexists. exists 200. eexists. split; [reflexivity|]. split; [auto|].
      split; [split; auto|]. intros _. split; [exact Hbuilt|]. now exists v.
    + eexists. exists 500. eexists. split; [reflexivity|]. split; [auto|].
      split; [|discriminate]. split; [discriminate|]. intros [_ H]. discriminate.
  - rewrite (get_rag_service_fails E s Hnot).
    eexists. exists 500. eexists. split; [reflexivity|]. split; [auto|].
    split; [|discriminate]. split; [discriminate|]. intros [H _]. contradiction.
Qed.

Lemma rebuild_index_200 (E : externals) (error_text : str) (s s' : Routes.app)
    (body : dict) :
  Routes.rebuild_index E error_text s = (Ok (body, 200), s') ->
  Routes.rag_service s' = true
  /\ exists v,
       faiss_index (self (Routes.world s')) = Present v
       /\ index_at (fs (Routes.world s')) (index_path_of (self (Routes.world s')))
          = Some (Readable v).
Proof.
  unfold Routes.rebuild_index, Routes.rtry, Routes.rbind.
  destruct (service_ready_dec E s) as [Hready|Hnot].
  - destruct (get_rag_service_ready E s Hready) as [Hget Hbuilt]. rewrite Hget.
    unfold Routes.call.
    destruct (rebuild_faiss_index_returns E (Routes.world (with_service E s)))
      as [b [st' Hrun]].
    rewrite Hrun. destruct b; [|discriminate].
    destruct (rebuild_faiss_index_true E _ _ Hrun) as [v [Hidx Hat]].
    intros H. injection H as _ <-. split; [exact Hbuilt|]. now exists v.
  - rewrite (get_rag_service_fails E s Hnot). discriminate.
Qed.

(** X29.  After [rebuild_index] has answered 200, the index-status route
    answers 200 without changing anything and reports the index as
    available and as existing on disk, with the number of documents the
    service holds. *)
Theorem index_status_after_rebuild :
  forall (E : externals) (error_text error_text' : str) (s s' : Routes.app)
         (body : dict),
    Routes.rebuild_index E error_text s = (Ok (body, 200), s') ->
    exists status,
      Routes.get_index_status E error_text' s' = (Ok (status, 200), s')
      /\ dict_get status "faiss_available" = Some (VBool true)
      /\ dict_get status "index_exists" = Some (VBool true)
      /\ dict_get status "documents_count"
         = Some (num (length (documents (self (Routes.world s')))))
      /\ dict_get status "index_path"
         = Some (VStr (index_path_of (self (Routes.world s')))).
Proof.
  intros E error_text error_text' s s' body Hrebuild.
  destruct (rebuild_index_200 E error_text s s' body Hrebuild)
    as [Hbuilt [v [Hidx Hat]]].
  destruct s' as [built w]. cbn [Routes.rag_service Routes.world] in *. subst built.
  eexists.
  unfold Routes.get_index_status, Routes.rtry, Routes.rbind, Routes.get_rag_service,
    Routes.call, Rag.get_index_status, bind, get_self, get_fs, ret, Routes.rret.
  cbn [Routes.rag_service Routes.world].
  split; [reflexivity|].
  cbn [dict_get kv String.eqb]. cbn. rewrite Hidx, Hat. repeat split.
Qed.

Lemma index_status_after_rebuild_witness :
  let E := Sample.externals_ok (Sample.constant_llm []) in
  let s := Routes.App false (Sample.machine_of fresh_service Sample.brochure_fs) in
  exists status,
    Routes.get_index_status E (py "error")
      (snd (Routes.rebuild_index E (py "error") s))
    = (Ok (status, 200), snd (Routes.rebuild_index E (py "error") s))
    /\ dict_get status "faiss_available" = Some (VBool true)
    /\ dict_get status "index_exists" = Some (VBool true).
Proof.
  intros E s.
  destruct (index_status_after_rebuild E (py "error") (py "error") s
              (snd (Routes.rebuild_index E (py "error") s))
              [kv "message" (VStr (py "FAISS index rebuilt successfully"))])
    as [status [Hrun [Havailable [Hexists _]]]].
  - vm_compute. reflexivity.
  - exists status. auto.
Defined.

(** X30.  The reset route drops the service and nothing else.  The next
    request that needs the service constructs it again; with a loadable
    index on disk the new service has that vector store and one document
    per stored document of its docstore, with its text as content and its
    id in the title, and the constructor does no more than load it: no
    PDF is read and the files stay as they are. *)
Theorem reset_forces_a_reload :
  forall (E : externals) (C : Routes.clock) (error_text : str) (s : Routes.app)
         (v : vectorstore) (dim : nat),
    index_loads E (Routes.world s) v dim ->
    exists body s1 body' s2,
      Routes.reset_rag_service_endpoint s = (Ok (body, 200), s1)
      /\ Routes.rag_service s1 = false
      /\ Routes.world s1 = Routes.world s
      /\ Routes.health_check E C error_text s1 = (Ok (body', 200), s2)
      /\ Routes.rag_service s2 = true
      /\ faiss_index (self (Routes.world s2)) = Present v
      /\ documents (self (Routes.world s2)) = docstore_entries v
      /\ fs (Routes.world s2) = fs (Routes.world s)
      /\ events_of (__init__ E) (Routes.world s) = [Call_load_faiss_index].
Proof.
  intros E C error_text s v dim Hloads.
  pose proof (init_loads E (Routes.world s) v dim Hloads) as Hinit.
  eexists. eexists. eexists. eexists.
  split; [reflexivity|]. cbn [Routes.rag_service Routes.world].
  split; [reflexivity|]. split; [reflexivity|].
  split.
  - unfold Routes.health_check, Routes.rtry, Routes.rbind, Routes.get_rag_service.
    cbn [Routes.rag_service Routes.world]. rewrite Hinit. reflexivity.
  - cbn [Routes.rag_service Routes.world self fs faiss_index documents].
    split; [reflexivity|]. split; [reflexivity|].
    split; [apply docstore_dicts_entries|]. split; [reflexivity|].
    exact (@events_of_run _ _ _ _ _ _ Hinit eq_refl).
Qed.

Lemma reset_forces_a_reload_witness :
  let E := Sample.externals_ok (Sample.constant_llm []) in
  let C := Routes.Clock (fun n => py "id-" ++ str_of_nat n) (py "2024-01-01T00:00:00") in
  let s := Routes.App true (Sample.machine_of Sample.indexed_service Sample.indexed_fs) in
  exists body' s2,
    Routes.health_check E C (py "error") (snd (Routes.reset_rag_service_endpoint s))
    = (Ok (body', 200), s2)
    /\ documents (self (Routes.world s2))
       = [ document_entry (py "id-a") Sample.doc_a;
           document_entry (py "id-b") Sample.doc_b ].
Proof.
  intros E C s.
  destruct (reset_forces_a_reload E C (py "error") s Sample.store 384)
    as [body [s1 [body' [s2 [Hreset [_ [_ [Hhealth [_ [_ [Hdocs _]]]]]]]]]]].
  - split; reflexivity.
  - exists body', s2. split; [|exact Hdocs].
    vm_compute in Hreset. injection Hreset as _ <-. exact Hhealth.
Defined.
